(** * Training and local scoring of a FashionMNIST classifier

    A shallow embedding of the two scripts of the repository,
    [endpoint-1/src/train.py] and [endpoint_1/src/score_local.py], and the
    properties of their specification that can be settled on the code.

    The scripts are glue around PyTorch, MLflow, [shutil] and [argparse].
    The glue is translated line by line; the libraries are represented by
    what their documentation promises, with the file system, the log of
    library calls and the raised exceptions as explicit state. *)

From Stdlib Require Import Ascii String ZArith QArith Qround Floats.SpecFloat.
From stdpp Require Import gmap strings list fin_maps pretty.
Close Scope Q_scope.
Local Open Scope Z_scope.
Local Open Scope string_scope.
Local Open Scope list_scope.

(** ** Exceptions and results *)

(** The Python exceptions the scripts can meet. *)
Inductive exn :=
| FileNotFoundError (path : string)
| FileExistsError (path : string)
| PermissionError (path : string)
| NotADirectoryError (path : string)
| DirectoryNotEmpty (path : string)
| shutil_Error (reasons : list (string * string))
| MlflowException (msg : string)
| OverflowError (msg : string)
| ValueError (msg : string)
| TypeError (msg : string)
| IndexError (msg : string)
| RuntimeError (msg : string)
| SystemExit (code : Z).

(** The exceptions that [except OSError] catches: the errors of the
    operating system, and [shutil.Error], which derives from [OSError]. *)
Definition is_OSError (e : exn) : bool :=
  match e with
  | FileNotFoundError _ | FileExistsError _ | PermissionError _
  | NotADirectoryError _ | DirectoryNotEmpty _ | shutil_Error _ => true
  | _ => false
  end.

Inductive result (A : Type) :=
| Ok (a : A)
| Raise (e : exn).
Arguments Ok {A} a.
Arguments Raise {A} e.

Definition is_ok {A} (r : result A) : bool :=
  match r with Ok _ => true | Raise _ => false end.

(** ** Python floats: IEEE-754 binary64, after the Standard Library's
    specification of floating-point arithmetic *)
Module Float64.

Definition prec : Z := 53.
Definition emax : Z := 1024.

Abbreviation float := spec_float.

(** [float(n)] for a Python int, as done implicitly by [n * x]: the
    nearest double, ties to even; an int beyond the range of doubles
    raises [OverflowError]. *)
Definition of_int (n : Z) : result float :=
  match binary_normalize prec emax n 0 false with
  | S754_infinity _ => Raise (OverflowError "int too large to convert to float")
  | x => Ok x
  end.

(** [x * y] on floats: the exact product rounded to nearest, ties to even. *)
Definition mul (x y : float) : float := SFmul prec emax x y.

(** [int(x)]: truncation toward zero; infinities and NaN raise. *)
Definition to_int (x : float) : result Z :=
  match x with
  | S754_zero _ => Ok 0
  | S754_finite s m e => Ok (cond_Zopp s (Z.shiftl (Z.pos m) e))
  | S754_infinity _ => Raise (OverflowError "cannot convert float infinity to integer")
  | S754_nan => Raise (ValueError "cannot convert float NaN to integer")
  end.

Definition is_finite (x : float) : bool :=
  match x with
  | S754_zero _ | S754_finite _ _ _ => true
  | _ => false
  end.

(** The rational number a finite float stands for (0 for the others). *)
Definition to_Q (x : float) : Q :=
  match x with
  | S754_finite s m e =>
      let v := if (0 <=? e)%Z then inject_Z (Z.pos m * 2 ^ e)
               else Qmake (Z.pos m) (Z.to_pos (2 ^ (- e))) in
      if s then Qopp v else v
  | _ => 0%Q
  end.

(** A double as Python holds it: a well-formed binary64 value. *)
Definition valid (x : float) : bool := valid_binary prec emax x.

(** [0.0 <= x <= 1.0], as Python compares floats. *)
Definition in_unit_interval (x : float) : bool :=
  match x with
  | S754_zero _ => true
  | S754_finite false m e => SFleb x (S754_finite false 4503599627370496 (-52))
  | _ => false
  end.

(** The literals of train.py. *)
Definition lit_0_8 : float := S754_finite false 7205759403792794 (-53).
Definition lit_0_1 : float := S754_finite false 7205759403792794 (-56).

(** Two more doubles, [0.7] and [-0.5]. *)
Definition lit_0_7 : float := S754_finite false 6305039478318694 (-53).
Definition lit_minus_0_5 : float := S754_finite true 4503599627370496 (-53).

(** And [0.5], [1.0] and [0.0]. *)
Definition lit_0_5 : float := S754_finite false 4503599627370496 (-53).
Definition lit_1_0 : float := S754_finite false 4503599627370496 (-52).
Definition lit_0_0 : float := S754_zero false.

End Float64.

(** ** argparse, as far as train.py uses it

  A parser holds its actions in the order they were added; the only kinds
  of action here are [store] (one string argument) and the built-in
  [help] (no argument, prints the usage and exits). The parsing
  functions follow [ArgumentParser._parse_optional],
  [_get_option_tuples] and [_parse_known_args] of the standard library,
  for parsers without positional arguments and with the prefix
  character [-]. *)
Module Argparse.

Inductive action_kind := store | help.

Record Action := {
  option_strings : list string;
  dest : string;
  default : string;
  kind : action_kind
}.

Record parser := { actions : list Action; allow_abbrev : bool }.

Definition help_action : Action :=
  {| option_strings := ["-h"; "--help"]; dest := "help";
     default := "==SUPPRESS=="; kind := help |}.

(** [argparse.ArgumentParser()]: [add_help] and [allow_abbrev] default to
    [True]. *)
Definition ArgumentParser : parser :=
  {| actions := [help_action]; allow_abbrev := true |}.

(** [parser.add_argument(flag, dest=dest, default=default)]. *)
Definition add_argument (flag dest default : string) (p : parser) : parser :=
  {| actions := actions p ++ [ {| option_strings := [flag]; dest := dest;
                                  default := default; kind := store |} ];
     allow_abbrev := allow_abbrev p |}.

(** [parser._option_string_actions], in insertion order. *)
Definition option_string_actions (p : parser) : list (string * Action) :=
  flat_map (fun a => map (fun o => (o, a)) (option_strings a)) (actions p).

Definition lookup_option (p : parser) (o : string) : option Action :=
  snd <$> find (fun oa => String.eqb (fst oa) o) (option_string_actions p).

(** [s.split('=', 1)] when ['=' in s]. *)
Fixpoint split_eq (s : string) : option (string * string) :=
  match s with
  | EmptyString => None
  | String c s' =>
      if Ascii.eqb c "="%char then Some (EmptyString, s')
      else match split_eq s' with
           | Some (l, r) => Some (String c l, r)
           | None => None
           end
  end.

Fixpoint contains_space (s : string) : bool :=
  match s with
  | EmptyString => false
  | String c s' => Ascii.eqb c " "%char || contains_space s'
  end.

Definition is_digit (c : ascii) : bool :=
  let n := nat_of_ascii c in (48 <=? n)%nat && (n <=? 57)%nat.

Fixpoint all_digits (s : string) : bool :=
  match s with
  | EmptyString => true
  | String c s' => is_digit c && all_digits s'
  end.

(** [\d*\.\d+$] at the start of [s]. *)
Fixpoint digits_dot_digits (s : string) : bool :=
  match s with
  | EmptyString => false
  | String c s' =>
      if Ascii.eqb c "."%char
      then negb (String.eqb s' EmptyString) && all_digits s'
      else is_digit c && digits_dot_digits s'
  end.

Fixpoint strip_final_newline (s : string) : string :=
  match s with
  | EmptyString => EmptyString
  | String c s' =>
      if Ascii.eqb c "010"%char && String.eqb s' EmptyString then EmptyString
      else String c (strip_final_newline s')
  end.

(** [parser._negative_number_matcher], the regular expression
    [^-\d+$|^-\d*\.\d+$]; [$] also matches before a final newline. *)
Definition negative_number (s : string) : bool :=
  match strip_final_newline s with
  | String "-" t =>
      (negb (String.eqb t EmptyString) && all_digits t) || digits_dot_digits t
  | _ => false
  end.

(** The reading of one command-line string. *)
Inductive arg_class :=
| Arg                     (* 'A': not an option *)
| DoubleDash              (* '-': the string "--" *)
| Opt (a : option Action) (option_string : string) (explicit_arg : option string)
| Ambiguous.              (* several options match: parser.error *)

Definition second_is_dash (s : string) : bool :=
  match s with
  | String _ (String "-" _) => true
  | _ => false
  end.

Definition get_option_tuples (p : parser) (s : string)
  : list (Action * string * option string) :=
  if second_is_dash s then
    if allow_abbrev p then
      let '(option_prefix, explicit_arg) :=
        match split_eq s with
        | Some (l, r) => (l, Some r)
        | None => (s, None)
        end in
      omap (fun '(o, a) =>
              if String.prefix option_prefix o then Some (a, o, explicit_arg)
              else None)
           (option_string_actions p)
    else []
  else
    let short_option_prefix := String.substring 0 2 s in
    let short_explicit_arg := String.substring 2 (String.length s - 2) s in
    omap (fun '(o, a) =>
            if String.eqb o short_option_prefix then Some (a, o, Some short_explicit_arg)
            else if String.prefix s o then Some (a, o, None)
            else None)
         (option_string_actions p).

Definition parse_optional (p : parser) (s : string) : arg_class :=
  match s with
  | EmptyString => Arg
  | String c _ =>
      if negb (Ascii.eqb c "-"%char) then Arg else
      match lookup_option p s with
      | Some a => Opt (Some a) s None
      | None =>
          if (String.length s =? 1)%nat then Arg else
          match split_eq s ≫= (fun '(o, v) => (fun a => (a, o, v)) <$> lookup_option p o) with
          | Some (a, o, v) => Opt (Some a) o (Some v)
          | None =>
              match get_option_tuples p s with
              | _ :: _ :: _ => Ambiguous
              | [(a, o, v)] => Opt (Some a) o v
              | [] =>
                  if negative_number s then Arg
                  else if contains_space s then Arg
                  else Opt None s None
              end
          end
      end
  end.

(** The pattern of the command line: everything after ["--"] is an
    argument. *)
Fixpoint classify (p : parser) (argv : list string) : list (string * arg_class) :=
  match argv with
  | [] => []
  | s :: rest =>
      if String.eqb s "--" then (s, DoubleDash) :: map (fun t => (t, Arg)) rest
      else (s, parse_optional p s) :: classify p rest
  end.

Abbreviation namespace := (gmap string string).

Definition defaults (p : parser) : namespace :=
  foldl (fun ns a => match kind a with
                     | store => <[dest a := default a]> ns
                     | help => ns
                     end) ∅ (actions p).

Definition usage_error {A} : result A := Raise (SystemExit 2).
Definition help_exit {A} : result A := Raise (SystemExit 0).

(** What [consume_optional] decides for one option string. *)
Inductive consumed :=
| StoreExplicit (a : Action) (v : string)   (* the value came with the option *)
| StoreNext (a : Action)                    (* the value is the next string *)
| PrintHelp
| HelpAfterNext                             (* the next string is taken, then help *)
| Bad.

(** The loop of [consume_optional] over a string of single-dash options,
    by recursion on the explicit argument; [pending] tells whether a
    [help] action is already waiting to be taken. *)
Fixpoint consume_explicit (p : parser) (pending : bool) (a : Action)
    (option_string : string) (explicit_arg : string) : consumed :=
  match kind a with
  | store => if pending then PrintHelp else StoreExplicit a explicit_arg
  | help =>
      if second_is_dash option_string then Bad else
      match explicit_arg with
      | EmptyString => Bad
      | String c rest =>
          match lookup_option p (String "-" (String c EmptyString)) with
          | None => Bad
          | Some a' =>
              match rest with
              | EmptyString =>
                  match kind a' with store => HelpAfterNext | help => PrintHelp end
              | _ => consume_explicit p true a' (String "-" (String c EmptyString)) rest
              end
          end
      end
  end.

Definition consume_optional (p : parser) (a : Action) (option_string : string)
    (explicit_arg : option string) : consumed :=
  match explicit_arg with
  | Some v => consume_explicit p false a option_string v
  | None => match kind a with store => StoreNext a | help => PrintHelp end
  end.

(** The consuming loop of [_parse_known_args]; [extras] tells whether a
    string was left unrecognised so far. The values are kept as they are
    written; for the one value that argparse does not keep, the string
    [--] joined to its option, which it replaces by an empty list, the
    namespace here holds the string. *)
Fixpoint consume (p : parser) (ns : namespace) (extras : bool)
    (line : list (string * arg_class)) : result namespace :=
  match line with
  | [] => if extras then usage_error else Ok ns
  | (_, Opt (Some a) o v) :: rest =>
      match consume_optional p a o v with
      | StoreExplicit a' x => consume p (<[dest a' := x]> ns) extras rest
      | StoreNext a' =>
          match rest with
          | (x, Arg) :: rest' => consume p (<[dest a' := x]> ns) extras rest'
          | _ => usage_error
          end
      | PrintHelp => help_exit
      | HelpAfterNext =>
          match rest with
          | (_, Arg) :: _ => help_exit
          | _ => usage_error
          end
      | Bad => usage_error
      end
  | _ :: rest => consume p ns true rest
  end.

Definition is_ambiguous (x : string * arg_class) : bool :=
  match snd x with Ambiguous => true | _ => false end.

(** [parser.parse_args(argv)]: the namespace, or [SystemExit] with status
    0 after printing the help and 2 after a usage error. *)
Definition parse_args (p : parser) (argv : list string) : result namespace :=
  let line := classify p argv in
  if existsb is_ambiguous line then usage_error
  else consume p (defaults p) false line.

End Argparse.

(** ** The training script, train.py *)
Module Train.

Import Float64.

Definition DATA_DIR : string := "aml-batch-endpoint-mlflow/data".
Definition MODEL_DIR : string := "aml-batch-endpoint-mlflow/endpoint-1/model".

Definition LABELS_MAP : gmap Z string :=
  list_to_map
    [(0, "T-Shirt"); (1, "Trouser"); (2, "Pullover"); (3, "Dress");
     (4, "Coat"); (5, "Sandal"); (6, "Shirt"); (7, "Sneaker");
     (8, "Bag"); (9, "Ankle Boot")].

(** *** The world outside the script *)

(** A regular file. A [locked] file can be neither unlinked nor
    overwritten by the script's process (it is held open elsewhere, is
    immutable, or belongs to another user in a sticky directory). *)
Record file := File { data : string; locked : bool }.

#[global] Instance file_eq_dec : EqDecision file.
Proof. solve_decision. Defined.

(** A directory tree is the finite map from the relative paths of its
    regular files to these files; the file system maps the paths of the
    directory trees the script touches to their contents. Each path is a
    key of its own: the map tells what happens on disk when the trees
    concerned share no file, that is when no path lies inside another
    ([apart], where the properties are stated). *)
Abbreviation directory := (gmap string file).
Abbreviation filesystem := (gmap string directory).

Record DataLoader := { dataset_len : Z; batch_size : Z; shuffle : bool }.

(** The calls the script makes into libraries, as they appear in its text. *)
Inductive call :=
| logging_basicConfig
| logging_info (msg : string)
| logging_info_vars (format : string) (args : gmap string string)
| parse_args_call (argv : list string)
| cuda_is_available
| FashionMNIST_call (root : string)
| random_split_call (lengths : list Z)
| DataLoader_call (length batch : Z)
| NeuralNetwork_call
| CrossEntropyLoss_call
| SGD_call (lr : float)
| fit_call
| evaluate_call
| log_metrics_call (metrics : list (string * float)) (step : Z)
| mlflow_save_model_call (path : string)
| rmtree_call (path : string) (ignore_errors : bool)
| copytree_call (src dst : string) (dirs_exist_ok : bool)
(** not a library call: the interpreter evaluating an expression of the
    script, named when the evaluation raises *)
| python_expr (source : string).

(** What the script cannot see inside: the framework, the tracking
    library and the machine it runs on. *)
Class Platform := {
  (** The framework-owned parameter set of [NeuralNetwork]. *)
  Model : Type;
  (** [NeuralNetwork()]. *)
  fresh_model : Model;
  (** [len(datasets.FashionMNIST(root, train=True, ...))]. *)
  full_len : string -> Z;
  (** Modelled from the spec: utils_train_nn.fit is not among the sources;
      it is the "framework-provided routine performing one training
      pass", which updates the model and returns (loss, accuracy). *)
  fit_pass : string -> DataLoader -> Model -> Model * (float * float);
  (** Modelled from the spec: utils_train_nn.evaluate is not among the
      sources; it is the "framework-provided routine performing one
      evaluation pass", which returns (loss, accuracy). *)
  evaluate_pass : string -> DataLoader -> Model -> float * float;
  (** The files [mlflow.pytorch.save_model] writes for a model, in the
      tracking library's own format, by relative path. *)
  serialize : Model -> gmap string string;
  (** [torch.cuda.is_available()]. *)
  cuda : bool;
  (** [tempfile.gettempdir()]. *)
  gettempdir : string;
  (** [str(uuid.uuid4())]. *)
  uuid4 : string;
  (** [Path(__file__).parent]. *)
  script_dir : string;
  (** [os.path.realpath]: the names that lead from the root to a path,
      symbolic links, [.] and [..] resolved. *)
  realpath : string -> list string;
  (** What [FashionMNIST(root, download=True)] writes under [root]: the
      states this directory tree goes through, one after the other, given
      the tree the call finds; none when the data set is already there. *)
  download : option directory -> list directory;
  (** Where [mlflow.log_metrics] keeps its runs ([./mlruns] unless the
      tracking URI says otherwise), and the states this directory tree
      goes through as the metrics of one step are logged; none when they
      are sent to a server. *)
  tracking_dir : string;
  record_metrics : list (string * float) -> Z -> option directory -> list directory;
  (** Failures of the environment: [faults n = Some e] makes the n-th
      library call of the run (counted from 0) raise [e] on entry. *)
  faults : nat -> option exn
}.

(** The state a run threads: the file system, the library calls made, the
    exceptions raised with the call that raised them, and every state the
    file system went through (each an observable point of the run);
    the lists are oldest first. *)
Record state := State {
  fs : filesystem;
  calls : list call;
  raised : list (call * exn);
  history : list filesystem
}.

Definition initial (f : filesystem) : state := State f [] [] [].

(** *** State and exceptions *)

Definition M (A : Type) : Type := state -> result A * state.

Definition ret {A} (a : A) : M A := fun s => (Ok a, s).

(** Sequencing: an exception ends the computation, the state stays as the
    failed step left it. *)
Definition bind {A B} (m : M A) (f : A -> M B) : M B := fun s =>
  match m s with
  | (Ok a, s') => f a s'
  | (Raise e, s') => (Raise e, s')
  end.

Declare Scope py_scope.
Delimit Scope py_scope with py.
Notation "x ← y ; z" := (bind y (fun x => z))
  (at level 20, y at level 100, z at level 200, only parsing) : py_scope.
Notation "' x ← y ; z" := (bind y (fun x => z))
  (at level 20, x pattern, y at level 100, z at level 200, only parsing) : py_scope.
Notation "x ;; z" := (bind x (fun _ => z))
  (at level 100, z at level 200, only parsing, right associativity) : py_scope.
Local Open Scope py_scope.

(** [raise e] inside library call [c]. *)
Definition throw {A} (c : call) (e : exn) : M A := fun s =>
  (Raise e, State (fs s) (calls s) (raised s ++ [(c, e)]) (history s)).

(** An exception on its way up. *)
Definition reraise {A} (e : exn) : M A := fun s => (Raise e, s).

(** [try: m except Exception as e: h e]. *)
Definition try_except {A} (m : M A) (h : exn -> M A) : M A := fun s =>
  match m s with
  | (Ok a, s') => (Ok a, s')
  | (Raise e, s') => h e s'
  end.

(** Entering a library call: it is logged, and the environment may make
    it fail. *)
Definition enter `{Platform} (c : call) : M unit := fun s =>
  let s' := State (fs s) (calls s ++ [c]) (raised s) (history s) in
  match faults (length (calls s)) with
  | Some e => throw c e s'
  | None => (Ok (), s')
  end.

(** A library call that touches nothing the script can observe. *)
Definition external `{Platform} {A} (c : call) (a : A) : M A :=
  enter c ;; ret a.

Definition get_fs : M filesystem := fun s => (Ok (fs s), s).

(** One change of the file system; the new state is observable. *)
Definition set_fs (f : filesystem) : M unit := fun s =>
  (Ok (), State f (calls s) (raised s) (history s ++ [f])).

(** [try: m except OSError as e: h e]. *)
Definition try_except_OSError {A} (m : M A) (h : exn -> M A) : M A :=
  try_except m (fun e => if is_OSError e then h e else reraise e).

(** [for x in xs: body x]. *)
Fixpoint for_each {A} (xs : list A) (body : A -> M unit) : M unit :=
  match xs with
  | [] => ret ()
  | x :: xs' => body x ;; for_each xs' body
  end.

(** A library call that writes under the directory tree [dir], which goes
    through the states that [stages] gives for the tree the call finds. *)
Definition external_writing `{Platform} {A} (c : call) (dir : string)
    (stages : option directory -> list directory) (a : A) : M A :=
  enter c ;;
  f ← get_fs;
  for_each (stages (f !! dir)) (fun d => set_fs (<[dir := d]> f)) ;;
  ret a.

(** [for i in range(n): acc = body i acc], the loop variable counted
    from [i0]. *)
Fixpoint for_range {A} (n : nat) (i0 : Z) (body : Z -> A -> M A) (acc : A) : M A :=
  match n with
  | O => ret acc
  | S n' => acc' ← body i0 acc; for_range n' (i0 + 1) body acc'
  end.

(** [Path(a, b)] for a relative [b]. *)
Definition path_join (a b : string) : string := a +:+ "/" +:+ b.

(** *** The file-system primitives *)

Definition os_unlink (c : call) (dir name : string) : M unit :=
  f ← get_fs;
  match f !! dir with
  | None => throw c (FileNotFoundError (path_join dir name))
  | Some d =>
      match d !! name with
      | None => throw c (FileNotFoundError (path_join dir name))
      | Some x =>
          if locked x then throw c (PermissionError (path_join dir name))
          else set_fs (<[dir := delete name d]> f)
      end
  end.

Definition os_rmdir (c : call) (dir : string) : M unit :=
  f ← get_fs;
  match f !! dir with
  | None => throw c (FileNotFoundError dir)
  | Some d =>
      if decide (d = ∅) then set_fs (delete dir f)
      else throw c (DirectoryNotEmpty dir)
  end.

(** [os.makedirs(dir, exist_ok=exist_ok)]. *)
Definition os_makedirs (c : call) (dir : string) (exist_ok : bool) : M unit :=
  f ← get_fs;
  match f !! dir with
  | Some _ => if exist_ok then ret () else throw c (FileExistsError dir)
  | None => set_fs (<[dir := ∅]> f)
  end.

(** Creating or overwriting one file with the given contents. *)
Definition write_file (c : call) (dir name contents : string) : M unit :=
  f ← get_fs;
  match f !! dir with
  | None => throw c (FileNotFoundError (path_join dir name))
  | Some d =>
      match d !! name with
      | Some (File _ true) => throw c (PermissionError (path_join dir name))
      | _ => set_fs (<[dir := <[name := File contents false]> d]> f)
      end
  end.

Definition read_file (c : call) (dir name : string) : M string :=
  f ← get_fs;
  match f !! dir ≫= (.!! name) with
  | None => throw c (FileNotFoundError (path_join dir name))
  | Some x => ret (data x)
  end.

(** *** shutil and mlflow *)

(** [shutil.rmtree(path, ignore_errors=ignore_errors)]. Every error met
    while deleting is handed to [onerror]: with [ignore_errors] it is
    dropped and the walk goes on, otherwise it is raised. When the path
    cannot even be looked at, rmtree returns after [onerror]. *)
Definition rmtree `{Platform} (path : string) (ignore_errors : bool) : M unit :=
  let c := rmtree_call path ignore_errors in
  let onerror (e : exn) : M unit :=
    if ignore_errors then ret () else reraise e in
  orig_st ← try_except
               (enter c ;;
                f ← get_fs;
                match f !! path with
                | Some d => ret (Some d)
                | None => throw c (FileNotFoundError path)
                end)
               (fun e => onerror e ;; ret None);
  match orig_st with
  | None => ret ()
  | Some d =>
      for_each (map fst (map_to_list d))
        (fun name => try_except (os_unlink c path name) onerror) ;;
      try_except (os_rmdir c path) onerror
  end.

(** [shutil.copy2(src/name, dst/name)], called by copytree [c]:
    [copyfile] opens the destination for writing, which creates it or
    empties it, and then fills it with the contents of the source. *)
Definition copy2 (c : call) (src dst name : string) (x : file) : M unit :=
  f ← get_fs;
  match f !! dst with
  | None => throw c (FileNotFoundError (path_join dst name))
  | Some d =>
      match d !! name with
      | Some (File _ true) => throw c (PermissionError (path_join dst name))
      | _ =>
          set_fs (<[dst := <[name := File EmptyString false]> d]> f) ;;
          set_fs (<[dst := <[name := File (data x) false]> d]> f)
      end
  end.

(** The loop of copytree over the entries of the source: an [OSError]
    of a copy is caught and kept as a reason, and the loop goes on. *)
Fixpoint copy_entries (c : call) (src dst : string) (entries : list (string * file))
  : M (list (string * string)) :=
  match entries with
  | [] => ret []
  | (name, x) :: rest =>
      errs ← try_except_OSError
                (copy2 c src dst name x ;; ret [])
                (fun why => ret [(path_join src name, path_join dst name)]);
      errs' ← copy_entries c src dst rest;
      ret (errs ++ errs')
  end.

(** [shutil.copytree(src, dst, dirs_exist_ok=dirs_exist_ok)]: the
    destination directory is made, every file is copied, and the failed
    copies are reported together in one [shutil.Error] at the end. *)
Definition copytree `{Platform} (src dst : string) (dirs_exist_ok : bool) : M string :=
  let c := copytree_call src dst dirs_exist_ok in
  enter c ;;
  f ← get_fs;
  match f !! src with
  | None => throw c (FileNotFoundError src)
  | Some d =>
      os_makedirs c dst dirs_exist_ok ;;
      errors ← copy_entries c src dst (map_to_list d);
      match errors with
      | [] => ret dst
      | _ => throw c (shutil_Error errors)
      end
  end.

(** The files of a saved model, in the order they are written: the code
    files under [code/], then the files of the model itself. *)
Definition artifact_files `{Platform} (model : Model) (code : list (string * string))
  : list (string * string) :=
  map (fun '(name, text) => ("code/" +:+ name, text)) code
    ++ map_to_list (serialize model).

(** One code path copied under [path/code]; mlflow turns an [OSError] of
    the copy into an [MlflowException]. A code path is given as the pair
    of its directory and its file name. *)
Definition copy_code_path (c : call) (path : string) (code_path : string * string)
  : M unit :=
  let '(dir, name) := code_path in
  try_except_OSError
    (text ← read_file c dir name;
     write_file c path ("code/" +:+ name) text)
    (fun e => throw c (MlflowException "Failed to copy the specified code path")).

(** [mlflow.pytorch.save_model(pytorch_model, path, code_paths)]: refuses
    a path that exists and is not empty, makes the directory, copies the
    code files under it and then writes the files of the model. *)
Definition mlflow_pytorch_save_model `{Platform} (pytorch_model : Model) (path : string)
    (code_paths : list (string * string)) : M unit :=
  let c := mlflow_save_model_call path in
  enter c ;;
  f ← get_fs;
  match f !! path with
  | Some d =>
      if decide (d = ∅) then ret ()
      else throw c (MlflowException "Path already exists and is not empty")
  | None => ret ()
  end ;;
  os_makedirs c path true ;;
  for_each code_paths (copy_code_path c path) ;;
  for_each (map_to_list (serialize pytorch_model))
    (fun '(name, text) => write_file c path name text).

(** *** The script *)

(** Lines 50 to 52 of [load_train_val_data]:
    [train_len = int(full_train_len * training_fraction)] and
    [val_len = full_train_len - train_len]. *)
Definition split_lengths (full_train_len : Z) (training_fraction : float) : result (Z * Z) :=
  match of_int full_train_len with
  | Raise e => Raise e
  | Ok x =>
      match to_int (mul x training_fraction) with
      | Raise e => Raise e
      | Ok train_len =>
          let val_len := full_train_len - train_len in
          Ok (train_len, val_len)
      end
  end.

(** [DataLoader(data, batch_size=batch_size, shuffle=True)] over a split
    of [length] items: the random sampler that [shuffle=True] asks for
    refuses a split that holds no item. The lengths meant are those
    within the data set, which line 51 gives for a fraction in [0,1];
    what [random_split] makes of a negative length depends on the
    version of torch, and such a split counts as empty here. *)
Definition DataLoader_shuffled `{Platform} (length batch_size : Z) : M DataLoader :=
  let c := DataLoader_call length batch_size in
  enter c ;;
  if (length <=? 0)%Z
  then throw c (ValueError "num_samples should be a positive integer value")
  else ret {| dataset_len := length; batch_size := batch_size; shuffle := true |}.

Definition load_train_val_data `{Platform} (data_dir : string) (batch_size : Z)
    (training_fraction : float) : M (DataLoader * DataLoader) :=
  full_train_len ← external_writing (FashionMNIST_call data_dir) data_dir download
                     (full_len data_dir);
  '(train_len, val_len) ←
    match split_lengths full_train_len training_fraction with
    | Ok x => ret x
    | Raise e => throw (python_expr "int(full_train_len * training_fraction)") e
    end;
  external (random_split_call [train_len; val_len]) () ;;
  train_loader ← DataLoader_shuffled train_len batch_size;
  val_loader ← DataLoader_shuffled val_len batch_size;
  ret (train_loader, val_loader).

Definition save_model `{Platform} (model_dir : string) (model : Model) : M unit :=
  let code_paths := ["neural_network.py"; "utils_train_nn.py"] in
  let full_code_paths := map (fun code_path => (script_dir, code_path)) code_paths in
  let temp_path := path_join gettempdir uuid4 in
  external (logging_info ("Saving model to " +:+ temp_path)) () ;;
  mlflow_pytorch_save_model model temp_path full_code_paths ;;
  external (logging_info ("Copying model to " +:+ model_dir)) () ;;
  rmtree model_dir true ;;
  copytree temp_path model_dir true ;;
  ret ().

Definition epoch_metrics (training validation : float * float) : list (string * float) :=
  [("training_loss", training.1); ("training_accuracy", training.2);
   ("validation_loss", validation.1); ("validation_accuracy", validation.2)].

Definition train `{Platform} (data_dir model_dir device : string) : M unit :=
  let learning_rate := lit_0_1 in
  let batch_size := 64 in
  let epochs := 5%nat in
  '(train_dataloader, val_dataloader) ←
    load_train_val_data data_dir batch_size lit_0_8;
  model ← external NeuralNetwork_call fresh_model;
  external CrossEntropyLoss_call () ;;
  external (SGD_call learning_rate) () ;;
  model ← for_range epochs 0
    (fun epoch model =>
       external (logging_info ("Epoch " +:+ pretty (epoch + 1))) () ;;
       '(model, training) ← external fit_call (fit_pass device train_dataloader model);
       validation ← external evaluate_call (evaluate_pass device val_dataloader model);
       let metrics := epoch_metrics training validation in
       external_writing (log_metrics_call metrics epoch) tracking_dir
         (record_metrics metrics epoch) () ;;
       ret model)
    model;
  save_model model_dir model.

(** The call of [train] with the dictionary [kwargs] unpacked into keyword
    arguments, next to [device=device]: the keys must be exactly the
    remaining parameters of [train]. *)
Definition call_train `{Platform} (kwargs : gmap string string) (device : string) : M unit :=
  match kwargs !! "data_dir", kwargs !! "model_dir" with
  | Some data_dir, Some model_dir =>
      if decide (size kwargs = 2%nat) then train data_dir model_dir device
      else throw (python_expr "train called with vars(args) unpacked")
             (TypeError "train() got an unexpected keyword argument")
  | _, _ => throw (python_expr "train called with vars(args) unpacked")
              (TypeError "train() missing required positional arguments")
  end.

Definition main_parser : Argparse.parser :=
  Argparse.add_argument "--model_dir" "model_dir" MODEL_DIR
    (Argparse.add_argument "--data_dir" "data_dir" DATA_DIR
       Argparse.ArgumentParser).

(** [main()], with [sys.argv[1:]] as its input. *)
Definition main `{Platform} (argv : list string) : M unit :=
  external logging_basicConfig () ;;
  let parser := main_parser in
  enter (parse_args_call argv) ;;
  args ← match Argparse.parse_args parser argv with
         | Ok ns => ret ns
         | Raise e => throw (parse_args_call argv) e
         end;
  external (logging_info_vars "input parameters: %s" args) () ;;
  available ← external cuda_is_available cuda;
  let device := if available : bool then "cuda" else "cpu" in
  call_train args device.

End Train.

(** ** The local scoring script, score_local.py *)
Module ScoreLocal.

Definition IMAGES_DIR : string := "aml_batch_endpoint/test_data/images".
Definition MODEL_DIR : string := "aml_batch_endpoint/endpoint_1/model".

(** [torchvision.datasets.FashionMNIST.classes]. *)
Definition FashionMNIST_classes : list string :=
  ["T-shirt/top"; "Trouser"; "Pullover"; "Dress"; "Coat";
   "Sandal"; "Shirt"; "Sneaker"; "Bag"; "Ankle boot"].

(** What a directory entry is: a regular file, a directory, something
    else (socket, device, pipe), a symbolic link with what it points to,
    or a symbolic link that cannot be resolved. *)
Inductive node :=
| Regular (contents : string)
| Directory
| Special
| Link (target : node)
| BrokenLink.

(** [Path.is_file(f)]: whether the path leads to a regular file, links
    followed; [False] for a link that cannot be resolved. *)
Fixpoint is_file (n : node) : bool :=
  match n with
  | Regular _ => true
  | Link n' => is_file n'
  | _ => false
  end.

Class Platform := {
  Model : Type;
  Image : Type;
  (** [mlflow.pytorch.load_model(path)]. *)
  load_model : string -> result Model;
  (** [Path(dir).iterdir()]: the entries of the directory, by name, in
      the order the system lists them. *)
  iterdir : string -> result (list (string * node));
  (** [torch.cuda.is_available()]. *)
  cuda : bool;
  (** Reading the image stored at a path. *)
  open_image : string -> result Image;
  (** The class index the model answers for one image on a device. *)
  forward : Model -> string -> Image -> nat
}.

Definition bind {A B} (r : result A) (f : A -> result B) : result B :=
  match r with
  | Ok a => f a
  | Raise e => Raise e
  end.

Declare Scope score_scope.
Notation "x ← y ; z" := (bind y (fun x => z))
  (at level 20, y at level 100, z at level 200, only parsing) : score_scope.
Local Open Scope score_scope.

(** [(Path(dir) / name).as_posix()]. *)
Definition as_posix (dir name : string) : string := dir +:+ "/" +:+ name.

(** Modelled from the spec: dataset.FashionMNISTDatasetFromImages is not
    among the sources; it is the "dataset wrapper" built over the image
    paths, with one item per path, in order. *)
Definition FashionMNISTDatasetFromImages (image_paths : list string) : list string :=
  image_paths.

(** [DataLoader(dataset)]: batches of one item, in the order of the
    dataset. *)
Definition DataLoader (dataset : list string) : list string := dataset.

(** Modelled from the spec: utils_score_nn.predict is not among the
    sources; it "runs predictions" over the data loader and returns one
    class index per item. *)
Fixpoint predict `{Platform} (dataloader : list string) (model : Model) (device : string)
  : result (list nat) :=
  match dataloader with
  | [] => Ok []
  | path :: rest =>
      x ← open_image path;
      indices ← predict rest model device;
      Ok (forward model device x :: indices)
  end.

(** [[classes[i] for i in indices]]. *)
Fixpoint labels_of (classes : list string) (indices : list nat) : result (list string) :=
  match indices with
  | [] => Ok []
  | i :: rest =>
      match classes !! i with
      | None => Raise (IndexError "list index out of range")
      | Some label =>
          labels ← labels_of classes rest;
          Ok (label :: labels)
      end
  end.

(** The comprehension of lines 22 to 24. *)
Definition image_paths_of (dir : string) (entries : list (string * node)) : list string :=
  map (fun f => as_posix dir f.1) (filter (fun f => is_file f.2 = true) entries).

(** [main()]; the result is the list of predictions it logs. *)
Definition main `{Platform} : result (list string) :=
  model ← load_model MODEL_DIR;
  let device := if cuda then "cuda" else "cpu" in
  entries ← iterdir IMAGES_DIR;
  let image_paths := image_paths_of IMAGES_DIR entries in
  let images_dataset := FashionMNISTDatasetFromImages image_paths in
  let dataloader := DataLoader images_dataset in
  predicted_indices ← predict dataloader model device;
  predictions ← labels_of FashionMNIST_classes predicted_indices;
  Ok predictions.

End ScoreLocal.

(** A small machine to run the scoring script on. *)
Module ScoreExample.
Import ScoreLocal.

#[export] Instance platform : Platform := {|
  Model := nat;
  Image := string;
  load_model := fun _ => Ok 3%nat;
  iterdir := fun _ =>
    Ok [("boot.png", Regular "0110"); ("thumbs", Directory);
        ("bag.png", Link (Regular "1001")); ("gone.png", BrokenLink)];
  cuda := false;
  open_image := fun path => Ok path;
  forward := fun m _ x => ((String.length x + m) mod 10)%nat
|}.

Definition entries : list (string * node) :=
  [("boot.png", Regular "0110"); ("thumbs", Directory);
   ("bag.png", Link (Regular "1001")); ("gone.png", BrokenLink)].
End ScoreExample.


(** Two more machines for the scoring script: one whose images directory
    holds no regular file, and one where no model has been saved. *)
Module ScoreExample2.
Import ScoreLocal.

Definition entries_without_files : list (string * node) :=
  [("thumbs", Directory); ("gone.png", BrokenLink); ("pipe", Link Special)].

#[export] Instance platform_empty : Platform := {|
  Model := nat;
  Image := string;
  load_model := fun _ => Ok 3%nat;
  iterdir := fun _ => Ok entries_without_files;
  cuda := true;
  open_image := fun path => Raise (FileNotFoundError path);
  forward := fun m _ x => 11%nat
|}.

#[export] Instance platform_no_model : Platform := {|
  Model := nat;
  Image := string;
  load_model := fun path => Raise (MlflowException "Could not find an MLmodel configuration file");
  iterdir := fun path => Raise (FileNotFoundError path);
  cuda := false;
  open_image := fun path => Ok path;
  forward := fun m _ x => 0%nat
|}.

End ScoreExample2.

(** ** What the properties of the training script are stated with *)
Module TrainSpec.

Import Float64 Train.

(** The temporary directory of [save_model]. *)
Definition temp_path `{Platform} : string := path_join gettempdir uuid4.

(** The library calls of one epoch starting from [model], and the model the
    epoch leaves. *)
Definition epoch_calls `{Platform} (device : string) (train_loader val_loader : DataLoader)
    (epoch : Z) (model : Model) : list call * Model :=
  let fitted := fit_pass device train_loader model in
  let validation := evaluate_pass device val_loader fitted.1 in
  ([logging_info ("Epoch " +:+ pretty (epoch + 1)); fit_call; evaluate_call;
    log_metrics_call (epoch_metrics fitted.2 validation) epoch],
   fitted.1).

Fixpoint epochs_calls `{Platform} (device : string) (train_loader val_loader : DataLoader)
    (n : nat) (epoch : Z) (model : Model) : list call * Model :=
  match n with
  | O => ([], model)
  | S n' =>
      let this := epoch_calls device train_loader val_loader epoch model in
      let others := epochs_calls device train_loader val_loader n' (epoch + 1) this.2 in
      (this.1 ++ others.1, others.2)
  end.

Definition save_model_calls `{Platform} (model_dir : string) : list call :=
  [logging_info ("Saving model to " +:+ temp_path);
   mlflow_save_model_call temp_path;
   logging_info ("Copying model to " +:+ model_dir);
   rmtree_call model_dir true;
   copytree_call temp_path model_dir true].

Definition loader (length batch : Z) : DataLoader :=
  {| dataset_len := length; batch_size := batch; shuffle := true |}.

(** The library calls of a whole run of [train], in order. *)
Definition train_calls `{Platform} (data_dir model_dir device : string) : list call :=
  FashionMNIST_call data_dir ::
  match split_lengths (full_len data_dir) lit_0_8 with
  | Raise _ => []
  | Ok (train_len, val_len) =>
      [random_split_call [train_len; val_len];
       DataLoader_call train_len 64; DataLoader_call val_len 64;
       NeuralNetwork_call; CrossEntropyLoss_call; SGD_call lit_0_1]
      ++ (epochs_calls device (loader train_len 64) (loader val_len 64)
            5 0 fresh_model).1
      ++ save_model_calls model_dir
  end.

(** The steps of the training pipeline, as the specification names them. *)
Inductive step :=
| LoadData
| SplitData
| InstantiateModel
| Fit
| Evaluate
| LogMetrics (epoch : Z)
| SaveModel.

(** The step a library call carries out; [save_model] is entered where
    mlflow is asked to save. *)
Definition step_of (c : call) : option step :=
  match c with
  | FashionMNIST_call _ => Some LoadData
  | random_split_call _ => Some SplitData
  | NeuralNetwork_call => Some InstantiateModel
  | fit_call => Some Fit
  | evaluate_call => Some Evaluate
  | log_metrics_call _ epoch => Some (LogMetrics epoch)
  | mlflow_save_model_call _ => Some SaveModel
  | _ => None
  end.

Definition epoch_steps (epoch : Z) : list step := [Fit; Evaluate; LogMetrics epoch].

Definition pipeline : list step :=
  [LoadData; SplitData; InstantiateModel]
  ++ epoch_steps 0 ++ epoch_steps 1 ++ epoch_steps 2 ++ epoch_steps 3 ++ epoch_steps 4
  ++ [SaveModel].

(** What a computation adds to the logs of a state. *)
Definition calls_during {A} (m : M A) (s : state) : list call :=
  drop (length (calls s)) (calls (m s).2).
Definition raised_during {A} (m : M A) (s : state) : list (call * exn) :=
  drop (length (raised s)) (raised (m s).2).
Definition states_during {A} (m : M A) (s : state) : list filesystem :=
  drop (length (history s)) (history (m s).2).

(** [traces m l v]: a run of [m] makes the calls [l] in this order, stopping
    early only when it raises, and returns [v] when it returns. *)
Definition traces {A} (m : M A) (l : list call) (v : A) : Prop :=
  ∀ s r s', m s = (r, s') →
    ∃ done, calls s' = calls s ++ done ∧ done `prefix_of` l ∧
            ∀ a, r = Ok a → done = l ∧ a = v.

(** A computation that makes no call of its own. *)
Definition silent {A} (m : M A) : Prop :=
  ∀ s r s', m s = (r, s') → calls s' = calls s.

Definition is_rmtree (c : call) : bool :=
  match c with rmtree_call _ true => true | _ => false end.

Definition is_copytree (c : call) : bool :=
  match c with copytree_call _ _ _ => true | _ => false end.

Definition is_mlflow_save (c : call) : bool :=
  match c with mlflow_save_model_call _ => true | _ => false end.

(** What becomes of an exception [e] raised inside the library call [c],
    in a run of outcome [r]: it is this outcome, as it was raised; or one
    of three libraries has caught it: [shutil.rmtree(...,
    ignore_errors=True)] drops it, [shutil.copytree] keeps an [OSError]
    of a copy and raises one [shutil.Error] at the end, and
    [mlflow.pytorch.save_model] raises an [MlflowException] in place of
    an [OSError] of copying a code file. *)
Definition accounted {A} (c : call) (e : exn) (r : result A) : Prop :=
  r = Raise e ∨
  is_rmtree c = true ∨
  (is_copytree c = true ∧ is_OSError e = true ∧
   ∃ reasons, r = Raise (shutil_Error reasons)) ∨
  (is_mlflow_save c = true ∧ is_OSError e = true ∧
   ∃ msg, r = Raise (MlflowException msg)).

(** [faithful m]: whatever is raised during a run of [m] is accounted for
    by the outcome of the run. *)
Definition faithful {A} (m : M A) : Prop :=
  ∀ s r s', m s = (r, s') →
    ∃ new, raised s' = raised s ++ new ∧ ∀ c e, (c, e) ∈ new → accounted c e r.

(** [raises_within c m]: whatever is raised during a run of [m] is raised
    inside the library call [c]. *)
Definition raises_within {A} (c : call) (m : M A) : Prop :=
  ∀ s r s', m s = (r, s') →
    ∃ new, raised s' = raised s ++ new ∧ ∀ c' e, (c', e) ∈ new → c' = c.

(** [steps I m]: a run of [m] that starts in a file system satisfying [I]
    goes only through file systems satisfying [I]. *)
Definition steps (I : filesystem → Prop) {A} (m : M A) : Prop :=
  ∀ s r s', I (fs s) → m s = (r, s') →
    I (fs s') ∧ ∃ h, history s' = history s ++ h ∧ Forall I h.

(** Nothing outside the directory tree [path] differs between [f0] and [f]. *)
Definition untouched_but (path : string) (f0 f : filesystem) : Prop :=
  ∀ q, q ≠ path → f !! q = f0 !! q.

(** [f] is [f0] with some of the files under [path], or the whole
    directory, deleted. *)
Definition shrinking (path : string) (f0 f : filesystem) : Prop :=
  untouched_but path f0 f ∧
  ∀ d', f !! path = Some d' → ∃ d0, f0 !! path = Some d0 ∧ d' ⊆ d0.

(** The file [x] is the file [y] as far as it has been written: it holds
    the first characters of [y], perhaps none, perhaps all. *)
Definition written_so_far (x y : file) : Prop :=
  locked x = false ∧ ∃ rest, data y = data x +:+ rest.

(** [f] is [f0] with some of the files of [src] copied under [dst], the
    last of them perhaps in part: every file under [dst] is one that was
    there in [f0] or a copy of a file of [src] as far as it is written. *)
Definition filling (src dst : string) (f0 f : filesystem) : Prop :=
  untouched_but dst f0 f ∧
  ∀ d' name x, f !! dst = Some d' → d' !! name = Some x →
    (f0 !! dst ≫= (.!! name)) = Some x ∨
    ∃ y, (f0 !! src ≫= (.!! name)) = Some y ∧ written_so_far x y.

(** The file of this name, if there is one, can be overwritten. *)
Definition writable (d : directory) (name : string) : Prop :=
  ∀ x, d !! name = Some x → locked x = false.

(** The directory [mlflow.pytorch.save_model] leaves for a model and the
    texts of its code files. *)
Definition saved_model_dir `{Platform} (model : Model) (code : list (string * string))
  : directory :=
  foldl (fun d '(name, text) => <[name := File text false]> d) ∅
        (artifact_files model code).

(** The texts of the two code files, as found beside the script. *)
Definition code_of `{Platform} (f : filesystem) : option (list (string * string)) :=
  d ← f !! script_dir;
  x ← d !! "neural_network.py";
  y ← d !! "utils_train_nn.py";
  Some [("neural_network.py", data x); ("utils_train_nn.py", data y)].

(** A directory holds a loadable model when every file of the saved model
    is there with its contents. *)
Definition loadable (d art : directory) : Prop :=
  ∀ name x, art !! name = Some x → d !! name = Some x.

(** A state of the second phase of [save_model], started in [f0]: the
    temporary directory holds the whole saved model, and every file under
    [model_dir] is one it held in [f0] or a file of the saved model as
    far as it is written. *)
Definition replacing_state `{Platform} (model_dir : string) (model : Model)
    (f0 f : filesystem) : Prop :=
  ∃ code, code_of f0 = Some code ∧
          f !! temp_path = Some (saved_model_dir model code) ∧
          ∀ d name x, f !! model_dir = Some d → d !! name = Some x →
            (f0 !! model_dir ≫= (.!! name)) = Some x ∨
            ∃ y, saved_model_dir model code !! name = Some y ∧ written_so_far x y.

(** Whether the names that lead to [q] begin with those that lead to [p]. *)
Fixpoint leads_to (p q : list string) : bool :=
  match p, q with
  | [], _ => true
  | _ :: _, [] => false
  | x :: p', y :: q' => bool_decide (x = y) && leads_to p' q'
  end.

(** The path [p] is the directory [q] or lies inside it. *)
Definition inside `{Platform} (p q : string) : bool :=
  leads_to (realpath q) (realpath p).

(** Two directory trees that share no file: neither path lies inside the
    other. What is written under one of them leaves the other as it is. *)
Definition apart `{Platform} (p q : string) : Prop :=
  inside p q = false ∧ inside q p = false.

(** Directory trees that lie apart from one another, pair by pair. *)
Fixpoint all_apart `{Platform} (paths : list string) : Prop :=
  match paths with
  | [] => True
  | p :: rest => Forall (apart p) rest ∧ all_apart rest
  end.

End TrainSpec.

(** A small machine to run the training script on: a model that counts its
    training passes, two code files beside the script, and an output
    directory left by an earlier run. *)
Module TrainExample.
Import Train.

(** The names of a path between its slashes; [acc] holds the characters
    of the name being read, last first. *)
Fixpoint names_of (s : string) (acc : string) : list string :=
  let name := match acc with EmptyString => [] | _ => [String.rev acc] end in
  match s with
  | EmptyString => name
  | String a s' =>
      if decide (a = "/"%char) then name ++ names_of s' EmptyString
      else names_of s' (String a acc)
  end.

(** The real path on a machine without symbolic links, the script being
    run in [/work]. *)
Definition realpath_in_work (p : string) : list string :=
  match p with
  | String "/" _ => names_of p EmptyString
  | _ => "work" :: names_of p EmptyString
  end.

(** The data set is fetched when there is nothing under its root. *)
Definition fetch (found : option directory) : list directory :=
  match found with
  | Some _ => []
  | None =>
      [ {[ "FashionMNIST/raw/train-images-idx3-ubyte" := File "images" false ]};
        {[ "FashionMNIST/raw/train-images-idx3-ubyte" := File "images" false;
           "FashionMNIST/raw/train-labels-idx1-ubyte" := File "labels" false ]} ]
  end.

(** One file for the metrics of each step. *)
Definition keep_metrics (metrics : list (string * Float64.float)) (step : Z)
    (found : option directory) : list directory :=
  [ <["0/metrics/step-" +:+ pretty step := File "logged" false]> (default ∅ found) ].

#[export] Instance platform : Platform := {|
  Model := nat;
  fresh_model := 0%nat;
  full_len := fun _ => 60000;
  fit_pass := fun _ _ m => (S m, (Float64.lit_0_1, Float64.lit_0_8));
  evaluate_pass := fun _ _ m => (Float64.lit_0_1, Float64.lit_0_8);
  serialize := fun m =>
    {[ "MLmodel" := "flavors: pytorch"; "data/model.pth" := pretty m ]};
  cuda := false;
  gettempdir := "/tmp";
  uuid4 := "1b4e28ba";
  script_dir := "src";
  realpath := realpath_in_work;
  download := fetch;
  tracking_dir := "mlruns";
  record_metrics := keep_metrics;
  faults := fun _ => None
|}.

(** The same machine, where the seventeenth library call of a run, the fit
    of the second epoch, fails. *)
#[export] Instance platform_failing : Platform := {|
  Model := nat;
  fresh_model := 0%nat;
  full_len := fun _ => 60000;
  fit_pass := fun _ _ m => (S m, (Float64.lit_0_1, Float64.lit_0_8));
  evaluate_pass := fun _ _ m => (Float64.lit_0_1, Float64.lit_0_8);
  serialize := fun m =>
    {[ "MLmodel" := "flavors: pytorch"; "data/model.pth" := pretty m ]};
  cuda := false;
  gettempdir := "/tmp";
  uuid4 := "1b4e28ba";
  script_dir := "src";
  realpath := realpath_in_work;
  download := fetch;
  tracking_dir := "mlruns";
  record_metrics := keep_metrics;
  faults := fun n => if (n =? 16)%nat then Some (RuntimeError "CUDA out of memory") else None
|}.

Definition code_dir : directory :=
  {[ "neural_network.py" := File "class NeuralNetwork" false;
     "utils_train_nn.py" := File "def fit" false ]}.

(** No output directory yet. *)
Definition fs_fresh : filesystem := {[ "src" := code_dir ]}.

(** An output directory from an earlier run. *)
Definition fs_rerun : filesystem :=
  {[ "src" := code_dir;
     "out" := {[ "MLmodel" := File "flavors: sklearn" false;
                 "notes.txt" := File "first run" false ]} ]}.

(** The same, with a file the process cannot delete. *)
Definition fs_locked : filesystem :=
  {[ "src" := code_dir;
     "out" := {[ "MLmodel" := File "flavors: sklearn" false;
                 "notes.txt" := File "first run" true ]} ]}.

(** The model after five epochs, and what saving it leaves. *)
Definition trained : nat := 5%nat.

Definition artifact : directory :=
  {[ "code/neural_network.py" := File "class NeuralNetwork" false;
     "code/utils_train_nn.py" := File "def fit" false;
     "MLmodel" := File "flavors: pytorch" false;
     "data/model.pth" := File "5" false ]}.

End TrainExample.

(** ** What the properties of the command line are stated with *)
Module CliSpec.

Import Argparse.

(** Some string of the command line is read as an option whose value goes
    to [d]. *)
Definition selects (p : parser) (argv : list string) (d : string) : Prop :=
  ∃ s a o v, (s, Opt (Some a) o v) ∈ classify p argv ∧ dest a = d.

(** The options a script declares itself, with [add_argument]: option
    string, destination and default. *)
Definition declared (p : parser) : list (list string * string * string) :=
  omap (fun a => match kind a with
                 | store => Some (option_strings a, dest a, default a)
                 | help => None
                 end) (actions p).

(** A string that can follow an option as its value. *)
Definition is_value (p : parser) (v : string) : Prop :=
  v ≠ "--" ∧ parse_optional p v = Arg.

(** A command line that does nothing but set options: every string is
    read as an option that stores a value, with the value joined to it
    by [=], or is the value that follows such an option. *)
Inductive settings_only : list (string * arg_class) → Prop :=
| settings_none : settings_only []
| settings_joined s a o v rest :
    kind a = store → settings_only rest →
    settings_only ((s, Opt (Some a) o (Some v)) :: rest)
| settings_next s a o x rest :
    kind a = store → settings_only rest →
    settings_only ((s, Opt (Some a) o None) :: (x, Arg) :: rest).

End CliSpec.

(** ** What further properties of the two scripts are stated with *)
Module TrainSpec2.

Import Float64 Train TrainSpec.

(** The model after [n] training passes over a loader. *)
Definition trained `{Platform} (device : string) (train_loader : DataLoader) (n : nat)
  : Model :=
  Nat.iter n (fun model => (fit_pass device train_loader model).1) fresh_model.

(** The model [train] hands to [save_model]: five passes over the
    training part of the data set under [data_dir]; the fresh model when
    the lengths of line 51 are not computed. *)
Definition final_model `{Platform} (data_dir device : string) : Model :=
  match split_lengths (full_len data_dir) lit_0_8 with
  | Ok (train_len, _) => trained device (loader train_len 64) 5
  | Raise _ => fresh_model
  end.

(** The metrics of the epoch that follows [k] training passes: the loss
    and accuracy its training pass returns, and those of the evaluation
    of the model this pass leaves. *)
Definition metrics_of_epoch `{Platform} (device : string)
    (train_loader val_loader : DataLoader) (k : nat) : list (string * float) :=
  epoch_metrics (fit_pass device train_loader (trained device train_loader k)).2
    (evaluate_pass device val_loader (trained device train_loader (S k))).

(** The metrics handed to [mlflow.log_metrics], with their steps, and the
    messages handed to [logging.info], among a list of calls. *)
Definition metrics_logged (l : list call) : list (list (string * float) * Z) :=
  omap (fun c => match c with
                 | log_metrics_call metrics step => Some (metrics, step)
                 | _ => None
                 end) l.

Definition messages_logged (l : list call) : list string :=
  omap (fun c => match c with logging_info msg => Some msg | _ => None end) l.

(** Nothing but the directories [paths] differs between [f0] and [f]. *)
Definition confined (paths : list string) (f0 f : filesystem) : Prop :=
  ∀ q, q ∉ paths → f !! q = f0 !! q.

(** Every directory tree that lies apart from all of [paths] is in [f]
    as it is in [f0]. *)
Definition only_changes `{Platform} (paths : list string) (f0 f : filesystem) : Prop :=
  ∀ q, Forall (apart q) paths → f !! q = f0 !! q.

(** [extends m]: a run of [m] only adds to the log of calls. *)
Definition extends {A} (m : M A) : Prop :=
  ∀ s r s', m s = (r, s') → ∃ new, calls s' = calls s ++ new.

(** [until c R m]: a run of [m] only adds to the log of calls and, as
    long as it has not made the call [c], it ends in a file system
    related by [R] to the one it started in. *)
Definition until (c : call) (R : filesystem → filesystem → Prop) {A} (m : M A) : Prop :=
  ∀ s r s', m s = (r, s') →
    ∃ new, calls s' = calls s ++ new ∧ (c ∈ new ∨ R (fs s) (fs s')).

(** [lands m a paths]: from every state [m] returns [a], and changes
    nothing but the directories [paths]. *)
Definition lands {A} (m : M A) (a : A) (paths : list string) : Prop :=
  ∀ s, ∃ s', m s = (Ok a, s') ∧ confined paths (fs s) (fs s').

(** The first two library calls of [main]. *)
Definition main_prologue (argv : list string) : list call :=
  [logging_basicConfig; parse_args_call argv].

End TrainSpec2.

Module CliSpec2.

Import Argparse CliSpec.

(** The two options of train.py. *)
Inductive flag := data_dir_flag | model_dir_flag.

Definition option_string_of (f : flag) : string :=
  match f with data_dir_flag => "--data_dir" | model_dir_flag => "--model_dir" end.

Definition dest_of (f : flag) : string :=
  match f with data_dir_flag => "data_dir" | model_dir_flag => "model_dir" end.

(** One option given on the command line, with its value either as the
    next string or joined to the option by [=]. *)
Record setting := { which : flag; value : string; joined : bool }.

Definition render (st : setting) : list string :=
  if joined st then [option_string_of (which st) +:+ "=" +:+ value st]
  else [option_string_of (which st); value st].

Definition assign (ns : namespace) (st : setting) : namespace :=
  <[dest_of (which st) := value st]> ns.

(** The value of the last setting of an option, if it is set at all. *)
Definition last_value (f : flag) (sts : list setting) : option string :=
  last (omap (fun st => match f, which st with
                        | data_dir_flag, data_dir_flag
                        | model_dir_flag, model_dir_flag => Some (value st)
                        | _, _ => None
                        end) sts).

Definition default_of (f : flag) : string :=
  match f with
  | data_dir_flag => Train.DATA_DIR
  | model_dir_flag => Train.MODEL_DIR
  end.

(** The action [add_argument] makes for an option. *)
Definition action_of (f : flag) : Action :=
  {| option_strings := [option_string_of f]; dest := dest_of f;
     default := default_of f; kind := store |}.

(** How the strings of one setting are read. *)
Definition line_of (st : setting) : list (string * arg_class) :=
  if joined st
  then [(option_string_of (which st) +:+ "=" +:+ value st,
         Opt (Some (action_of (which st))) (option_string_of (which st))
           (Some (value st)))]
  else [(option_string_of (which st),
         Opt (Some (action_of (which st))) (option_string_of (which st)) None);
        (value st, Arg)].

(** A namespace whose values are the strings of the command line. A
    value written as [--] and joined to its option by [=] is not kept by
    argparse, which stores an empty list in its place; the namespace of
    this model holds the string, and the properties of [main] leave
    such command lines out. *)
Definition plain_values (ns : namespace) : Prop :=
  map_Forall (fun _ v => v ≠ "--") ns.

(** A value that the command line can carry: joined to its option it may
    be any string but ["--"]; as a string of its own it must not look
    like an option. *)
Definition well_formed (p : parser) (st : setting) : Prop :=
  if joined st then value st ≠ "--" else is_value p (value st).

End CliSpec2.

(** One more file system for the training script: an output directory
    from an earlier run, and only one of the two code files beside the
    script. *)
Module TrainExample2.
Import Train.

Definition fs_without_code : filesystem :=
  {[ "src" := {[ "neural_network.py" := File "class NeuralNetwork" false ]};
     "out" := {[ "MLmodel" := File "flavors: sklearn" false ]} ]}.

(** An output directory whose MLmodel file the process can neither
    delete nor overwrite. *)
Definition fs_locked_model : filesystem :=
  {[ "src" := TrainExample.code_dir;
     "out" := {[ "MLmodel" := File "flavors: sklearn" true ]} ]}.

End TrainExample2.

(** * Properties of the scoring script *)
Section ScoreLocalFacts.

Import ScoreLocal.
Context `{P : Platform}.

Lemma as_posix_inj dir name name' :
  as_posix dir name = as_posix dir name' → name = name'.
Proof.
  unfold as_posix. induction dir as [|c dir IH]; simpl.
  - by intros [=].
  - intros [=]. by apply IH.
Qed.

Lemma image_paths_of_spec dir entries p :
  p ∈ image_paths_of dir entries ↔
  ∃ name n, (name, n) ∈ entries ∧ is_file n = true ∧ p = as_posix dir name.
Proof.
  unfold image_paths_of. rewrite list_elem_of_fmap. split.
  - intros [[name n] [-> [Hf Hin]%list_elem_of_filter]]. eauto.
  - intros (name & n & Hin & Hf & ->). exists (name, n).
    split; [done|]. by apply list_elem_of_filter.
Qed.

Lemma length_image_paths_of dir entries :
  length (image_paths_of dir entries)
  = length (filter (fun f => is_file f.2 = true) entries).
Proof. unfold image_paths_of. apply length_map. Qed.

Lemma predict_length dataloader model device indices :
  predict dataloader model device = Ok indices →
  length indices = length dataloader.
Proof.
  revert indices. induction dataloader as [|path rest IH]; simpl; intros indices.
  - by intros [= <-].
  - destruct (open_image path) as [x|]; simpl; [|done].
    destruct (predict rest model device) as [l|]; simpl; [|done].
    intros [= <-]. simpl. f_equal. by apply IH.
Qed.

Lemma predict_returns dataloader model device :
  Forall (fun path => is_ok (open_image path) = true) dataloader →
  ∃ indices, predict dataloader model device = Ok indices.
Proof.
  induction 1 as [|path rest Hp _ [l IH]]; simpl; [by eexists|].
  destruct (open_image path) as [x|]; [|done]. simpl.
  rewrite IH. simpl. by eexists.
Qed.

Lemma predict_range dataloader model device indices bound :
  (∀ m d x, (forward m d x < bound)%nat) →
  predict dataloader model device = Ok indices →
  Forall (fun i => (i < bound)%nat) indices.
Proof.
  intros Hb. revert indices.
  induction dataloader as [|path rest IH]; simpl; intros indices.
  - intros [= <-]. constructor.
  - destruct (open_image path) as [x|]; simpl; [|done].
    destruct (predict rest model device) as [l|]; simpl; [|done].
    intros [= <-]. constructor; [apply Hb | by apply IH].
Qed.

Lemma labels_of_length classes indices labels :
  labels_of classes indices = Ok labels → length labels = length indices.
Proof.
  revert labels. induction indices as [|i rest IH]; simpl; intros labels.
  - by intros [= <-].
  - destruct (classes !! i) as [label|]; [|done].
    destruct (labels_of classes rest) as [l|]; simpl; [|done].
    intros [= <-]. simpl. f_equal. by apply IH.
Qed.

Lemma labels_of_elem classes indices labels :
  labels_of classes indices = Ok labels → Forall (.∈ classes) labels.
Proof.
  revert labels. induction indices as [|i rest IH]; simpl; intros labels.
  - intros [= <-]. constructor.
  - destruct (classes !! i) as [label|] eqn:Hi; [|done].
    destruct (labels_of classes rest) as [l|]; simpl; [|done].
    intros [= <-]. constructor; [|by apply IH].
    by eapply list_elem_of_lookup_2.
Qed.

Lemma labels_of_returns classes indices :
  Forall (fun i => (i < length classes)%nat) indices →
  ∃ labels, labels_of classes indices = Ok labels.
Proof.
  induction 1 as [|i rest Hi _ [l IH]]; simpl; [by eexists|].
  destruct (lookup_lt_is_Some_2 classes i Hi) as [label ->].
  rewrite IH. simpl. by eexists.
Qed.

(** How a run of [main] that returns is put together. *)
Lemma main_inv predictions :
  main = Ok predictions →
  ∃ model entries indices,
    load_model MODEL_DIR = Ok model ∧ iterdir IMAGES_DIR = Ok entries ∧
    predict (image_paths_of IMAGES_DIR entries) model
      (if cuda then "cuda" else "cpu") = Ok indices ∧
    labels_of FashionMNIST_classes indices = Ok predictions.
Proof.
  unfold main, FashionMNISTDatasetFromImages, DataLoader.
  destruct (load_model MODEL_DIR) as [model|]; simpl; [|done].
  destruct (iterdir IMAGES_DIR) as [entries|]; simpl; [|done].
  destruct (predict _ model _) as [indices|] eqn:Hp; simpl; [|done].
  destruct (labels_of _ indices) as [labels|] eqn:Hl; simpl; [|done].
  intros [= <-]. by exists model, entries, indices.
Qed.


(** C10. Only the entries of the images directory that [Path.is_file]
    accepts are enumerated: an entry that is not a regular file (a
    subdirectory, a special file, a link that does not lead to a regular
    file) is not among the image paths, every image path is such a regular
    file, and the predictions are as many as these files. *)
Theorem only_regular_files_are_scored entries :
  iterdir IMAGES_DIR = Ok entries →
  NoDup entries.*1 →
  (∀ name n, (name, n) ∈ entries → is_file n = false →
             as_posix IMAGES_DIR name ∉ image_paths_of IMAGES_DIR entries) ∧
  (∀ p, p ∈ image_paths_of IMAGES_DIR entries →
        ∃ name n, (name, n) ∈ entries ∧ is_file n = true ∧
                  p = as_posix IMAGES_DIR name) ∧
  (∀ predictions, main = Ok predictions →
     length predictions
     = length (filter (fun f => is_file f.2 = true) entries)).
Proof.
  intros He Hnd. split; [|split].
  - intros name n Hin Hf (name' & n' & Hin' & Hf' & Heq%as_posix_inj)%image_paths_of_spec.
    subst name'.
    assert (n = n') as <-; [|congruence].
    pose proof (elem_of_list_to_map_1 (M := gmap string) _ _ _ Hnd Hin) as H1.
    pose proof (elem_of_list_to_map_1 (M := gmap string) _ _ _ Hnd Hin') as H2.
    congruence.
  - intros p Hp. by apply image_paths_of_spec.
  - intros predictions (model & entries' & indices & _ & He' & Hp & Hl)%main_inv.
    rewrite He in He'. injection He' as <-.
    rewrite (labels_of_length _ _ _ Hl), (predict_length _ _ _ _ Hp).
    apply length_image_paths_of.
Qed.

End ScoreLocalFacts.


Lemma only_regular_files_are_scored_witness :
ScoreLocal.as_posix ScoreLocal.IMAGES_DIR "thumbs"
  ∉ ScoreLocal.image_paths_of ScoreLocal.IMAGES_DIR ScoreExample.entries.
Proof.
refine (proj1 (only_regular_files_are_scored (P := ScoreExample.platform)
                 ScoreExample.entries _ _) "thumbs" ScoreLocal.Directory _ _).
- reflexivity.
- apply (bool_decide_unpack _). vm_compute. exact I.
- apply list_elem_of_In. simpl. tauto.
- reflexivity.
Defined.

(** * Properties of the training script *)

(** ** The order of the library calls *)
Section TrainCalls.

Import Float64 Train TrainSpec.
Context `{P : Platform}.
Local Open Scope py_scope.

Lemma traces_ret {A} (v : A) : traces (ret v) [] v.
Proof.
  intros s r s' [= <- <-]. exists []. rewrite app_nil_r.
  split; [done|]. split; [done|]. by intros a [= <-].
Qed.

Lemma traces_bind {A B} (m : M A) (f : A → M B) l1 l2 v1 v2 :
  traces m l1 v1 → traces (f v1) l2 v2 → traces (bind m f) (l1 ++ l2) v2.
Proof.
  intros Hm Hf s r s'. unfold bind.
  destruct (m s) as [[a|e] s1] eqn:Em.
  - destruct (Hm _ _ _ Em) as (d1 & Hc1 & _ & Hok).
    destruct (Hok a eq_refl) as [-> ->]. intros Ef.
    destruct (Hf _ _ _ Ef) as (d2 & Hc2 & Hp2 & Hok2).
    exists (l1 ++ d2). rewrite Hc2, Hc1, <- (assoc_L (++)).
    split; [done|]. split; [by apply prefix_app|].
    intros b Hb. destruct (Hok2 b Hb) as [-> ->]. done.
  - intros [= <- <-].
    destruct (Hm _ _ _ Em) as (d1 & Hc1 & Hp1 & _).
    exists d1. split; [done|]. split; [by apply prefix_app_r|]. done.
Qed.

Lemma traces_throw {A} c e l (v : A) : traces (throw c e) l v.
Proof.
  intros s r s' [= <- <-]. exists []. simpl. rewrite app_nil_r.
  split; [done|]. split; [apply prefix_nil|]. done.
Qed.

Lemma enter_calls c s r s' :
  enter c s = (r, s') → calls s' = calls s ++ [c].
Proof.
  unfold enter. destruct (faults _); [unfold throw|]; by intros [= <- <-].
Qed.

Lemma traces_enter c : traces (enter c) [c] ().
Proof.
  intros s r s' H. exists [c]. split; [by eapply enter_calls|].
  split; [done|]. by intros [] _.
Qed.

Lemma traces_external {A} c (v : A) : traces (external c v) [c] v.
Proof.
  unfold external. change [c] with ([c] ++ []).
  eapply traces_bind; [apply traces_enter | apply traces_ret].
Qed.

Lemma silent_ret {A} (a : A) : silent (ret a).
Proof. by intros s r s' [= <- <-]. Qed.

Lemma silent_throw {A} c e : silent (@throw A c e).
Proof. by intros s r s' [= <- <-]. Qed.

Lemma silent_reraise {A} e : silent (@reraise A e).
Proof. by intros s r s' [= <- <-]. Qed.

Lemma silent_get_fs : silent get_fs.
Proof. by intros s r s' [= <- <-]. Qed.

Lemma silent_set_fs f : silent (set_fs f).
Proof. by intros s r s' [= <- <-]. Qed.

Lemma silent_bind {A B} (m : M A) (f : A → M B) :
  silent m → (∀ a, silent (f a)) → silent (bind m f).
Proof.
  intros Hm Hf s r s'. unfold bind.
  destruct (m s) as [[a|e] s1] eqn:Em.
  - intros Ef. rewrite (Hf _ _ _ _ Ef). by eapply Hm.
  - intros [= <- <-]. by eapply Hm.
Qed.

Lemma silent_try_except {A} (m : M A) (h : exn → M A) :
  silent m → (∀ e, silent (h e)) → silent (try_except m h).
Proof.
  intros Hm Hh s r s'. unfold try_except.
  destruct (m s) as [[a|e] s1] eqn:Em.
  - intros [= <- <-]. by eapply Hm.
  - intros Eh. rewrite (Hh _ _ _ _ Eh). by eapply Hm.
Qed.

Lemma silent_for_each {A} (xs : list A) (body : A → M unit) :
  (∀ x, silent (body x)) → silent (for_each xs body).
Proof.
  intros Hb. induction xs as [|x xs IH]; simpl.
  - apply silent_ret.
  - apply silent_bind; [apply Hb | by intros _].
Qed.

Create HintDb silent discriminated.
#[local] Hint Resolve silent_ret silent_throw silent_reraise silent_get_fs
  silent_set_fs : silent.

Ltac silent_step :=
  first [ apply silent_bind; [|intros ?]
        | apply silent_try_except; [|intros ?]
        | progress unfold try_except_OSError
        | apply silent_for_each; intros ?
        | solve [auto with silent]
        | match goal with
          | |- silent (match ?x with _ => _ end) => destruct x
          | |- silent (if ?x then _ else _) => destruct x
          | |- silent (let '(_, _) := ?x in _) => destruct x
          end ].

Lemma silent_os_unlink c dir name : silent (os_unlink c dir name).
Proof. unfold os_unlink. repeat silent_step. Qed.

Lemma silent_os_rmdir c dir : silent (os_rmdir c dir).
Proof. unfold os_rmdir. repeat silent_step. Qed.

Lemma silent_os_makedirs c dir exist_ok : silent (os_makedirs c dir exist_ok).
Proof. unfold os_makedirs. repeat silent_step. Qed.

Lemma silent_write_file c dir name text : silent (write_file c dir name text).
Proof. unfold write_file. repeat silent_step. Qed.

Lemma silent_read_file c dir name : silent (read_file c dir name).
Proof. unfold read_file. repeat silent_step. Qed.

Lemma silent_copy2 c src dst name x : silent (copy2 c src dst name x).
Proof. unfold copy2. repeat silent_step. Qed.

Lemma silent_copy_entries c src dst entries : silent (copy_entries c src dst entries).
Proof.
  induction entries as [|[name x] rest IH]; simpl; [apply silent_ret|].
  apply silent_bind; [|intros errs].
  - repeat silent_step; try apply silent_copy2.
  - apply silent_bind; [done|intros errs']. apply silent_ret.
Qed.

Lemma silent_copy_code_path c path code_path : silent (copy_code_path c path code_path).
Proof.
  destruct code_path as [dir name]. unfold copy_code_path.
  repeat silent_step; first [apply silent_read_file|apply silent_write_file].
Qed.

Lemma silent_writing_body {A} dir stages (a : A) :
  silent (f ← get_fs;
          for_each (stages (f !! dir)) (fun d => set_fs (<[dir := d]> f)) ;;
          ret a).
Proof. repeat silent_step. Qed.

(** A library function: one logged call, then a body that makes none. The
    call is logged even when the function fails. *)
Lemma traces_library {A} c (body : M A) l (v : A) :
  silent body → [c] `prefix_of` l → (∀ s a s', body s = (Ok a, s') → l = [c] ∧ a = v) →
  traces (enter c ;; body) l v.
Proof.
  intros Hb Hl Hv s r s'. unfold bind.
  destruct (enter c s) as [[[]|e] s1] eqn:Ee.
  - intros Eb. exists [c]. rewrite (Hb _ _ _ Eb), (enter_calls _ _ _ _ Ee).
    split; [done|]. split; [done|]. intros a ->.
    destruct (Hv _ _ _ Eb) as [-> ->]. done.
  - intros [= <- <-]. exists [c]. rewrite (enter_calls _ _ _ _ Ee).
    split; [done|]. split; [done|]. done.
Qed.

Lemma traces_writing {A} c dir stages (a : A) : traces (external_writing c dir stages a) [c] a.
Proof.
  unfold external_writing. apply traces_library; [apply silent_writing_body|done|].
  intros s a' s'. unfold bind, get_fs.
  destruct (for_each _ _ s) as [[[]|e] s1]; [|done]. by intros [= <- <-].
Qed.

Lemma traces_DataLoader_shuffled length batch :
  traces (DataLoader_shuffled length batch) [DataLoader_call length batch]
         (loader length batch).
Proof.
  unfold DataLoader_shuffled. apply traces_library; [|done|].
  - repeat silent_step.
  - intros s a s'. destruct (length <=? 0)%Z; [done|]. by intros [= <- <-].
Qed.

Lemma silent_mlflow_save_body model path code_paths :
  silent (f ← get_fs;
          match f !! path with
          | Some d =>
              if decide (d = ∅) then ret ()
              else throw (mlflow_save_model_call path)
                     (MlflowException "Path already exists and is not empty")
          | None => ret ()
          end ;;
          os_makedirs (mlflow_save_model_call path) path true ;;
          for_each code_paths (copy_code_path (mlflow_save_model_call path) path) ;;
          for_each (map_to_list (serialize model))
            (fun '(name, text) => write_file (mlflow_save_model_call path) path name text)).
Proof.
  repeat silent_step; try apply silent_os_makedirs; try apply silent_write_file;
    try apply silent_copy_code_path.
Qed.

Lemma traces_mlflow_save model path code_paths :
  traces (mlflow_pytorch_save_model model path code_paths)
         [mlflow_save_model_call path] ().
Proof.
  unfold mlflow_pytorch_save_model.
  apply traces_library; [apply silent_mlflow_save_body|done|by intros s [] s'].
Qed.

Lemma silent_copytree_body src dst dirs_exist_ok :
  silent (f ← get_fs;
          match f !! src with
          | None => throw (copytree_call src dst dirs_exist_ok) (FileNotFoundError src)
          | Some d =>
              os_makedirs (copytree_call src dst dirs_exist_ok) dst dirs_exist_ok ;;
              errors ← copy_entries (copytree_call src dst dirs_exist_ok) src dst
                         (map_to_list d);
              match errors with
              | [] => ret dst
              | _ => throw (copytree_call src dst dirs_exist_ok) (shutil_Error errors)
              end
          end).
Proof.
  repeat silent_step; try apply silent_os_makedirs; try apply silent_copy_entries.
Qed.

Lemma copytree_calls src dst dirs_exist_ok s r s' :
  copytree src dst dirs_exist_ok s = (r, s') →
  calls s' = calls s ++ [copytree_call src dst dirs_exist_ok].
Proof.
  unfold copytree, bind at 1.
  destruct (enter _ s) as [[[]|e] s1] eqn:Ee.
  - intros Eb. rewrite <- (enter_calls _ _ _ _ Ee).
    by eapply silent_copytree_body.
  - intros [= <- <-]. by eapply enter_calls.
Qed.

Lemma traces_copytree src dst dirs_exist_ok :
  traces (copytree src dst dirs_exist_ok ;; ret ()) [copytree_call src dst dirs_exist_ok] ().
Proof.
  intros s r s' H.
  assert (∃ r0, copytree src dst dirs_exist_ok s = (r0, s')) as (r0 & Hc).
  { revert H. unfold bind at 1.
    destruct (copytree src dst dirs_exist_ok s) as [[b|e] s1];
      intros [= <- <-]; by eexists. }
  exists [copytree_call src dst dirs_exist_ok].
  split; [by eapply copytree_calls|]. split; [done|]. by intros [] _.
Qed.

Lemma once_then_silent {A B} c (m : M A) (f : A → M B) s r s' :
  (∀ s r s', m s = (r, s') → calls s' = calls s ++ [c]) →
  (∀ a, silent (f a)) →
  bind m f s = (r, s') → calls s' = calls s ++ [c].
Proof.
  intros Hm Hf. unfold bind. destruct (m s) as [[a|e] s1] eqn:Em.
  - intros Ef. rewrite (Hf _ _ _ _ Ef). by eapply Hm.
  - intros [= <- <-]. by eapply Hm.
Qed.

Lemma once_try_except {A} c (m : M A) (h : exn → M A) s r s' :
  (∀ s r s', m s = (r, s') → calls s' = calls s ++ [c]) →
  (∀ e, silent (h e)) →
  try_except m h s = (r, s') → calls s' = calls s ++ [c].
Proof.
  intros Hm Hh. unfold try_except. destruct (m s) as [[a|e] s1] eqn:Em.
  - intros [= <- <-]. by eapply Hm.
  - intros Eh. rewrite (Hh _ _ _ _ Eh). by eapply Hm.
Qed.

Lemma rmtree_calls path ignore_errors s r s' :
  rmtree path ignore_errors s = (r, s') →
  calls s' = calls s ++ [rmtree_call path ignore_errors].
Proof.
  set (c := rmtree_call path ignore_errors).
  set (onerror := fun e : exn => if ignore_errors then ret () else reraise e).
  assert (∀ e, silent (onerror e)) as Hon.
  { intros e. unfold onerror. destruct ignore_errors; auto with silent. }
  unfold rmtree. fold c. fold onerror.
  apply once_then_silent.
  - intros s0 r0 s0'. apply once_try_except.
    + intros s1 r1 s1'. apply once_then_silent; [apply enter_calls|].
      intros _. repeat silent_step.
    + intros e. repeat silent_step; try apply Hon.
  - intros [d|]; repeat silent_step;
      try apply silent_os_unlink; try apply silent_os_rmdir; try apply Hon.
Qed.

Lemma traces_rmtree path ignore_errors :
  traces (rmtree path ignore_errors) [rmtree_call path ignore_errors] ().
Proof.
  intros s r s' H. exists [rmtree_call path ignore_errors].
  split; [by eapply rmtree_calls|]. split; [done|]. by intros [] _.
Qed.

Lemma traces_bind_throw {A B} c e (f : A → M B) l v :
  traces (bind (throw c e) f) l v.
Proof.
  intros s r s' [= <- <-]. exists []. simpl. rewrite app_nil_r.
  split; [done|]. split; [apply prefix_nil|]. done.
Qed.

Lemma traces_bind_fails {A B} (m : M A) (f : A → M B) l v1 v2 :
  traces m l v1 → (∀ s a s', m s ≠ (Ok a, s')) → traces (bind m f) l v2.
Proof.
  intros Hm Hno s r s'. unfold bind.
  destruct (m s) as [[a|e] s1] eqn:Em; [by destruct (Hno s a s1)|].
  intros [= <- <-]. destruct (Hm _ _ _ Em) as (d & Hc & Hp & _).
  exists d. done.
Qed.

Lemma traces_load_train_val_data data_dir batch training_fraction :
  traces (load_train_val_data data_dir batch training_fraction)
    (FashionMNIST_call data_dir ::
     match split_lengths (full_len data_dir) training_fraction with
     | Raise _ => []
     | Ok (train_len, val_len) =>
         [random_split_call [train_len; val_len];
          DataLoader_call train_len batch; DataLoader_call val_len batch]
     end)
    (match split_lengths (full_len data_dir) training_fraction with
     | Raise _ => (loader 0 batch, loader 0 batch)
     | Ok (train_len, val_len) => (loader train_len batch, loader val_len batch)
     end).
Proof.
  unfold load_train_val_data.
  apply (traces_bind _ _ [_] _ (full_len data_dir)); [apply traces_writing|].
  destruct (split_lengths _ _) as [[train_len val_len]|e].
  - apply (traces_bind _ _ [] _ (train_len, val_len)); [apply traces_ret|].
    apply (traces_bind _ _ [_] _ ()); [apply traces_external|].
    apply (traces_bind _ _ [_] _ (loader train_len batch));
      [apply traces_DataLoader_shuffled|].
    apply (traces_bind _ _ [_] [] (loader val_len batch));
      [apply traces_DataLoader_shuffled|].
    apply traces_ret.
  - apply traces_bind_throw.
Qed.

(** When the lengths of line 51 are not computed, the loading raises. *)
Lemma load_raises data_dir batch_size f e s :
  split_lengths (full_len data_dir) f = Raise e →
  ∀ a s', load_train_val_data data_dir batch_size f s ≠ (Ok a, s').
Proof.
  intros Es a s'. unfold load_train_val_data, bind at 1.
  destruct (external_writing _ _ _ _ s) as [[n|e'] s1] eqn:Ew; [|done].
  destruct (traces_writing _ _ _ _ _ _ _ Ew) as (d & _ & _ & Hok).
  destruct (Hok n eq_refl) as [_ ->]. rewrite Es.
  by unfold bind, throw.
Qed.

(** A run of [train] that returns has computed the two lengths. *)
Lemma train_returns_split data_dir model_dir device s :
  (train data_dir model_dir device s).1 = Ok () →
  ∃ train_len val_len,
    split_lengths (full_len data_dir) lit_0_8 = Ok (train_len, val_len).
Proof.
  destruct (split_lengths (full_len data_dir) lit_0_8) as [[t v]|e] eqn:Es;
    [by eauto|].
  unfold train, bind at 1.
  destruct (load_train_val_data data_dir 64 lit_0_8 s) as [[a|e'] s1] eqn:El; [|done].
  by destruct (load_raises data_dir 64 lit_0_8 e s Es a s1).
Qed.

Lemma traces_save_model model_dir model :
  traces (save_model model_dir model) (save_model_calls model_dir) ().
Proof.
  unfold save_model, save_model_calls.
  apply (traces_bind _ _ [_] _ ()); [apply traces_external|].
  apply (traces_bind _ _ [_] _ ()); [apply traces_mlflow_save|].
  apply (traces_bind _ _ [_] _ ()); [apply traces_external|].
  apply (traces_bind _ _ [_] _ ()); [apply traces_rmtree|].
  apply traces_copytree.
Qed.

Lemma traces_epochs device train_loader val_loader n epoch model :
  traces
    (for_range n epoch
       (fun epoch model =>
          external (logging_info ("Epoch " +:+ pretty (epoch + 1))) () ;;
          '(model, training) ← external fit_call (fit_pass device train_loader model);
          validation ← external evaluate_call (evaluate_pass device val_loader model);
          let metrics := epoch_metrics training validation in
          external_writing (log_metrics_call metrics epoch) tracking_dir
            (record_metrics metrics epoch) () ;;
          ret model)
       model)
    (epochs_calls device train_loader val_loader n epoch model).1
    (epochs_calls device train_loader val_loader n epoch model).2.
Proof.
  revert epoch model. induction n as [|n IH]; intros epoch model;
    cbn [for_range epochs_calls fst snd].
  - apply traces_ret.
  - eapply traces_bind; [|apply IH].
    unfold epoch_calls. cbn [fst snd].
    apply (traces_bind _ _ [_] _ ()); [apply traces_external|].
    apply (traces_bind _ _ [_] _ (fit_pass device train_loader model));
      [apply traces_external|].
    destruct (fit_pass device train_loader model) as [model' training]. simpl.
    apply (traces_bind _ _ [_] _ (evaluate_pass device val_loader model'));
      [apply traces_external|].
    apply (traces_bind _ _ [_] [] ()); [apply traces_writing|].
    apply traces_ret.
Qed.

Lemma traces_train data_dir model_dir device :
  traces (train data_dir model_dir device) (train_calls data_dir model_dir device) ().
Proof.
  unfold train, train_calls.
  pose proof (traces_load_train_val_data data_dir 64 lit_0_8) as Hl.
  destruct (split_lengths (full_len data_dir) lit_0_8) as [[train_len val_len]|e] eqn:Es.
  - change (FashionMNIST_call data_dir :: ?l)
      with ([FashionMNIST_call data_dir; random_split_call [train_len; val_len];
             DataLoader_call train_len 64; DataLoader_call val_len 64]
            ++ [NeuralNetwork_call] ++ [CrossEntropyLoss_call] ++ [SGD_call lit_0_1]
            ++ (epochs_calls device (loader train_len 64) (loader val_len 64)
                  5 0 fresh_model).1
            ++ save_model_calls model_dir).
    eapply traces_bind; [apply Hl|]. cbn beta iota.
    apply (traces_bind _ _ [_] _ fresh_model); [apply traces_external|].
    apply (traces_bind _ _ [_] _ ()); [apply traces_external|].
    apply (traces_bind _ _ [_] _ ()); [apply traces_external|].
    eapply traces_bind; [apply traces_epochs|].
    apply traces_save_model.
  - apply (traces_bind_fails _ _ _ _ _ Hl).
    intros s a s'. by eapply load_raises.
Qed.

Lemma omap_prefix {A B} (f : A → option B) (l1 l2 : list A) :
  l1 `prefix_of` l2 → omap f l1 `prefix_of` omap f l2.
Proof. intros [k ->]. rewrite omap_app. by apply prefix_app_r. Qed.

Lemma train_calls_pipeline data_dir model_dir device :
  omap step_of (train_calls data_dir model_dir device) `prefix_of` pipeline ∧
  (is_ok (split_lengths (full_len data_dir) lit_0_8) = true →
   omap step_of (train_calls data_dir model_dir device) = pipeline).
Proof.
  unfold train_calls.
  destruct (split_lengths _ _) as [[train_len val_len]|e]; simpl.
  - split; [|done]. done.
  - split; [|done]. by eexists.
Qed.

(** C7. The training driver makes its library calls in the order of
    [train_calls]: it loads the data, splits it, instantiates the model,
    then for each of the five epochs calls fit, evaluate and log_metrics
    (with the metrics and the index of that epoch), and after the last
    epoch saves the model, once. A run that raises stops somewhere along
    this sequence. *)
Theorem training_steps_in_order data_dir model_dir device s r s' :
  train data_dir model_dir device s = (r, s') →
  ∃ done,
    calls s' = calls s ++ done ∧
    done `prefix_of` train_calls data_dir model_dir device ∧
    omap step_of done `prefix_of` pipeline ∧
    (r = Ok () → done = train_calls data_dir model_dir device ∧
                 omap step_of done = pipeline).
Proof.
  intros H. destruct (traces_train data_dir model_dir device _ _ _ H)
    as (done & Hc & Hp & Hok).
  destruct (train_calls_pipeline data_dir model_dir device) as [Hpre Hfull].
  exists done. split; [done|]. split; [done|]. split.
  - etrans; [by apply omap_prefix|done].
  - intros ->. destruct (Hok () eq_refl) as [-> _]. split; [done|].
    apply Hfull.
    (* the run returned, so the split lengths were computed *)
    destruct (train_returns_split data_dir model_dir device s) as (t & v & ->);
      [by rewrite H|done].
Qed.

End TrainCalls.

Lemma training_steps_in_order_witness :
  omap TrainSpec.step_of
    (Train.calls (@Train.train TrainExample.platform "data" "out" "cpu"
                    (Train.initial TrainExample.fs_rerun)).2)
  = TrainSpec.pipeline.
Proof.
  destruct (training_steps_in_order (P := TrainExample.platform) "data" "out" "cpu"
              (Train.initial TrainExample.fs_rerun) (Ok ())
              (@Train.train TrainExample.platform "data" "out" "cpu"
                 (Train.initial TrainExample.fs_rerun)).2)
    as (done & Hc & _ & _ & Hok).
  - vm_compute. reflexivity.
  - rewrite Hc. apply Hok. reflexivity.
Defined.

(** ** What becomes of the exceptions *)
Section TrainRaised.

Import Float64 Train TrainSpec.
Context `{P : Platform}.
Local Open Scope py_scope.

Lemma faithful_quiet {A} (m : M A) :
  (∀ s r s', m s = (r, s') → raised s' = raised s) → faithful m.
Proof.
  intros H s r s' E. exists []. rewrite app_nil_r, (H _ _ _ E).
  split; [done|]. intros c e Hin. by apply elem_of_nil in Hin.
Qed.

Lemma faithful_ret {A} (a : A) : faithful (ret a).
Proof. apply faithful_quiet. by intros s r s' [= <- <-]. Qed.

Lemma faithful_get_fs : faithful get_fs.
Proof. apply faithful_quiet. by intros s r s' [= <- <-]. Qed.

Lemma faithful_set_fs f : faithful (set_fs f).
Proof. apply faithful_quiet. by intros s r s' [= <- <-]. Qed.

Lemma faithful_throw {A} c e : faithful (@throw A c e).
Proof.
  intros s r s' [= <- <-]. exists [(c, e)]. split; [done|].
  intros c' e' [= -> ->]%list_elem_of_singleton. by left.
Qed.

(** What a run that returns has raised was dropped by rmtree. *)
Lemma accounted_returned {A} c e (a : A) : accounted c e (Ok a) → is_rmtree c = true.
Proof. intros [?|[?|[(_ & _ & ? & ?)|(_ & _ & ? & ?)]]]; done. Qed.

Lemma accounted_raise {A B} c e e' :
  accounted c e (@Raise A e') → accounted c e (@Raise B e').
Proof.
  intros [[= ->]|[?|[(? & ? & reasons & [= ->])|(? & ? & msg & [= ->])]]].
  - by left.
  - right. by left.
  - right. right. left. eauto.
  - right. right. right. eauto.
Qed.

Lemma accounted_dropped {A} c e (r : result A) : is_rmtree c = true → accounted c e r.
Proof. intros ?. right. by left. Qed.

Lemma faithful_bind {A B} (m : M A) (f : A → M B) :
  faithful m → (∀ a, faithful (f a)) → faithful (bind m f).
Proof.
  intros Hm Hf s r s'. unfold bind.
  destruct (m s) as [[a|e] s1] eqn:Em.
  - intros Ef. destruct (Hm _ _ _ Em) as (n1 & H1 & Hn1).
    destruct (Hf _ _ _ _ Ef) as (n2 & H2 & Hn2).
    exists (n1 ++ n2). rewrite H2, H1, (assoc_L (++)). split; [done|].
    intros c e [Hin|Hin]%elem_of_app.
    + apply accounted_dropped. eapply accounted_returned. by apply Hn1.
    + by apply Hn2.
  - intros [= <- <-]. destruct (Hm _ _ _ Em) as (n1 & H1 & Hn1).
    exists n1. split; [done|]. intros c e' Hin.
    eapply accounted_raise. by apply Hn1.
Qed.

Lemma faithful_for_each {A} (xs : list A) (body : A → M unit) :
  (∀ x, faithful (body x)) → faithful (for_each xs body).
Proof.
  intros Hb. induction xs as [|x xs IH]; simpl.
  - apply faithful_ret.
  - apply faithful_bind; [apply Hb | by intros _].
Qed.

Lemma faithful_for_range {A} n i0 (body : Z → A → M A) acc :
  (∀ i a, faithful (body i a)) → faithful (for_range n i0 body acc).
Proof.
  intros Hb. revert i0 acc. induction n as [|n IH]; intros i0 acc; simpl.
  - apply faithful_ret.
  - apply faithful_bind; [apply Hb | intros a; apply IH].
Qed.

Lemma faithful_enter c : faithful (enter c).
Proof.
  unfold enter. intros s r s'. destruct (faults _) as [e|].
  - intros E. exact (faithful_throw c e _ _ _ E).
  - intros [= <- <-]. exists []. simpl. rewrite app_nil_r. split; [done|].
    intros c' e' Hin. by apply elem_of_nil in Hin.
Qed.

Lemma faithful_external {A} c (a : A) : faithful (external c a).
Proof.
  unfold external. apply faithful_bind; [apply faithful_enter|].
  intros _. apply faithful_ret.
Qed.

Lemma faithful_writing {A} c dir stages (a : A) : faithful (external_writing c dir stages a).
Proof.
  unfold external_writing. apply faithful_bind; [apply faithful_enter|intros _].
  apply faithful_bind; [apply faithful_get_fs|intros f].
  apply faithful_bind; [|intros _; apply faithful_ret].
  apply faithful_for_each. intros d. apply faithful_set_fs.
Qed.

Create HintDb faithful discriminated.
#[local] Hint Resolve faithful_ret faithful_get_fs faithful_set_fs faithful_throw
  faithful_enter faithful_external faithful_writing : faithful.

Ltac faithful_step :=
  first [ solve [auto with faithful]
        | apply faithful_bind; [|intros ?]
        | apply faithful_for_each; intros ?
        | apply faithful_for_range; intros ? ?
        | match goal with
          | |- faithful (match ?x with _ => _ end) => destruct x
          | |- faithful (if ?x then _ else _) => destruct x
          | |- faithful (let '(_, _) := ?x in _) => destruct x
          end ].

Lemma faithful_os_makedirs c dir exist_ok : faithful (os_makedirs c dir exist_ok).
Proof. unfold os_makedirs. repeat faithful_step. Qed.
#[local] Hint Resolve faithful_os_makedirs : faithful.

Lemma faithful_write_file c dir name text : faithful (write_file c dir name text).
Proof. unfold write_file. repeat faithful_step. Qed.
#[local] Hint Resolve faithful_write_file : faithful.

Lemma faithful_read_file c dir name : faithful (read_file c dir name).
Proof. unfold read_file. repeat faithful_step. Qed.
#[local] Hint Resolve faithful_read_file : faithful.

(** *** copytree: the errors of the copies come out as one shutil.Error *)

(** A copy either is done or raises an [OSError], inside copytree. *)
Lemma copy2_raised c src dst name x s r s' :
  copy2 c src dst name x s = (r, s') →
  (r = Ok () ∧ raised s' = raised s) ∨
  ∃ e, r = Raise e ∧ is_OSError e = true ∧ raised s' = raised s ++ [(c, e)].
Proof.
  unfold copy2, bind, get_fs, set_fs, throw.
  destruct (fs s !! dst) as [d|]; [|intros [= <- <-]; right; by eexists].
  destruct (d !! name) as [[t []]|]; intros [= <- <-];
    [right; by eexists|by left..].
Qed.

(** The loop over the entries returns, and has kept a reason when a copy
    has raised. *)
Lemma copy_entries_raised c src dst entries s r s' :
  copy_entries c src dst entries s = (r, s') →
  ∃ new errs,
    raised s' = raised s ++ new ∧ r = Ok errs ∧
    (∀ c' e, (c', e) ∈ new → c' = c ∧ is_OSError e = true) ∧
    (errs = [] → new = []).
Proof.
  revert s r s'. induction entries as [|[name x] rest IH]; intros s r s'; simpl.
  { intros [= <- <-]. exists [], []. rewrite app_nil_r.
    split; [done|]. split; [done|]. split; [|done].
    intros c' e Hin. by apply elem_of_nil in Hin. }
  unfold bind at 1, try_except_OSError, try_except, bind at 1.
  destruct (copy2 c src dst name x s) as [r2 s2] eqn:E2.
  destruct (copy2_raised _ _ _ _ _ _ _ _ E2) as [[-> Hr2]|(e & -> & Hos & Hr2)].
  - unfold ret at 1. unfold bind.
    destruct (copy_entries c src dst rest s2) as [r3 s3] eqn:E3.
    destruct (IH _ _ _ E3) as (new & errs & Hr3 & -> & Hnew & Herrs).
    intros [= <- <-]. exists new, errs. rewrite Hr3, Hr2. done.
  - rewrite Hos. unfold ret at 1. unfold bind.
    destruct (copy_entries c src dst rest s2) as [r3 s3] eqn:E3.
    destruct (IH _ _ _ E3) as (new & errs & Hr3 & -> & Hnew & Herrs).
    intros [= <- <-]. eexists ((c, e) :: new), _.
    rewrite Hr3, Hr2, <- (assoc_L (++)). split; [done|]. split; [done|].
    split; [|done].
    intros c' e' [[= -> ->]|Hin]%elem_of_cons; [done|by apply Hnew].
Qed.

Lemma faithful_copytree src dst dirs_exist_ok :
  faithful (copytree src dst dirs_exist_ok).
Proof.
  unfold copytree.
  apply faithful_bind; [apply faithful_enter|intros _].
  apply faithful_bind; [apply faithful_get_fs|intros f].
  destruct (f !! src) as [d|]; [|apply faithful_throw].
  apply faithful_bind; [apply faithful_os_makedirs|intros _].
  intros s r s'. unfold bind.
  destruct (copy_entries _ src dst (map_to_list d) s) as [r1 s1] eqn:E1.
  destruct (copy_entries_raised _ _ _ _ _ _ _ E1)
    as (new & errs & Hr1 & -> & Hnew & Herrs).
  destruct errs as [|reason errs].
  - intros [= <- <-]. exists []. rewrite Hr1, (Herrs eq_refl).
    split; [done|]. intros c e Hin. by apply elem_of_nil in Hin.
  - unfold throw. intros [= <- <-]. cbn [raised]. eexists (new ++ [_]).
    rewrite Hr1, <- (assoc_L (++)). split; [done|].
    intros c e [Hin|[= -> ->]%list_elem_of_singleton]%elem_of_app; [|by left].
    destruct (Hnew _ _ Hin) as [-> Hos].
    right. right. left. split; [done|]. split; [done|]. by eexists.
Qed.
#[local] Hint Resolve faithful_copytree : faithful.

(** *** mlflow: an error of copying a code file comes out as an
    MlflowException *)

Lemma read_file_raised c dir name s r s' :
  read_file c dir name s = (r, s') →
  (∃ text, r = Ok text ∧ raised s' = raised s) ∨
  ∃ e, r = Raise e ∧ is_OSError e = true ∧ raised s' = raised s ++ [(c, e)].
Proof.
  unfold read_file, bind, get_fs, throw, ret.
  destruct (fs s !! dir ≫= _); intros [= <- <-]; [left|right]; by eexists.
Qed.

Lemma write_file_raised c dir name text s r s' :
  write_file c dir name text s = (r, s') →
  (r = Ok () ∧ raised s' = raised s) ∨
  ∃ e, r = Raise e ∧ is_OSError e = true ∧ raised s' = raised s ++ [(c, e)].
Proof.
  unfold write_file, bind, get_fs, set_fs, throw.
  destruct (fs s !! dir) as [d|]; [|intros [= <- <-]; right; by eexists].
  destruct (d !! name) as [[t []]|]; intros [= <- <-];
    [right; by eexists|by left..].
Qed.

Lemma copy_code_path_raised c path code_path s r s' :
  copy_code_path c path code_path s = (r, s') →
  (r = Ok () ∧ raised s' = raised s) ∨
  ∃ e msg, r = Raise (MlflowException msg) ∧ is_OSError e = true ∧
           raised s' = raised s ++ [(c, e); (c, MlflowException msg)].
Proof.
  destruct code_path as [dir name].
  unfold copy_code_path, try_except_OSError, try_except, bind.
  destruct (read_file c dir name s) as [r1 s1] eqn:E1.
  destruct (read_file_raised _ _ _ _ _ _ E1) as [(text & -> & Hr1)|(e & -> & Hos & Hr1)].
  - destruct (write_file c path _ text s1) as [r2 s2] eqn:E2.
    destruct (write_file_raised _ _ _ _ _ _ _ E2) as [[-> Hr2]|(e & -> & Hos & Hr2)].
    + intros [= <- <-]. left. by rewrite Hr2, Hr1.
    + rewrite Hos. unfold throw. intros [= <- <-]. right. eexists e, _.
      cbn [raised]. rewrite Hr2, Hr1, <- (assoc_L (++)). done.
  - rewrite Hos. unfold throw. intros [= <- <-]. right. eexists e, _.
    cbn [raised]. rewrite Hr1, <- (assoc_L (++)). done.
Qed.

Lemma faithful_copy_code_path c path code_path :
  is_mlflow_save c = true → faithful (copy_code_path c path code_path).
Proof.
  intros Hc s r s' E.
  destruct (copy_code_path_raised _ _ _ _ _ _ E) as [[-> Hr]|(e & msg & -> & Hos & Hr)].
  - exists []. rewrite app_nil_r. split; [done|].
    intros c' e' Hin. by apply elem_of_nil in Hin.
  - eexists. split; [done|].
    intros c' e' [[= -> ->]|[= -> ->]%list_elem_of_singleton]%elem_of_cons; [|by left].
    right. right. right. split; [done|]. split; [done|]. by eexists.
Qed.

Lemma faithful_mlflow_save model path code_paths :
  faithful (mlflow_pytorch_save_model model path code_paths).
Proof.
  unfold mlflow_pytorch_save_model.
  apply faithful_bind; [apply faithful_enter|intros _].
  apply faithful_bind; [apply faithful_get_fs|intros f].
  apply faithful_bind; [|intros _].
  { destruct (f !! path) as [d|]; [|apply faithful_ret].
    destruct (decide _); [apply faithful_ret|apply faithful_throw]. }
  apply faithful_bind; [apply faithful_os_makedirs|intros _].
  apply faithful_bind; [|intros _].
  - apply faithful_for_each. intros code_path. by apply faithful_copy_code_path.
  - apply faithful_for_each. intros [name text]. apply faithful_write_file.
Qed.
#[local] Hint Resolve faithful_mlflow_save : faithful.

(** *** rmtree: everything it raises is raised inside it *)

Lemma within_quiet {A} c (m : M A) :
  (∀ s r s', m s = (r, s') → raised s' = raised s) → raises_within c m.
Proof.
  intros H s r s' E. exists []. rewrite app_nil_r, (H _ _ _ E).
  split; [done|]. intros c' e Hin. by apply elem_of_nil in Hin.
Qed.

Lemma within_ret {A} c (a : A) : raises_within c (ret a).
Proof. apply within_quiet. by intros s r s' [= <- <-]. Qed.

Lemma within_reraise {A} c e : raises_within c (@reraise A e).
Proof. apply within_quiet. by intros s r s' [= <- <-]. Qed.

Lemma within_get_fs c : raises_within c get_fs.
Proof. apply within_quiet. by intros s r s' [= <- <-]. Qed.

Lemma within_set_fs c f : raises_within c (set_fs f).
Proof. apply within_quiet. by intros s r s' [= <- <-]. Qed.

Lemma within_throw {A} c e : raises_within c (@throw A c e).
Proof.
  intros s r s' [= <- <-]. exists [(c, e)]. split; [done|].
  by intros c' e' [= -> ->]%list_elem_of_singleton.
Qed.

Lemma within_bind {A B} c (m : M A) (f : A → M B) :
  raises_within c m → (∀ a, raises_within c (f a)) → raises_within c (bind m f).
Proof.
  intros Hm Hf s r s'. unfold bind.
  destruct (m s) as [[a|e] s1] eqn:Em.
  - intros Ef. destruct (Hm _ _ _ Em) as (n1 & H1 & Hn1).
    destruct (Hf _ _ _ _ Ef) as (n2 & H2 & Hn2).
    exists (n1 ++ n2). rewrite H2, H1, (assoc_L (++)). split; [done|].
    intros c' e [Hin|Hin]%elem_of_app; eauto.
  - intros [= <- <-]. by eapply Hm.
Qed.

Lemma within_try_except {A} c (m : M A) (h : exn → M A) :
  raises_within c m → (∀ e, raises_within c (h e)) →
  raises_within c (try_except m h).
Proof.
  intros Hm Hh s r s'. unfold try_except.
  destruct (m s) as [[a|e] s1] eqn:Em.
  - intros [= <- <-]. by eapply Hm.
  - intros Eh. destruct (Hm _ _ _ Em) as (n1 & H1 & Hn1).
    destruct (Hh _ _ _ _ Eh) as (n2 & H2 & Hn2).
    exists (n1 ++ n2). rewrite H2, H1, (assoc_L (++)). split; [done|].
    intros c' e' [Hin|Hin]%elem_of_app; eauto.
Qed.

Lemma within_for_each {A} c (xs : list A) (body : A → M unit) :
  (∀ x, raises_within c (body x)) → raises_within c (for_each xs body).
Proof.
  intros Hb. induction xs as [|x xs IH]; simpl.
  - apply within_ret.
  - apply within_bind; [apply Hb | by intros _].
Qed.

Lemma within_enter c : raises_within c (enter c).
Proof.
  unfold enter. intros s r s'. destruct (faults _) as [e|].
  - intros E. exact (within_throw c e _ _ _ E).
  - intros [= <- <-]. exists []. simpl. rewrite app_nil_r. split; [done|].
    intros c' e' Hin. by apply elem_of_nil in Hin.
Qed.

Create HintDb within discriminated.
#[local] Hint Resolve within_ret within_reraise within_get_fs within_set_fs
  within_throw within_enter : within.

Ltac within_step :=
  first [ apply within_bind; [|intros ?]
        | apply within_try_except; [|intros ?]
        | apply within_for_each; intros ?
        | solve [auto with within]
        | match goal with
          | |- raises_within _ (match ?x with _ => _ end) => destruct x
          | |- raises_within _ (if ?x then _ else _) => destruct x
          end ].

Lemma within_os_unlink c dir name : raises_within c (os_unlink c dir name).
Proof. unfold os_unlink. repeat within_step. Qed.

Lemma within_os_rmdir c dir : raises_within c (os_rmdir c dir).
Proof. unfold os_rmdir. repeat within_step. Qed.

Lemma within_rmtree path ignore_errors :
  raises_within (rmtree_call path ignore_errors) (rmtree path ignore_errors).
Proof.
  set (c := rmtree_call path ignore_errors).
  set (onerror := fun e : exn => if ignore_errors then ret () else reraise e).
  assert (∀ e, raises_within c (onerror e)) as Hon.
  { intros e. unfold onerror. destruct ignore_errors; auto with within. }
  unfold rmtree. fold c. fold onerror.
  repeat within_step; try apply within_os_unlink; try apply within_os_rmdir;
    try apply Hon.
Qed.

Lemma faithful_rmtree path : faithful (rmtree path true).
Proof.
  intros s r s' E. destruct (within_rmtree path true _ _ _ E) as (new & H & Hn).
  exists new. split; [done|]. intros c e Hin. apply accounted_dropped.
  by rewrite (Hn _ _ Hin).
Qed.
#[local] Hint Resolve faithful_rmtree : faithful.

(** With [ignore_errors=True], rmtree returns whatever happens. *)
Lemma rmtree_ignoring_returns path s :
  (rmtree path true s).1 = Ok ().
Proof.
  unfold rmtree, bind at 1, try_except at 1, bind at 1.
  destruct (enter _ s) as [[[]|e] s1]; [|done].
  unfold bind at 1, get_fs.
  destruct (fs s1 !! path) as [d|]; [|done].
  unfold ret at 1, bind.
  assert (∀ names s2, ∃ s3,
            for_each names
              (fun name => try_except (os_unlink (rmtree_call path true) path name)
                             (fun _ => ret ())) s2 = (Ok (), s3)) as Hloop.
  { induction names as [|name names IH]; intros s2; simpl; [by eexists|].
    unfold bind, try_except at 1.
    destruct (os_unlink _ path name s2) as [[[]|e] s3]; apply IH. }
  destruct (Hloop (map fst (map_to_list d)) s1) as [s3 ->].
  unfold try_except. by destruct (os_rmdir _ path s3) as [[[]|e] s4].
Qed.

Lemma faithful_save_model model_dir model : faithful (save_model model_dir model).
Proof.
  unfold save_model.
  repeat faithful_step.
Qed.
#[local] Hint Resolve faithful_save_model : faithful.

Lemma faithful_DataLoader_shuffled length batch :
  faithful (DataLoader_shuffled length batch).
Proof. unfold DataLoader_shuffled. repeat faithful_step. Qed.
#[local] Hint Resolve faithful_DataLoader_shuffled : faithful.

Lemma faithful_load_train_val_data data_dir batch fraction :
  faithful (load_train_val_data data_dir batch fraction).
Proof. unfold load_train_val_data. repeat faithful_step. Qed.
#[local] Hint Resolve faithful_load_train_val_data : faithful.

Lemma faithful_train data_dir model_dir device :
  faithful (train data_dir model_dir device).
Proof.
  unfold train.
  repeat faithful_step.
Qed.
#[local] Hint Resolve faithful_train : faithful.

Lemma faithful_main argv : faithful (main argv).
Proof.
  unfold main, call_train.
  repeat faithful_step.
Qed.
Lemma accounted_during {A} (m : M A) s c e :
  faithful m → (c, e) ∈ raised_during m s → accounted c e (m s).1.
Proof.
  intros Hm. unfold raised_during.
  destruct (m s) as [r s'] eqn:E. simpl.
  destruct (Hm _ _ _ E) as (new & -> & Hn).
  rewrite drop_app_length. apply Hn.
Qed.


End TrainRaised.



(** ** The file system during a run *)
Section TrainFiles.

Import Float64 Train TrainSpec.
Context `{P : Platform}.
Local Open Scope py_scope.

Lemma steps_still (I : filesystem → Prop) {A} (m : M A) :
  (∀ s r s', m s = (r, s') → fs s' = fs s ∧ history s' = history s) → steps I m.
Proof.
  intros H s r s' HI E. destruct (H _ _ _ E) as [-> ->].
  split; [done|]. exists []. by rewrite app_nil_r.
Qed.

Lemma steps_ret I {A} (a : A) : steps I (ret a).
Proof. apply steps_still. by intros s r s' [= <- <-]. Qed.

Lemma steps_throw I {A} c e : steps I (@throw A c e).
Proof. apply steps_still. by intros s r s' [= <- <-]. Qed.

Lemma steps_reraise I {A} e : steps I (@reraise A e).
Proof. apply steps_still. by intros s r s' [= <- <-]. Qed.

Lemma steps_enter I c : steps I (enter c).
Proof.
  apply steps_still. intros s r s'. unfold enter, throw.
  destruct (faults _); by intros [= <- <-].
Qed.

Lemma steps_bind I {A B} (m : M A) (f : A → M B) :
  steps I m → (∀ a, steps I (f a)) → steps I (bind m f).
Proof.
  intros Hm Hf s r s' HI. unfold bind.
  destruct (m s) as [[a|e] s1] eqn:Em.
  - intros Ef. destruct (Hm _ _ _ HI Em) as (HI1 & h1 & Hh0 & Hh1).
    destruct (Hf _ _ _ _ HI1 Ef) as (HI2 & h2 & Hh & Hh2).
    split; [done|]. exists (h1 ++ h2). rewrite Hh, Hh0, (assoc_L (++)).
    split; [done|]. by apply Forall_app.
  - intros [= <- <-]. by eapply Hm.
Qed.

Lemma steps_external I {A} c (a : A) : steps I (external c a).
Proof.
  unfold external. apply steps_bind; [apply steps_enter|intros _; apply steps_ret].
Qed.

Lemma steps_try_except I {A} (m : M A) (h : exn → M A) :
  steps I m → (∀ e, steps I (h e)) → steps I (try_except m h).
Proof.
  intros Hm Hh s r s' HI. unfold try_except.
  destruct (m s) as [[a|e] s1] eqn:Em.
  - intros [= <- <-]. by eapply Hm.
  - intros Eh. destruct (Hm _ _ _ HI Em) as (HI1 & h1 & Hh0 & Hh1).
    destruct (Hh _ _ _ _ HI1 Eh) as (HI2 & h2 & Hhh & Hh2).
    split; [done|]. exists (h1 ++ h2). rewrite Hhh, Hh0, (assoc_L (++)).
    split; [done|]. by apply Forall_app.
Qed.

Lemma steps_for_each I {A} (xs : list A) (body : A → M unit) :
  (∀ x, steps I (body x)) → steps I (for_each xs body).
Proof.
  intros Hb. induction xs as [|x xs IH]; simpl.
  - apply steps_ret.
  - apply steps_bind; [apply Hb | by intros _].
Qed.

(** One change of the file system, decided on the current one. *)
Lemma steps_update (I : filesystem → Prop) {A} (m : M A) :
  (∀ s r s', I (fs s) → m s = (r, s') →
     (fs s' = fs s ∧ history s' = history s) ∨
     (I (fs s') ∧ history s' = history s ++ [fs s'])) →
  steps I m.
Proof.
  intros H s r s' HI E. destruct (H _ _ _ HI E) as [[-> ->]|[HI' ->]].
  - split; [done|]. exists []. by rewrite app_nil_r.
  - split; [done|]. exists [fs s']. split; [done|]. by constructor.
Qed.

Lemma steps_os_unlink (I : filesystem → Prop) c dir name :
  (∀ f d x, I f → f !! dir = Some d → d !! name = Some x → locked x = false →
            I (<[dir := delete name d]> f)) →
  steps I (os_unlink c dir name).
Proof.
  intros HI. apply steps_update. intros s r s' Hs.
  unfold os_unlink, bind, get_fs, throw, set_fs.
  destruct (fs s !! dir) as [d|] eqn:Ed; [|intros [= <- <-]; by left].
  destruct (d !! name) as [x|] eqn:Ex; [|intros [= <- <-]; by left].
  destruct (locked x) eqn:El; intros [= <- <-]; [by left|].
  right. simpl. split; [by eapply HI|done].
Qed.

Lemma steps_os_rmdir (I : filesystem → Prop) c dir :
  (∀ f, I f → f !! dir = Some ∅ → I (delete dir f)) →
  steps I (os_rmdir c dir).
Proof.
  intros HI. apply steps_update. intros s r s' Hs.
  unfold os_rmdir, bind, get_fs, throw, set_fs.
  destruct (fs s !! dir) as [d|] eqn:Ed; [|intros [= <- <-]; by left].
  destruct (decide (d = ∅)) as [->|]; intros [= <- <-]; [|by left].
  right. simpl. split; [by eapply HI|done].
Qed.

Lemma steps_os_makedirs (I : filesystem → Prop) c dir exist_ok :
  (∀ f, I f → f !! dir = None → I (<[dir := ∅]> f)) →
  steps I (os_makedirs c dir exist_ok).
Proof.
  intros HI. apply steps_update. intros s r s' Hs.
  unfold os_makedirs, bind, get_fs, throw, set_fs, ret.
  destruct (fs s !! dir) as [d|] eqn:Ed.
  - destruct exist_ok; intros [= <- <-]; by left.
  - intros [= <- <-]. right. simpl. split; [by eapply HI|done].
Qed.

Lemma steps_write_file (I : filesystem → Prop) c dir name text :
  (∀ f d, I f → f !! dir = Some d → writable d name →
          I (<[dir := <[name := File text false]> d]> f)) →
  steps I (write_file c dir name text).
Proof.
  intros HI. apply steps_update. intros s r s' Hs.
  unfold write_file, bind, get_fs, throw, set_fs.
  destruct (fs s !! dir) as [d|] eqn:Ed; [|intros [= <- <-]; by left].
  destruct (d !! name) as [[t []]|] eqn:Ex; intros [= <- <-]; [by left| |];
    right; simpl; (split; [|done]); eapply HI; eauto;
    intros y Hy; rewrite Ex in Hy; by simplify_eq.
Qed.

Lemma steps_copy2 (I : filesystem → Prop) c src dst name x :
  (∀ f d t, I f → f !! dst = Some d → writable d name →
            t = EmptyString ∨ t = data x →
            I (<[dst := <[name := File t false]> d]> f)) →
  steps I (copy2 c src dst name x).
Proof.
  intros HI s r s' Hs.
  assert (∀ d, fs s !! dst = Some d → writable d name →
               (r, s') = (Ok (), State (<[dst := <[name := File (data x) false]> d]> (fs s))
                                  (calls s) (raised s)
                                  ((history s ++ [<[dst := <[name := File EmptyString false]> d]> (fs s)])
                                             ++ [<[dst := <[name := File (data x) false]> d]> (fs s)])) →
               I (fs s') ∧ ∃ h, history s' = history s ++ h ∧ Forall I h) as Hwrite.
  { intros d Hd Hw [= -> ->]. cbn [fs history]. split; [by eapply HI; eauto|].
    eexists. split; [by rewrite <- (assoc_L (++))|].
    repeat constructor; eapply HI; eauto. }
  unfold copy2, bind, get_fs, set_fs, throw.
  destruct (fs s !! dst) as [d|] eqn:Ed.
  2:{ intros [= <- <-]. split; [done|]. exists []. by rewrite app_nil_r. }
  destruct (d !! name) as [[t []]|] eqn:Ex.
  - intros [= <- <-]. split; [done|]. exists []. by rewrite app_nil_r.
  - intros E. apply (Hwrite d); [done| |by rewrite <- E].
    intros y Hy. rewrite Ex in Hy. by simplify_eq.
  - intros E. apply (Hwrite d); [done| |by rewrite <- E].
    intros y Hy. rewrite Ex in Hy. by simplify_eq.
Qed.

Lemma steps_try_except_OSError I {A} (m : M A) (h : exn → M A) :
  steps I m → (∀ e, steps I (h e)) → steps I (try_except_OSError m h).
Proof.
  intros Hm Hh. apply steps_try_except; [done|].
  intros e. destruct (is_OSError e); [apply Hh|apply steps_reraise].
Qed.

Lemma steps_read_file I c dir name : steps I (read_file c dir name).
Proof.
  apply steps_still. intros s r s'. unfold read_file, bind, get_fs, throw, ret.
  destruct (fs s !! dir ≫= _); by intros [= <- <-].
Qed.

Lemma steps_set_fs (I : filesystem → Prop) f : I f → steps I (set_fs f).
Proof.
  intros Hf s r s' _ [= <- <-]. cbn [fs history]. split; [done|].
  exists [f]. split; [done|]. by constructor.
Qed.

(** A library call that writes under one directory tree. *)
Lemma steps_writing (I : filesystem → Prop) {A} c dir stages (a : A) :
  (∀ f d, I f → I (<[dir := d]> f)) → steps I (external_writing c dir stages a).
Proof.
  intros HI. unfold external_writing.
  apply steps_bind; [apply steps_enter|intros _].
  intros s r s' Hs E.
  assert (steps I (for_each (stages (fs s !! dir))
                     (fun d => set_fs (<[dir := d]> (fs s))) ;; ret a)) as Hsteps.
  { apply steps_bind; [|intros _; apply steps_ret].
    apply steps_for_each. intros d. apply steps_set_fs. by apply HI. }
  exact (Hsteps s r s' Hs E).
Qed.

Lemma steps_get_fs I : steps I get_fs.
Proof. apply steps_still. by intros s r s' [= <- <-]. Qed.

Lemma steps_weaken (I J : filesystem → Prop) {A} (m : M A) s r s' :
  steps I m → I (fs s) → (∀ f, I f → J f) → m s = (r, s') →
  J (fs s') ∧ ∃ h, history s' = history s ++ h ∧ Forall J h.
Proof.
  intros Hm HI HJ E. destruct (Hm _ _ _ HI E) as (HI' & h & Hh & Hall).
  split; [by apply HJ|]. exists h. split; [done|].
  eapply Forall_impl; [done|]. done.
Qed.

Lemma untouched_but_refl path f : untouched_but path f f.
Proof. by intros q _. Qed.

Lemma shrinking_refl path f : shrinking path f f.
Proof.
  split; [apply untouched_but_refl|]. intros d' Hd. by exists d'.
Qed.

Lemma filling_refl src dst f : filling src dst f f.
Proof.
  split; [apply untouched_but_refl|].
  intros d' name x Hd Hx. left. by rewrite Hd.
Qed.

(** *** rmtree *)

Lemma rmtree_shrinks path ignore_errors f0 :
  steps (shrinking path f0) (rmtree path ignore_errors).
Proof.
  set (c := rmtree_call path ignore_errors).
  set (onerror := fun e : exn => if ignore_errors then ret () else reraise e).
  assert (∀ e, steps (shrinking path f0) (onerror e)) as Hon.
  { intros e. unfold onerror.
    destruct ignore_errors; [apply steps_ret|apply steps_reraise]. }
  unfold rmtree. fold c. fold onerror.
  apply steps_bind.
  - apply steps_try_except.
    + apply steps_bind; [apply steps_enter|intros _].
      apply steps_bind; [apply steps_get_fs|intros f].
      destruct (f !! path); [apply steps_ret|apply steps_throw].
    + intros e. apply steps_bind; [apply Hon|intros _; apply steps_ret].
  - intros [d|]; [|apply steps_ret].
    apply steps_bind; [|intros _].
    + apply steps_for_each. intros name. apply steps_try_except; [|apply Hon].
      apply steps_os_unlink. intros f d1 x [Hu Hs] Hd Hx _. split.
      * intros q Hq. rewrite lookup_insert_ne by done. by apply Hu.
      * intros d'. rewrite lookup_insert_eq. intros [= <-].
        destruct (Hs _ Hd) as (d0 & Hd0 & Hsub). exists d0. split; [done|].
        etrans; [apply delete_subseteq|done].
    + apply steps_try_except; [|apply Hon].
      apply steps_os_rmdir. intros f [Hu Hs] Hd. split.
      * intros q Hq. rewrite lookup_delete_ne by done. by apply Hu.
      * intros d'. by rewrite lookup_delete_eq.
Qed.

Lemma enter_ok c s :
  faults (length (calls s)) = None →
  enter c s = (Ok (), State (fs s) (calls s ++ [c]) (raised s) (history s)).
Proof. unfold enter. by intros ->. Qed.

Lemma lookup_foldl_delete (names : list string) (d : directory) k :
  foldl (fun d n => delete n d) d names !! k
  = if decide (k ∈ names) then None else d !! k.
Proof.
  revert d. induction names as [|n names IH]; intros d; cbn [foldl].
  - case_decide as Hin; [by apply elem_of_nil in Hin|done].
  - rewrite IH. repeat case_decide; try done.
    + exfalso. set_solver.
    + destruct (decide (k = n)) as [->|Hne]; [by rewrite lookup_delete_eq|].
      exfalso. set_solver.
    + rewrite lookup_delete_ne; [done|]. set_solver.
Qed.

(** Unlinking names one after the other, errors dropped, when no file is
    locked: all of them are gone. *)
Lemma unlink_all_unlocked c path names s d :
  fs s !! path = Some d → (∀ k x, d !! k = Some x → locked x = false) →
  ∃ s', for_each names
          (fun name => try_except (os_unlink c path name) (fun _ => ret ())) s
        = (Ok (), s') ∧
        fs s' !! path = Some (foldl (fun d n => delete n d) d names).
Proof.
  revert s d. induction names as [|n names IH]; intros s d Hd Hun; simpl.
  - by eexists.
  - unfold bind, try_except at 1, os_unlink, bind, get_fs. rewrite Hd.
    destruct (d !! n) as [x|] eqn:Hx.
    + rewrite (Hun _ _ Hx). unfold set_fs.
      apply IH; simpl.
      * by rewrite lookup_insert_eq.
      * intros k y [_ Hy]%lookup_delete_Some. eauto.
    + unfold throw, ret.
      rewrite (delete_id d n Hx). by apply IH.
Qed.

(** rmtree with nothing in its way removes the directory. *)
Lemma rmtree_clears path s d :
  faults (length (calls s)) = None →
  fs s !! path = Some d → (∀ k x, d !! k = Some x → locked x = false) →
  fs (rmtree path true s).2 !! path = None.
Proof.
  intros Hf Hd Hun.
  unfold rmtree, bind at 1, try_except at 1, bind at 1.
  rewrite (enter_ok _ _ Hf). unfold bind at 1, get_fs. simpl. rewrite Hd.
  unfold ret at 1, bind.
  destruct (unlink_all_unlocked (rmtree_call path true) path
              (map fst (map_to_list d))
              (State (fs s) (calls s ++ [rmtree_call path true]) (raised s) (history s))
              d Hd Hun) as (s1 & -> & Hd1).
  assert (foldl (fun d n => delete n d) d (map fst (map_to_list d)) = ∅) as Hempty.
  { apply map_eq. intros k. rewrite lookup_foldl_delete, lookup_empty.
    destruct (decide _) as [|Hnin]; [done|].
    destruct (d !! k) as [x|] eqn:Hk; [|done].
    destruct Hnin. apply list_elem_of_fmap. exists (k, x).
    split; [done|]. by apply elem_of_map_to_list. }
  rewrite Hempty in Hd1.
  unfold try_except, os_rmdir, bind, get_fs. rewrite Hd1.
  rewrite decide_True by done. simpl. by rewrite lookup_delete_eq.
Qed.

(** rmtree of a path that does not exist: one error, dropped. *)
Lemma rmtree_missing path s :
  faults (length (calls s)) = None → fs s !! path = None →
  rmtree path true s
  = (Ok (), State (fs s) (calls s ++ [rmtree_call path true])
              (raised s ++ [(rmtree_call path true, FileNotFoundError path)])
              (history s)).
Proof.
  intros Hf Hd.
  unfold rmtree, bind at 1, try_except at 1, bind at 1.
  rewrite (enter_ok _ _ Hf). unfold bind at 1, get_fs. simpl. by rewrite Hd.
Qed.

(** *** mlflow.pytorch.save_model *)

Lemma steps_copy_code_path (I : filesystem → Prop) c path code_path :
  (∀ f d name text, I f → f !! path = Some d →
                    I (<[path := <[name := File text false]> d]> f)) →
  steps I (copy_code_path c path code_path).
Proof.
  intros HI. destruct code_path as [dir name]. unfold copy_code_path.
  apply steps_try_except_OSError; [|intros e; apply steps_throw].
  apply steps_bind; [apply steps_read_file|intros text].
  apply steps_write_file. intros f d Hf Hd _. by apply HI.
Qed.

(** Whatever mlflow does, it goes through file systems satisfying [I]
    when [I] is kept by making the directory [path] and by writing a file
    under it. *)
Lemma steps_mlflow_save (I : filesystem → Prop) model path code_paths :
  (∀ f, I f → f !! path = None → I (<[path := ∅]> f)) →
  (∀ f d name text, I f → f !! path = Some d →
                    I (<[path := <[name := File text false]> d]> f)) →
  steps I (mlflow_pytorch_save_model model path code_paths).
Proof.
  intros Hmk Hwr. unfold mlflow_pytorch_save_model.
  apply steps_bind; [apply steps_enter|intros _].
  apply steps_bind; [apply steps_get_fs|intros f].
  apply steps_bind; [|intros _].
  { destruct (f !! path) as [d|]; [|apply steps_ret].
    destruct (decide _); [apply steps_ret|apply steps_throw]. }
  apply steps_bind; [by apply steps_os_makedirs|intros _].
  apply steps_bind; [|intros _].
  - apply steps_for_each. intros code_path. by apply steps_copy_code_path.
  - apply steps_for_each. intros [name text].
    apply steps_write_file. intros f1 d Hf Hd _. by apply Hwr.
Qed.

Lemma mlflow_save_untouched model path code_paths f0 :
  steps (untouched_but path f0) (mlflow_pytorch_save_model model path code_paths).
Proof.
  apply steps_mlflow_save.
  - intros f Hu _ q Hq. rewrite lookup_insert_ne by done. by apply Hu.
  - intros f d name text Hu _ q Hq. rewrite lookup_insert_ne by done. by apply Hu.
Qed.

(** A code file that has been copied was read beside the script and is
    now under [path]. *)
Lemma copy_code_path_ok c path dir name s s' :
  copy_code_path c path (dir, name) s = (Ok (), s') →
  ∃ x d, (fs s !! dir ≫= (.!! name)) = Some x ∧ fs s !! path = Some d ∧
         fs s' = <[path := <["code/" +:+ name := File (data x) false]> d]> (fs s).
Proof.
  unfold copy_code_path, try_except_OSError, try_except, bind at 1, read_file,
    bind at 1, get_fs.
  destruct (fs s !! dir ≫= _) as [x|] eqn:Hx.
  2:{ unfold throw at 1. cbn [is_OSError]. by unfold throw. }
  unfold ret at 1, write_file, bind, get_fs, set_fs, throw.
  destruct (fs s !! path) as [d|] eqn:Hd; [|done].
  destruct (d !! ("code/" +:+ name)) as [[t []]|]; [done|..];
    intros [= <-]; by exists x, d.
Qed.

Lemma copy_code_path_succeeds c path dir name s x d :
  (fs s !! dir ≫= (.!! name)) = Some x → fs s !! path = Some d →
  writable d ("code/" +:+ name) →
  ∃ s', copy_code_path c path (dir, name) s = (Ok (), s') ∧
        fs s' = <[path := <["code/" +:+ name := File (data x) false]> d]> (fs s) ∧
        calls s' = calls s ∧ raised s' = raised s ∧
        history s' = history s ++ [fs s'].
Proof.
  intros Hx Hd Hw.
  unfold copy_code_path, try_except_OSError, try_except, bind at 1, read_file,
    bind at 1, get_fs.
  rewrite Hx. unfold ret at 1, write_file, bind, get_fs, set_fs, throw. rewrite Hd.
  destruct (d !! ("code/" +:+ name)) as [[t []]|] eqn:Hn; [|by eexists..].
  by specialize (Hw _ Hn).
Qed.

Lemma write_all_ok c path files s s' d :
  fs s !! path = Some d →
  for_each files (fun '(name, text) => write_file c path name text) s = (Ok (), s') →
  fs s' !! path
  = Some (foldl (fun d '(name, text) => <[name := File text false]> d) d files).
Proof.
  revert s d. induction files as [|[name text] files IH]; intros s d Hd; simpl.
  - by intros [= <-].
  - unfold bind at 1, write_file, bind at 1, get_fs. rewrite Hd.
    destruct (d !! name) as [[t []]|]; unfold throw, set_fs; try done;
      apply IH; simpl; by rewrite lookup_insert_eq.
Qed.

Lemma write_all_succeeds c path files s d :
  fs s !! path = Some d → (∀ k x, d !! k = Some x → locked x = false) →
  ∃ s', for_each files (fun '(name, text) => write_file c path name text) s
        = (Ok (), s').
Proof.
  revert s d. induction files as [|[name text] files IH]; intros s d Hd Hun; simpl.
  - by eexists.
  - unfold bind at 1, write_file, bind at 1, get_fs. rewrite Hd.
    assert (∀ k x, <[name := File text false]> d !! k = Some x → locked x = false)
      as Hun'.
    { intros k x [[_ <-]|[_ Hk]]%lookup_insert_Some; [done|by eapply Hun]. }
    destruct (d !! name) as [[t []]|] eqn:Hn; unfold throw, set_fs.
    + by specialize (Hun _ _ Hn).
    + eapply IH; [|exact Hun']. simpl. by rewrite lookup_insert_eq.
    + eapply IH; [|exact Hun']. simpl. by rewrite lookup_insert_eq.
Qed.

(** The tail of mlflow's saving, once the directory is there and empty:
    the two code files are copied, then the files of the model written. *)
Lemma mlflow_save_tail_ok model path s s' :
  fs s !! path = Some ∅ →
  (for_each (map (fun code_path => (script_dir, code_path))
               ["neural_network.py"; "utils_train_nn.py"])
     (copy_code_path (mlflow_save_model_call path) path) ;;
   for_each (map_to_list (serialize model))
     (fun '(name, text) => write_file (mlflow_save_model_call path) path name text)) s
  = (Ok (), s') →
  ∃ code, code_of (fs s) = Some code ∧
          fs s' !! path = Some (saved_model_dir model code).
Proof.
  intros Hp. cbn [map for_each]. unfold bind at 1. unfold bind at 1.
  destruct (copy_code_path _ path (script_dir, "neural_network.py") s)
    as [[[]|e] s1] eqn:E1; [|done].
  destruct (copy_code_path_ok _ _ _ _ _ _ E1) as (x & d1 & Hx & Hd1 & Hfs1).
  rewrite Hp in Hd1. injection Hd1 as <-.
  destruct (decide (script_dir = path)) as [Heq|Hne].
  { rewrite Heq, Hp in Hx. simpl in Hx. by rewrite lookup_empty in Hx. }
  unfold bind at 1.
  destruct (copy_code_path _ path (script_dir, "utils_train_nn.py") s1)
    as [[[]|e] s2] eqn:E2; [|done].
  destruct (copy_code_path_ok _ _ _ _ _ _ E2) as (y & d2 & Hy & Hd2 & Hfs2).
  rewrite Hfs1, lookup_insert_eq in Hd2. injection Hd2 as <-.
  rewrite Hfs1, lookup_insert_ne in Hy by done.
  unfold ret at 1. intros E3.
  eapply write_all_ok in E3; [|by rewrite Hfs2, lookup_insert_eq].
  exists [("neural_network.py", data x); ("utils_train_nn.py", data y)]. split.
  - unfold code_of. destruct (fs s !! script_dir) as [d|]; [|done]. simpl in *.
    by rewrite Hx, Hy.
  - rewrite E3. unfold saved_model_dir, artifact_files. by rewrite foldl_app.
Qed.

(** A save that returns has found the code files and left the whole saved
    model at the path. *)
Lemma mlflow_save_ok model path s s' :
  mlflow_pytorch_save_model model path
    (map (fun code_path => (script_dir, code_path))
       ["neural_network.py"; "utils_train_nn.py"]) s = (Ok (), s') →
  ∃ code, code_of (fs s) = Some code ∧
          fs s' !! path = Some (saved_model_dir model code).
Proof.
  unfold mlflow_pytorch_save_model, bind at 1.
  destruct (enter _ s) as [[[]|e] s1] eqn:Ee; [|done].
  assert (fs s1 = fs s) as Hfs.
  { revert Ee. unfold enter, throw. destruct (faults _); by intros [= <-]. }
  rewrite <- Hfs.
  unfold bind at 1, get_fs. unfold bind at 1.
  destruct (fs s1 !! path) as [d|] eqn:Hp.
  - destruct (decide (d = ∅)) as [->|Hne]; [|done].
    unfold ret at 1. unfold bind at 1, os_makedirs, bind at 1, get_fs.
    rewrite Hp. unfold ret at 1. by apply mlflow_save_tail_ok.
  - unfold ret at 1. unfold bind at 1, os_makedirs, bind at 1, get_fs.
    rewrite Hp. unfold set_fs. intros E.
    apply mlflow_save_tail_ok in E; [|cbn [fs]; by rewrite lookup_insert_eq].
    destruct E as (code & Hcode & Hs'). exists code. split; [|done].
    revert Hcode. unfold code_of. cbn [fs].
    destruct (decide (script_dir = path)) as [<-|Hne].
    + rewrite lookup_insert_eq. simpl. by rewrite lookup_empty.
    + by rewrite lookup_insert_ne.
Qed.

Lemma mlflow_save_succeeds model path s code :
  faults (length (calls s)) = None →
  fs s !! path = None →
  code_of (fs s) = Some code →
  ∃ s', mlflow_pytorch_save_model model path
          (map (fun code_path => (script_dir, code_path))
             ["neural_network.py"; "utils_train_nn.py"]) s = (Ok (), s').
Proof.
  intros Hf Hp Hc.
  assert (script_dir ≠ path) as Hne.
  { intros Heq. revert Hc. unfold code_of. by rewrite Heq, Hp. }
  assert (∃ x y, (fs s !! script_dir ≫= (.!! "neural_network.py")) = Some x ∧
                 (fs s !! script_dir ≫= (.!! "utils_train_nn.py")) = Some y)
    as (x & y & Hx & Hy).
  { revert Hc. unfold code_of. destruct (fs s !! script_dir) as [d|]; [|done]. simpl.
    destruct (d !! "neural_network.py") as [x|]; [|done]. simpl.
    destruct (d !! "utils_train_nn.py") as [y|]; [|done]. by eexists _, _. }
  unfold mlflow_pytorch_save_model, bind at 1. rewrite (enter_ok _ _ Hf).
  unfold bind at 1, get_fs. cbn [fs]. rewrite Hp. unfold bind at 1, ret at 1.
  unfold bind at 1, os_makedirs, bind at 1, get_fs. cbn [fs]. rewrite Hp.
  unfold set_fs. cbn [map for_each].
  match goal with |- ∃ s', _ ?st = _ => set (s0 := st) end.
  destruct (copy_code_path_succeeds (mlflow_save_model_call path) path script_dir
              "neural_network.py" s0 x ∅) as (s1 & E1 & Hfs1 & _).
  { unfold s0. cbn [fs]. by rewrite lookup_insert_ne. }
  { unfold s0. cbn [fs]. by rewrite lookup_insert_eq. }
  { intros z. by rewrite lookup_empty. }
  unfold bind at 1. unfold bind at 1. rewrite E1.
  destruct (copy_code_path_succeeds (mlflow_save_model_call path) path script_dir
              "utils_train_nn.py" s1 y
              (<["code/neural_network.py" := File (data x) false]> ∅))
    as (s2 & E2 & Hfs2 & _).
  { rewrite Hfs1. unfold s0. cbn [fs]. by rewrite !lookup_insert_ne. }
  { rewrite Hfs1. by rewrite lookup_insert_eq. }
  { intros z [[_ <-]|[_ Hz]]%lookup_insert_Some; [done|by rewrite lookup_empty in Hz]. }
  unfold bind at 1. rewrite E2. unfold ret at 1.
  eapply write_all_succeeds.
  - rewrite Hfs2. by rewrite lookup_insert_eq.
  - intros k z [[_ <-]|[_ [[_ <-]|[_ Hz]]%lookup_insert_Some]]%lookup_insert_Some;
      [done..|by rewrite lookup_empty in Hz].
Qed.

(** *** copytree *)

Lemma enter_still c s r s' :
  enter c s = (r, s') → fs s' = fs s ∧ history s' = history s.
Proof. unfold enter, throw. destruct (faults _); by intros [= <- <-]. Qed.

Lemma append_empty (s : string) : s +:+ EmptyString = s.
Proof.
  induction s as [|a s IH]; [done|].
  change (String a (s +:+ EmptyString) = String a s). by f_equal.
Qed.

Lemma written_so_far_empty (x : file) : written_so_far (File EmptyString false) x.
Proof. split; [done|]. by exists (data x). Qed.

Lemma written_so_far_whole (x : file) : written_so_far (File (data x) false) x.
Proof. split; [done|]. exists EmptyString. cbn [data]. by rewrite append_empty. Qed.

(** One turn of the loop of copytree: the copy, and what is kept of it. *)
Lemma copy_step c src dst name x (reason : string * string) s r s' :
  try_except_OSError (copy2 c src dst name x ;; ret [])
    (fun why => ret [reason]) s = (r, s') →
  ∃ r2, copy2 c src dst name x s = (r2, s') ∧
        ((r2 = Ok () ∧ r = Ok []) ∨ (∃ e, r2 = Raise e ∧ r = Ok [reason])).
Proof.
  unfold try_except_OSError, try_except, bind at 1.
  destruct (copy2 c src dst name x s) as [r2 s2] eqn:E2.
  destruct (copy2_raised _ _ _ _ _ _ _ _ E2) as [[-> _]|(e & -> & Hos & _)].
  - intros [= <- <-]. exists (Ok ()). split; [done|]. by left.
  - rewrite Hos. intros [= <- <-]. exists (Raise e). split; [done|]. right. by exists e.
Qed.

Lemma copy_entries_fills c src dst f0 entries :
  (∀ name x, (name, x) ∈ entries → (f0 !! src ≫= (.!! name)) = Some x) →
  steps (filling src dst f0) (copy_entries c src dst entries).
Proof.
  induction entries as [|[name x] rest IH]; intros Hsrc; simpl.
  - apply steps_ret.
  - apply steps_bind; [|intros errs].
    + apply steps_try_except_OSError; [|intros e; apply steps_ret].
      apply steps_bind; [|intros _; apply steps_ret].
      apply steps_copy2. intros f d t [Hu Hfill] Hd _ Ht. split.
      * intros q Hq. rewrite lookup_insert_ne by done. by apply Hu.
      * intros d' name' x'. rewrite lookup_insert_eq. intros [= <-].
        intros [[<- <-]|[Hne Hx']]%lookup_insert_Some.
        -- right. exists x. split; [apply Hsrc; apply list_elem_of_here|].
           destruct Ht as [-> | ->];
             [apply written_so_far_empty|apply written_so_far_whole].
        -- by eapply Hfill.
    + apply steps_bind; [|intros errs'; apply steps_ret].
      apply IH. intros name' x' Hin. apply Hsrc. by apply list_elem_of_further.
Qed.

Lemma copytree_tail_fills src dst dirs_exist_ok d f0 :
  f0 !! src = Some d →
  steps (filling src dst f0)
    (os_makedirs (copytree_call src dst dirs_exist_ok) dst dirs_exist_ok ;;
     errors ← copy_entries (copytree_call src dst dirs_exist_ok) src dst (map_to_list d);
     match errors with
     | [] => ret dst
     | _ => throw (copytree_call src dst dirs_exist_ok) (shutil_Error errors)
     end).
Proof.
  intros Hd. apply steps_bind; [|intros _].
  - apply steps_os_makedirs. intros f [Hu Hfill] Hnone. split.
    + intros q Hq. rewrite lookup_insert_ne by done. by apply Hu.
    + intros d' name x. rewrite lookup_insert_eq. intros [= <-].
      by rewrite lookup_empty.
  - apply steps_bind; [|intros errs].
    + apply copy_entries_fills. intros name x Hin%elem_of_map_to_list.
      rewrite Hd. done.
    + destruct errs; [apply steps_ret|apply steps_throw].
Qed.

(** Whatever copytree does, every state it goes through has under [dst]
    only files that were there or copies of files of [src], the last of
    them perhaps not yet filled. *)
Lemma copytree_fills src dst dirs_exist_ok s r s' :
  copytree src dst dirs_exist_ok s = (r, s') →
  filling src dst (fs s) (fs s') ∧
  ∃ h, history s' = history s ++ h ∧ Forall (filling src dst (fs s)) h.
Proof.
  unfold copytree, bind at 1.
  destruct (enter _ s) as [[[]|e] s1] eqn:Ee.
  - destruct (enter_still _ _ _ _ Ee) as [Hfs Hh]. rewrite <- Hfs, <- Hh.
    unfold bind at 1, get_fs.
    destruct (fs s1 !! src) as [d|] eqn:Hd.
    + intros E.
      exact (copytree_tail_fills src dst dirs_exist_ok d (fs s1) Hd s1 r s'
               (filling_refl src dst (fs s1)) E).
    + intros [= <- <-]. split; [apply filling_refl|].
      exists []. by rewrite app_nil_r.
  - intros [= <- <-]. destruct (enter_still _ _ _ _ Ee) as [-> ->].
    split; [apply filling_refl|]. exists []. by rewrite app_nil_r.
Qed.

Lemma copy2_other c src dst name x s r s' name' :
  copy2 c src dst name x s = (r, s') → name' ≠ name →
  (fs s' !! dst ≫= (.!! name')) = (fs s !! dst ≫= (.!! name')).
Proof.
  unfold copy2, bind, get_fs, set_fs, throw. intros E Hne. revert E.
  destruct (fs s !! dst) as [d|] eqn:Hd;
    [|intros [= <- <-]; cbn [fs]; by rewrite Hd].
  destruct (d !! name) as [[t []]|]; intros [= <- <-]; cbn [fs];
    rewrite ?Hd, ?lookup_insert_eq; simpl; by rewrite ?lookup_insert_ne.
Qed.

Lemma copy_entries_other c src dst entries s r s' name :
  copy_entries c src dst entries s = (r, s') → name ∉ entries.*1 →
  (fs s' !! dst ≫= (.!! name)) = (fs s !! dst ≫= (.!! name)).
Proof.
  revert s r s'. induction entries as [|[n x] rest IH]; intros s r s'; simpl.
  - by intros [= <- <-].
  - intros E Hnin. apply not_elem_of_cons in Hnin as [Hne Hnin].
    revert E. unfold bind at 1.
    destruct (try_except_OSError _ _ s) as [r1 s1] eqn:E1.
    destruct (copy_step _ _ _ _ _ _ _ _ _ E1) as (r2 & E2 & [[_ ->]|(e & _ & ->)]);
      unfold bind at 1;
      destruct (copy_entries c src dst rest s1) as [[errs'|e'] s2] eqn:Er;
      intros [= <- <-];
      rewrite (IH _ _ _ Er Hnin); by eapply copy2_other.
Qed.

Lemma copy2_done c src dst name x s s' :
  copy2 c src dst name x s = (Ok (), s') →
  (fs s' !! dst ≫= (.!! name)) = Some (File (data x) false).
Proof.
  unfold copy2, bind, get_fs, set_fs, throw.
  destruct (fs s !! dst) as [d|] eqn:Hd; [|done].
  destruct (d !! name) as [[t []]|]; intros [= <-]; cbn [fs];
    rewrite lookup_insert_eq; simpl; by rewrite lookup_insert_eq.
Qed.

(** When no copy failed, every entry is under [dst]. *)
Lemma copy_entries_done c src dst entries s s' :
  copy_entries c src dst entries s = (Ok [], s') → NoDup entries.*1 →
  ∀ name x, (name, x) ∈ entries →
    (fs s' !! dst ≫= (.!! name)) = Some (File (data x) false).
Proof.
  revert s s'. induction entries as [|[n y] rest IH]; intros s s'; simpl.
  - intros _ _ name x Hin. by apply elem_of_nil in Hin.
  - unfold bind at 1.
    destruct (try_except_OSError _ _ s) as [r1 s1] eqn:E1.
    destruct (copy_step _ _ _ _ _ _ _ _ _ E1) as (r2 & E2 & [[-> ->]|(e & _ & ->)]);
      unfold bind at 1;
      destruct (copy_entries c src dst rest s1) as [[errs'|e'] s2] eqn:Er; try done.
    intros [= -> <-].
    intros [Hnin Hnd]%NoDup_cons name x [[= -> ->]|Hin]%elem_of_cons.
    + rewrite (copy_entries_other _ _ _ _ _ _ _ _ Er Hnin). by eapply copy2_done.
    + by eapply IH.
Qed.

(** A copytree that returns has copied every file of the source. *)
Lemma copytree_ok src dst dirs_exist_ok s r s' :
  copytree src dst dirs_exist_ok s = (Ok r, s') →
  ∃ d, fs s !! src = Some d ∧
       ∀ name x, d !! name = Some x →
         (fs s' !! dst ≫= (.!! name)) = Some (File (data x) false).
Proof.
  unfold copytree, bind at 1.
  destruct (enter _ s) as [[[]|e] s1] eqn:Ee; [|done].
  destruct (enter_still _ _ _ _ Ee) as [Hfs _]. rewrite <- Hfs.
  unfold bind at 1, get_fs.
  destruct (fs s1 !! src) as [d|] eqn:Hd; [|done].
  unfold bind at 1.
  destruct (os_makedirs _ dst dirs_exist_ok s1) as [[[]|e] s2]; [|done].
  unfold bind at 1.
  destruct (copy_entries _ src dst (map_to_list d) s2) as [[errs|e] s3] eqn:Ec; [|done].
  destruct errs; [|done]. intros [= <- <-].
  exists d. split; [done|]. intros name x Hx.
  eapply copy_entries_done; [done|apply NoDup_fst_map_to_list|].
  by apply elem_of_map_to_list.
Qed.

Lemma copy2_succeeds c src dst name x s d :
  fs s !! dst = Some d → writable d name →
  ∃ s', copy2 c src dst name x s = (Ok (), s') ∧
        fs s' = <[dst := <[name := File (data x) false]> d]> (fs s).
Proof.
  intros Hd Hw. unfold copy2, bind, get_fs, set_fs, throw. rewrite Hd.
  destruct (d !! name) as [[t []]|] eqn:Hn; [|by eexists..].
  by specialize (Hw _ Hn).
Qed.

Lemma copy_entries_succeeds c src dst entries s d :
  fs s !! dst = Some d →
  (∀ name x, (name, x) ∈ entries → writable d name) →
  ∃ s', copy_entries c src dst entries s = (Ok [], s').
Proof.
  revert s d. induction entries as [|[n y] rest IH]; intros s d Hd Hw; simpl.
  - by eexists.
  - assert (writable d n) as Hn by (eapply Hw; apply list_elem_of_here).
    assert (∀ name x, (name, x) ∈ rest →
              writable (<[n := File (data y) false]> d) name) as Hw'.
    { intros name x Hin z [[_ <-]|[_ Hz]]%lookup_insert_Some; [done|].
      eapply Hw; [by apply list_elem_of_further|done]. }
    destruct (copy2_succeeds c src dst n y s d Hd Hn) as (s1 & E1 & Hfs1).
    unfold bind at 1, try_except_OSError, try_except, bind at 1. rewrite E1.
    unfold ret at 1.
    destruct (IH s1 (<[n := File (data y) false]> d)) as [s' E'];
      [by rewrite Hfs1, lookup_insert_eq|exact Hw'|].
    unfold bind. rewrite E'. by eexists.
Qed.

Lemma copytree_succeeds src dst s d :
  faults (length (calls s)) = None →
  fs s !! src = Some d →
  (∀ name, is_Some (d !! name) → writable (default ∅ (fs s !! dst)) name) →
  ∃ s', copytree src dst true s = (Ok dst, s').
Proof.
  intros Hf Hd Hw.
  unfold copytree, bind at 1. rewrite (enter_ok _ _ Hf).
  unfold bind at 1, get_fs. cbn [fs]. rewrite Hd.
  unfold bind at 1, os_makedirs, bind at 1, get_fs. cbn [fs].
  destruct (fs s !! dst) as [dd|] eqn:Hdd; unfold ret at 1, set_fs; unfold bind at 1.
  - match goal with
    | |- context [copy_entries ?c src dst ?l ?st] =>
        destruct (copy_entries_succeeds c src dst l st dd) as [s' ->]
    end; [exact Hdd| |by eexists].
    intros name x Hin%elem_of_map_to_list. apply Hw. by eexists.
  - match goal with
    | |- context [copy_entries ?c src dst ?l ?st] =>
        destruct (copy_entries_succeeds c src dst l st ∅) as [s' ->]
    end; [cbn [fs]; apply lookup_insert_eq| |by eexists].
    intros name x _ z. by rewrite lookup_empty.
Qed.

(** *** save_model, step by step *)

Lemma external_still {A} c (a : A) s r s' :
  external c a s = (r, s') →
  fs s' = fs s ∧ history s' = history s ∧ calls s' = calls s ++ [c].
Proof.
  unfold external, bind, ret. destruct (enter c s) as [[[]|e] s1] eqn:Ee;
    intros [= <- <-]; destruct (enter_still _ _ _ _ Ee) as [-> ->];
    by rewrite (enter_calls _ _ _ _ Ee).
Qed.

Lemma rmtree_returns path s : ∃ s', rmtree path true s = (Ok (), s').
Proof.
  pose proof (rmtree_ignoring_returns path s) as H.
  destruct (rmtree path true s) as [[[]|e] s']; [by eexists|done].
Qed.

(** The five steps of a run of [save_model], as far as it gets. *)
Lemma save_model_run model_dir model s r s' :
  save_model model_dir model s = (r, s') →
  ∃ rA sA, external (logging_info ("Saving model to " +:+ temp_path)) () s = (rA, sA) ∧
  match rA with
  | Raise e => r = Raise e ∧ s' = sA
  | Ok _ =>
    ∃ rB sB, mlflow_pytorch_save_model model temp_path
               (map (fun code_path => (script_dir, code_path))
                  ["neural_network.py"; "utils_train_nn.py"]) sA = (rB, sB) ∧
    match rB with
    | Raise e => r = Raise e ∧ s' = sB
    | Ok _ =>
      ∃ rC sC, external (logging_info ("Copying model to " +:+ model_dir)) () sB
               = (rC, sC) ∧
      match rC with
      | Raise e => r = Raise e ∧ s' = sC
      | Ok _ =>
        ∃ sD rE, rmtree model_dir true sC = (Ok (), sD) ∧
                 copytree temp_path model_dir true sD = (rE, s') ∧
                 r = match rE with Ok _ => Ok () | Raise e => Raise e end
      end
    end
  end.
Proof.
  unfold save_model. fold temp_path. unfold bind at 1.
  destruct (external _ () s) as [[[]|e] sA] eqn:EA; [|intros [= <- <-]; by eexists _, _].
  unfold bind at 1.
  destruct (mlflow_pytorch_save_model _ _ _ sA) as [[[]|e] sB] eqn:EB;
    [|intros [= <- <-]; eexists _, _; split; [done|]; by eexists _, _].
  unfold bind at 1.
  destruct (external _ () sB) as [[[]|e] sC] eqn:EC;
    [|intros [= <- <-]; eexists _, _; split; [done|]; eexists _, _; split; [done|];
      by eexists _, _].
  unfold bind at 1. destruct (rmtree_returns model_dir sC) as [sD ED]. rewrite ED.
  unfold bind, ret.
  intros E. eexists _, _. split; [done|]. eexists _, _. split; [done|].
  eexists _, _. split; [done|]. exists sD.
  destruct (copytree temp_path model_dir true sD) as [[b|e] sE];
    injection E as <- <-; by eexists.
Qed.

Lemma saved_model_dir_unlocked model code name x :
  saved_model_dir model code !! name = Some x → locked x = false.
Proof.
  unfold saved_model_dir.
  assert (∀ files (d : directory),
            (∀ k y, d !! k = Some y → locked y = false) →
            ∀ k y, foldl (fun d '(name, text) => <[name := File text false]> d) d files
                     !! k = Some y → locked y = false) as H.
  { induction files as [|[n t] files IH]; intros d Hd; simpl; [done|].
    apply IH. intros k y [[_ <-]|[_ Hk]]%lookup_insert_Some; [done|by eapply Hd]. }
  apply (H _ ∅). intros k y. by rewrite lookup_empty.
Qed.

Lemma unlocked_copy (x : file) : locked x = false → File (data x) false = x.
Proof. destruct x as [t l]. simpl. by intros ->. Qed.

Lemma copytree_makes_dst src dst dirs_exist_ok s r s' :
  copytree src dst dirs_exist_ok s = (Ok r, s') → is_Some (fs s' !! dst).
Proof.
  unfold copytree, bind at 1.
  destruct (enter _ s) as [[[]|e] s1] eqn:Ee; [|done].
  unfold bind at 1, get_fs.
  destruct (fs s1 !! src) as [d|] eqn:Hd; [|done].
  unfold bind at 1.
  destruct (os_makedirs _ dst dirs_exist_ok s1) as [[[]|e] s2] eqn:Em; [|done].
  assert (is_Some (fs s2 !! dst)) as Hdst.
  { revert Em. unfold os_makedirs, bind, get_fs, set_fs, ret, throw.
    destruct (fs s1 !! dst) as [dd|] eqn:Hdd.
    - destruct dirs_exist_ok; intros [= <-]; by rewrite Hdd.
    - intros [= <-]. cbn [fs]. by rewrite lookup_insert_eq. }
  unfold bind at 1.
  destruct (copy_entries _ src dst (map_to_list d) s2) as [[errs|e] s3] eqn:Ec; [|done].
  destruct errs; [|done]. intros [= <- <-].
  assert (steps (fun f => is_Some (f !! dst))
            (copy_entries (copytree_call src dst dirs_exist_ok) src dst (map_to_list d)))
    as Hsteps.
  { generalize (map_to_list d). intros entries.
    induction entries as [|[n x] rest IH]; simpl; [apply steps_ret|].
    apply steps_bind; [|intros errs].
    - apply steps_try_except_OSError; [|intros e; apply steps_ret].
      apply steps_bind; [|intros _; apply steps_ret].
      apply steps_copy2. intros f dd t _ _ _ _. by rewrite lookup_insert_eq.
    - apply steps_bind; [done|intros errs'; apply steps_ret]. }
  by destruct (Hsteps _ _ _ Hdst Ec) as [? _].
Qed.

(** What a [save_model] that returns leaves. *)
Lemma save_model_returned model_dir model s s' :
  temp_path ≠ model_dir →
  save_model model_dir model s = (Ok (), s') →
  ∃ code d,
    code_of (fs s) = Some code ∧ fs s' !! model_dir = Some d ∧
    loadable d (saved_model_dir model code) ∧
    (∀ name x, d !! name = Some x →
       saved_model_dir model code !! name = Some x ∨
       (fs s !! model_dir ≫= (.!! name)) = Some x) ∧
    ((∀ n, faults n = None) →
     (∀ name x, (fs s !! model_dir ≫= (.!! name)) = Some x → locked x = false) →
     d = saved_model_dir model code) ∧
    fs s' !! temp_path = Some (saved_model_dir model code).
Proof.
  intros Hne Hrun.
  destruct (save_model_run _ _ _ _ _ Hrun) as (rA & sA & EA & HA).
  destruct rA as [[]|e]; [|by destruct HA].
  destruct HA as (rB & sB & EB & HB). destruct rB as [[]|e]; [|by destruct HB].
  destruct HB as (rC & sC & EC & HC). destruct rC as [[]|e]; [|by destruct HC].
  destruct HC as (sD & rE & ED & EE & HrE). destruct rE as [dst|e]; [|done].
  destruct (external_still _ _ _ _ _ EA) as (HfsA & _ & HcA).
  destruct (external_still _ _ _ _ _ EC) as (HfsC & _ & HcC).
  destruct (mlflow_save_ok _ _ _ _ EB) as (code & Hcode & Htemp).
  rewrite HfsA in Hcode.
  destruct (mlflow_save_untouched model temp_path _ (fs sA) sA _ sB
              (untouched_but_refl _ _) EB) as [HuB _].
  destruct (rmtree_shrinks model_dir true (fs sC) sC _ sD
              (shrinking_refl _ _) ED) as [[HuD HsD] _].
  destruct (copytree_fills _ _ _ _ _ _ EE) as [[HuE HfE] _].
  destruct (copytree_ok _ _ _ _ _ _ EE) as (art & Hart & Hcopied).
  destruct (copytree_makes_dst _ _ _ _ _ _ EE) as [d Hd].
  assert (fs sD !! temp_path = Some (saved_model_dir model code)) as HtempD.
  { rewrite HuD by done. by rewrite HfsC. }
  rewrite HtempD in Hart. injection Hart as <-.
  assert (∀ name x, (fs sD !! model_dir ≫= (.!! name)) = Some x →
            (fs s !! model_dir ≫= (.!! name)) = Some x) as Hprior.
  { intros name x. destruct (fs sD !! model_dir) as [dD|] eqn:HdD; [|done].
    destruct (HsD _ eq_refl) as (d0 & Hd0 & Hsub). simpl. intros Hx.
    rewrite <- HfsA, <- (HuB model_dir), <- HfsC, Hd0 by done. simpl.
    by eapply lookup_weaken. }
  exists code, d. split; [done|]. split; [done|]. split; [|split; [|split]];
    [| | |by rewrite HuE].
  - intros name x Hx. specialize (Hcopied _ _ Hx). rewrite Hd in Hcopied.
    simpl in Hcopied. rewrite Hcopied.
    f_equal. apply unlocked_copy. by eapply saved_model_dir_unlocked.
  - intros name x Hx.
    destruct (saved_model_dir model code !! name) as [y|] eqn:Hy.
    + left. specialize (Hcopied _ _ Hy). rewrite Hd in Hcopied. simpl in Hcopied.
      rewrite Hx in Hcopied. injection Hcopied as ->.
      f_equal. symmetry. apply unlocked_copy. by eapply saved_model_dir_unlocked.
    + right. destruct (HfE _ _ _ Hd Hx) as [Hold|(y & Hy' & _)].
      * by apply Hprior.
      * rewrite HtempD in Hy'. simpl in Hy'. congruence.
  - intros Hfaults Hunlocked.
    assert (fs sD !! model_dir = None) as Hgone.
    { destruct (fs sC !! model_dir) as [d0|] eqn:Hd0.
      - replace sD with (rmtree model_dir true sC).2 by by rewrite ED.
        eapply rmtree_clears; [apply Hfaults|done|].
        intros k x Hk. eapply (Hunlocked k).
        rewrite <- HfsA, <- (HuB model_dir), <- HfsC, Hd0 by done. done.
      - rewrite rmtree_missing in ED by done. by injection ED as <-. }
    apply map_eq. intros name.
    destruct (saved_model_dir model code !! name) as [x|] eqn:Hx.
    + specialize (Hcopied _ _ Hx). rewrite Hd in Hcopied. simpl in Hcopied.
      rewrite Hcopied. f_equal. apply unlocked_copy.
      by eapply saved_model_dir_unlocked.
    + destruct (d !! name) as [x|] eqn:Hdx; [|done].
      destruct (HfE _ _ _ Hd Hdx) as [Hold|(y & Hy & _)].
      * by rewrite Hgone in Hold.
      * rewrite HtempD in Hy. simpl in Hy. congruence.
Qed.

(** C5, as the code has it. After save_model returns, model_dir holds every
    file of the new artifact, a loadable model; whatever else is there is
    a file it held before, one that rmtree could not delete and whose
    error was dropped. When nothing fails and no prior file is locked,
    model_dir is exactly the new artifact. *)
Theorem save_model_leaves_loadable_model model_dir model s s' :
  temp_path ≠ model_dir →
  save_model model_dir model s = (Ok (), s') →
  ∃ code d,
    code_of (fs s) = Some code ∧ fs s' !! model_dir = Some d ∧
    loadable d (saved_model_dir model code) ∧
    (∀ name x, d !! name = Some x →
       saved_model_dir model code !! name = Some x ∨
       (fs s !! model_dir ≫= (.!! name)) = Some x) ∧
    ((∀ n, faults n = None) →
     (∀ name x, (fs s !! model_dir ≫= (.!! name)) = Some x → locked x = false) →
     d = saved_model_dir model code).
Proof.
  intros Hne Hrun.
  destruct (save_model_returned _ _ _ _ Hne Hrun) as (code & d & ? & ? & ? & ? & ? & _).
  by exists code, d.
Qed.

Lemma leads_to_refl (l : list string) : leads_to l l = true.
Proof.
  induction l as [|x l IH]; [done|]. simpl. by rewrite bool_decide_eq_true_2.
Qed.

(** Paths that lie apart are different paths. *)
Lemma apart_ne p q : apart p q → p ≠ q.
Proof. intros [H _] ->. unfold inside in H. by rewrite leads_to_refl in H. Qed.

(** C1, as the code has it. save_model works in two phases. First mlflow
    writes the artifact under the temporary directory, and model_dir keeps
    its contents meanwhile. Then rmtree deletes and copytree copies, file
    by file: the temporary directory holds the whole artifact, and every
    file seen under model_dir is one of its prior files or a file of the
    artifact as far as it is written. The second phase starts with
    the call of rmtree. When save_model returns, it has made its five
    library calls, the temporary directory holds the artifact and
    model_dir holds every file of it. *)
Theorem save_model_writes_temp_then_replaces model_dir model s :
  apart temp_path model_dir →
  ∃ writing replacing,
    states_during (save_model model_dir model) s = writing ++ replacing ∧
    Forall (fun f => f !! model_dir = fs s !! model_dir) writing ∧
    Forall (replacing_state model_dir model (fs s)) replacing ∧
    (rmtree_call model_dir true ∉ calls_during (save_model model_dir model) s →
     replacing = []) ∧
    ((save_model model_dir model s).1 = Ok () →
     calls_during (save_model model_dir model) s = save_model_calls model_dir ∧
     ∃ code d,
       code_of (fs s) = Some code ∧
       fs (save_model model_dir model s).2 !! temp_path
       = Some (saved_model_dir model code) ∧
       fs (save_model model_dir model s).2 !! model_dir = Some d ∧
       loadable d (saved_model_dir model code)).
Proof.
  intros Hne%apart_ne. unfold states_during, calls_during.
  destruct (save_model model_dir model s) as [r s'] eqn:Hrun. cbn [fst snd].
  destruct (save_model_run _ _ _ _ _ Hrun) as (rA & sA & EA & HA).
  destruct (external_still _ _ _ _ _ EA) as (HfsA & HhA & HcA).
  destruct rA as [[]|e].
  2:{ destruct HA as [-> ->]. exists [], []. rewrite HhA, drop_all. done. }
  destruct HA as (rB & sB & EB & HB).
  destruct (mlflow_save_untouched model temp_path _ (fs sA) sA _ sB
              (untouched_but_refl _ _) EB) as (HuB & hB & HhB & HallB).
  assert (Forall (fun f => f !! model_dir = fs s !! model_dir) hB) as Hwriting.
  { eapply Forall_impl; [exact HallB|]. intros f Hu. simpl.
    rewrite <- HfsA. by apply Hu. }
  destruct rB as [[]|e].
  2:{ destruct HB as [-> ->]. exists hB, [].
      rewrite HhB, HhA, drop_app_length, app_nil_r. done. }
  destruct HB as (rC & sC & EC & HC).
  destruct (external_still _ _ _ _ _ EC) as (HfsC & HhC & HcC).
  destruct rC as [[]|e].
  2:{ destruct HC as [-> ->]. exists hB, [].
      rewrite HhC, HhB, HhA, drop_app_length, app_nil_r. done. }
  destruct HC as (sD & rE & ED & EE & HrE).
  destruct (mlflow_save_ok _ _ _ _ EB) as (code & Hcode & Htemp).
  rewrite HfsA in Hcode.
  destruct (rmtree_shrinks model_dir true (fs sC) sC _ sD
              (shrinking_refl _ _) ED) as (HsD & hD & HhD & HallD).
  destruct (copytree_fills _ _ _ _ _ _ EE) as (_ & hE & HhE & HallE).
  assert (∀ f, shrinking model_dir (fs sC) f →
               replacing_state model_dir model (fs s) f) as Hshrink.
  { intros f [Hu Hs]. exists code. split; [done|]. split.
    - rewrite Hu by done. by rewrite HfsC.
    - intros d name x Hd Hx. left.
      destruct (Hs _ Hd) as (d0 & Hd0 & Hsub).
      rewrite <- HfsA, <- (HuB model_dir), <- HfsC, Hd0 by done. simpl.
      by eapply lookup_weaken. }
  exists hB, (hD ++ hE).
  rewrite HhE, HhD, HhC, HhB, HhA, <- !(assoc_L (++)), drop_app_length.
  split; [done|]. split; [done|]. split; [|split].
  - apply Forall_app. split.
    + eapply Forall_impl; [exact HallD|]. done.
    + eapply Forall_impl; [exact HallE|]. intros f [Hu Hf].
      destruct (Hshrink _ HsD) as (code' & Hcode' & HtempD & HfilesD).
      exists code'. split; [done|]. split.
      * rewrite Hu by done. done.
      * intros d name x Hd Hx. destruct (Hf _ _ _ Hd Hx) as [Hold|(y & Hy & Hw)].
        -- destruct (fs sD !! model_dir) as [dD|] eqn:HdD; [|done].
           by eapply HfilesD.
        -- right. exists y. split; [|done]. rewrite HtempD in Hy. done.
  - intros Hnot. destruct Hnot.
    destruct (traces_mlflow_save _ _ _ _ _ _ EB) as (dB & HcB & _).
    rewrite (copytree_calls _ _ _ _ _ _ EE), (rmtree_calls _ _ _ _ _ ED),
      HcC, HcB, HcA, <- !(assoc_L (++)), drop_app_length.
    set_solver.
  - intros ->. split.
    + destruct (traces_save_model model_dir model _ _ _ Hrun) as (l & Hc & _ & Hl).
      destruct (Hl () eq_refl) as [-> _]. by rewrite Hc, drop_app_length.
    + destruct (save_model_returned _ _ _ _ Hne Hrun)
        as (code' & d & ? & ? & ? & _ & _ & ?).
      by exists code', d.
Qed.

Lemma within_external {A} c (a : A) : raises_within c (external c a).
Proof.
  unfold external. apply within_bind; [apply within_enter|intros _; apply within_ret].
Qed.

Lemma within_try_except_OSError {A} c (m : M A) (h : exn → M A) :
  raises_within c m → (∀ e, raises_within c (h e)) →
  raises_within c (try_except_OSError m h).
Proof.
  intros Hm Hh. apply within_try_except; [done|].
  intros e. destruct (is_OSError e); [apply Hh|apply within_reraise].
Qed.

Lemma within_write_file c dir name text : raises_within c (write_file c dir name text).
Proof.
  unfold write_file. apply within_bind; [apply within_get_fs|intros f1].
  destruct (f1 !! dir) as [d|]; [|apply within_throw].
  destruct (d !! name) as [[t []]|]; [apply within_throw|apply within_set_fs..].
Qed.

Lemma within_mlflow_save model path code_paths :
  raises_within (mlflow_save_model_call path)
    (mlflow_pytorch_save_model model path code_paths).
Proof.
  unfold mlflow_pytorch_save_model.
  apply within_bind; [apply within_enter|intros _].
  apply within_bind; [apply within_get_fs|intros f].
  apply within_bind; [|intros _].
  { destruct (f !! path) as [d|]; [|apply within_ret].
    destruct (decide _); [apply within_ret|apply within_throw]. }
  apply within_bind; [|intros _].
  { unfold os_makedirs. apply within_bind; [apply within_get_fs|intros f1].
    destruct (f1 !! path); [apply within_ret|apply within_set_fs]. }
  apply within_bind; [|intros _].
  - apply within_for_each. intros [dir name]. unfold copy_code_path.
    apply within_try_except_OSError; [|intros e; apply within_throw].
    apply within_bind; [|intros text; apply within_write_file].
    unfold read_file. apply within_bind; [apply within_get_fs|intros f1].
    destruct (f1 !! dir ≫= _); [apply within_ret|apply within_throw].
  - apply within_for_each. intros [name text]. apply within_write_file.
Qed.

Lemma external_ok {A} c (a : A) s :
  faults (length (calls s)) = None →
  external c a s = (Ok a, State (fs s) (calls s ++ [c]) (raised s) (history s)).
Proof. intros Hf. unfold external, bind. by rewrite (enter_ok _ _ Hf). Qed.

Lemma stages_written (stage : directory → filesystem) ds s :
  ∃ s', for_each ds (fun d => set_fs (stage d)) s = (Ok (), s') ∧
        calls s' = calls s ∧ raised s' = raised s.
Proof.
  revert s. induction ds as [|d ds IH]; intros s; simpl; [by eexists|].
  destruct (IH (State (stage d) (calls s) (raised s) (history s ++ [stage d])))
    as (s' & E & Hc & Hr).
  exists s'. unfold bind. unfold set_fs at 1. cbn beta iota. by rewrite E.
Qed.

(** A library call that writes returns when the environment lets it. *)
Lemma external_writing_ok {A} c dir stages (a : A) s :
  faults (length (calls s)) = None →
  ∃ s', external_writing c dir stages a s = (Ok a, s') ∧
        calls s' = calls s ++ [c] ∧ raised s' = raised s.
Proof.
  intros Hf. unfold external_writing, bind at 1. rewrite (enter_ok _ _ Hf).
  unfold bind at 1, get_fs. cbn [fs]. unfold bind.
  match goal with
  | |- context [for_each ?ds (fun d => set_fs (@?stage d)) ?st] =>
      destruct (stages_written stage ds st) as (s' & -> & Hc & Hr)
  end.
  exists s'. by rewrite Hc, Hr.
Qed.


End TrainFiles.

Lemma save_model_writes_temp_then_replaces_witness :
  ∃ writing replacing,
    TrainSpec.states_during
      (@Train.save_model TrainExample.platform "out" TrainExample.trained)
      (Train.initial TrainExample.fs_rerun) = writing ++ replacing ∧
    Forall (fun f => f !! "out" = TrainExample.fs_rerun !! "out") writing ∧
    Forall (@TrainSpec.replacing_state TrainExample.platform "out" TrainExample.trained
              TrainExample.fs_rerun) replacing ∧
    (Train.rmtree_call "out" true
       ∉ TrainSpec.calls_during
           (@Train.save_model TrainExample.platform "out" TrainExample.trained)
           (Train.initial TrainExample.fs_rerun) →
     replacing = []) ∧
    ((@Train.save_model TrainExample.platform "out" TrainExample.trained
        (Train.initial TrainExample.fs_rerun)).1 = Ok () →
     TrainSpec.calls_during
       (@Train.save_model TrainExample.platform "out" TrainExample.trained)
       (Train.initial TrainExample.fs_rerun)
     = @TrainSpec.save_model_calls TrainExample.platform "out" ∧
     ∃ code d,
       @TrainSpec.code_of TrainExample.platform TrainExample.fs_rerun = Some code ∧
       Train.fs (@Train.save_model TrainExample.platform "out" TrainExample.trained
                   (Train.initial TrainExample.fs_rerun)).2
         !! @TrainSpec.temp_path TrainExample.platform
       = Some (@TrainSpec.saved_model_dir TrainExample.platform
                 TrainExample.trained code) ∧
       Train.fs (@Train.save_model TrainExample.platform "out" TrainExample.trained
                   (Train.initial TrainExample.fs_rerun)).2 !! "out" = Some d ∧
       TrainSpec.loadable d
         (@TrainSpec.saved_model_dir TrainExample.platform TrainExample.trained code)).
Proof.
  apply (save_model_writes_temp_then_replaces (P := TrainExample.platform)
           "out" TrainExample.trained (Train.initial TrainExample.fs_rerun)).
  split; reflexivity.
Defined.

(** C1, as the specification has it, fails: between the deletion and the
    end of the copy, model_dir is observed in states that are neither its
    prior contents nor the new artifact (here: its files deleted one by
    one, then absent, then the artifact file by file, each file empty
    before it is filled). *)
Lemma save_model_not_atomic :
  (Train.fs (@Train.save_model TrainExample.platform "out" TrainExample.trained
               (Train.initial TrainExample.fs_rerun)).2 !! "out"
   = Some TrainExample.artifact) ∧
  Exists (fun f => f !! "out" ≠ TrainExample.fs_rerun !! "out" ∧
                   f !! "out" ≠ Some TrainExample.artifact)
    (TrainSpec.states_during
       (@Train.save_model TrainExample.platform "out" TrainExample.trained)
       (Train.initial TrainExample.fs_rerun)).
Proof.
  split; [by vm_compute|].
  apply (bool_decide_unpack _). by vm_compute.
Qed.

Lemma save_model_leaves_loadable_model_witness :
  ∃ code d,
    @TrainSpec.code_of TrainExample.platform TrainExample.fs_rerun = Some code ∧
    Train.fs (@Train.save_model TrainExample.platform "out" TrainExample.trained
                (Train.initial TrainExample.fs_rerun)).2 !! "out" = Some d ∧
    TrainSpec.loadable d
      (@TrainSpec.saved_model_dir TrainExample.platform TrainExample.trained code) ∧
    (∀ name x, d !! name = Some x →
       @TrainSpec.saved_model_dir TrainExample.platform TrainExample.trained code
         !! name = Some x ∨
       (TrainExample.fs_rerun !! "out" ≫= (.!! name)) = Some x) ∧
    ((∀ n, @Train.faults TrainExample.platform n = None) →
     (∀ name x, (TrainExample.fs_rerun !! "out" ≫= (.!! name)) = Some x →
                Train.locked x = false) →
     d = @TrainSpec.saved_model_dir TrainExample.platform TrainExample.trained code).
Proof.
  apply (save_model_leaves_loadable_model (P := TrainExample.platform)
           "out" TrainExample.trained (Train.initial TrainExample.fs_rerun)).
  - vm_compute. discriminate.
  - vm_compute. reflexivity.
Defined.

(** C5, as the specification has it, fails: a prior file that rmtree could
    not delete is still in model_dir after save_model has returned, beside
    the new artifact, of which it is no part. *)
Lemma save_model_keeps_undeletable_file :
  (@Train.save_model TrainExample.platform "out" TrainExample.trained
     (Train.initial TrainExample.fs_locked)).1 = Ok () ∧
  (TrainExample.fs_locked !! "out" ≫= (.!! "notes.txt"))
  = Some (Train.File "first run" true) ∧
  (Train.fs (@Train.save_model TrainExample.platform "out" TrainExample.trained
               (Train.initial TrainExample.fs_locked)).2 !! "out"
     ≫= (.!! "notes.txt"))
  = Some (Train.File "first run" true) ∧
  TrainExample.artifact !! "notes.txt" = None ∧
  TrainSpec.loadable
    (default ∅ (Train.fs (@Train.save_model TrainExample.platform "out"
                            TrainExample.trained
                            (Train.initial TrainExample.fs_locked)).2 !! "out"))
    TrainExample.artifact.
Proof.
  repeat split; try by vm_compute.
  intros name x Hx. apply (bool_decide_unpack _).
  revert name x Hx. apply map_Forall_lookup.
  apply (bool_decide_unpack _). by vm_compute.
Qed.


(** * Properties of the command line *)
Section CommandLine.

Import Argparse CliSpec.

Lemma lookup_option_elem p o a :
  lookup_option p o = Some a → (o, a) ∈ option_string_actions p.
Proof.
  unfold lookup_option.
  destruct (find _ _) as [[o' a']|] eqn:Hf; [|done]. simpl. intros [= <-].
  apply find_some in Hf as [Hin Heq]. simpl in Heq.
  apply String.eqb_eq in Heq as ->. by apply list_elem_of_In.
Qed.

Lemma get_option_tuples_elem p s a o v :
  (a, o, v) ∈ get_option_tuples p s → (o, a) ∈ option_string_actions p.
Proof.
  unfold get_option_tuples.
  destruct (second_is_dash s).
  - destruct (allow_abbrev p); [|by intros ?%elem_of_nil].
    destruct (match split_eq s with Some (l, r) => (l, Some r) | None => (s, None) end)
      as [prefix explicit].
    intros ([o' a'] & Hin & Hsome)%list_elem_of_omap.
    destruct (String.prefix prefix o'); by simplify_eq.
  - intros ([o' a'] & Hin & Hsome)%list_elem_of_omap.
    destruct (String.eqb o' _); [by simplify_eq|].
    destruct (String.prefix s o'); by simplify_eq.
Qed.

(** Whatever a string is read as, the option is one of the parser's. *)
Lemma parse_optional_elem p s a o v :
  parse_optional p s = Opt (Some a) o v → (o, a) ∈ option_string_actions p.
Proof.
  unfold parse_optional. destruct s as [|c s']; [done|].
  destruct (negb _); [done|].
  destruct (lookup_option p (String c s')) as [a0|] eqn:Hl.
  { intros [= <- <- <-]. by apply lookup_option_elem. }
  destruct (_ =? 1)%nat; [done|].
  destruct (split_eq (String c s') ≫= _) as [[[a1 o1] v1]|] eqn:Hs.
  { intros [= <- <- <-].
    destruct (split_eq (String c s')) as [[o2 v2]|]; [|done]. simpl in Hs.
    destruct (lookup_option p o2) as [a2|] eqn:Hl2; [|done]. simpl in Hs.
    injection Hs as <- <- <-. by apply lookup_option_elem. }
  destruct (get_option_tuples p (String c s')) as [|[[a1 o1] v1] [|? ?]] eqn:Ht.
  - by repeat case_match.
  - intros [= <- <- <-]. eapply get_option_tuples_elem. rewrite Ht.
    apply list_elem_of_here.
  - done.
Qed.

Lemma classify_elem p argv s a o v :
  (s, Opt (Some a) o v) ∈ classify p argv → (o, a) ∈ option_string_actions p.
Proof.
  induction argv as [|t rest IH]; simpl; [by intros ?%elem_of_nil|].
  destruct (String.eqb t "--").
  - intros [[=]|Hin]%elem_of_cons.
    apply list_elem_of_fmap in Hin as (? & [=] & _).
  - intros [[= -> Hp]|Hin]%elem_of_cons; [|by apply IH].
    by eapply parse_optional_elem.
Qed.

Lemma consume_explicit_pending p a o v :
  ∀ a' x, consume_explicit p true a o v ≠ StoreExplicit a' x.
Proof.
  revert a o. induction v as [|c rest IH]; intros a o a' x; simpl.
  - by repeat case_match.
  - destruct (kind a); [done|]. destruct (second_is_dash o); [done|].
    destruct (lookup_option p _) as [a1|]; [|done].
    destruct rest; [by destruct (kind a1)|]. apply IH.
Qed.

Lemma consume_optional_store p a o v a' :
  (∃ x, consume_optional p a o v = StoreExplicit a' x) ∨
  consume_optional p a o v = StoreNext a' →
  a' = a ∧ kind a = store.
Proof.
  unfold consume_optional. destruct v as [v|].
  - intros [[x Hx]|Hx].
    + destruct v as [|c rest]; simpl in Hx.
      * destruct (kind a) eqn:Hk; [by simplify_eq|].
        by destruct (second_is_dash o).
      * destruct (kind a) eqn:Hk; [by simplify_eq|].
        destruct (second_is_dash o); [done|].
        destruct (lookup_option p _) as [a1|]; [|done].
        destruct rest; [by destruct (kind a1)|].
        by apply consume_explicit_pending in Hx.
    + destruct v as [|c rest]; simpl in Hx.
      * destruct (kind a); [done|]. by destruct (second_is_dash o).
      * destruct (kind a); [done|]. destruct (second_is_dash o); [done|].
        destruct (lookup_option p _) as [a1|]; [|done].
        destruct rest; [by destruct (kind a1)|].
        exfalso. revert Hx. generalize (String a0 rest).
        generalize (String "-" (String c "")). generalize a1. clear.
        intros a o v. revert a o. induction v as [|c rest IH]; intros a o; simpl.
        -- by repeat case_match.
        -- destruct (kind a); [done|]. destruct (second_is_dash o); [done|].
           destruct (lookup_option p _) as [a1|]; [|done].
           destruct rest; [by destruct (kind a1)|]. apply IH.
  - intros [[x Hx]|Hx]; destruct (kind a) eqn:Hk; by simplify_eq.
Qed.

(** A property of the namespace that no store of the line breaks holds of
    the parsed namespace. *)
Lemma consume_preserves p (I : namespace → Prop) line :
  (∀ s a o v x ns, (s, Opt (Some a) o v) ∈ line → kind a = store →
                   I ns → I (<[dest a := x]> ns)) →
  ∀ ns extras r, I ns → consume p ns extras line = Ok r → I r.
Proof.
  remember (length line) as n eqn:Hn. revert line Hn.
  induction n as [n IH] using lt_wf_ind. intros line -> Hstore ns extras r HI.
  destruct line as [|[s c] rest]; simpl.
  { destruct extras; [done|]. by intros [= <-]. }
  assert (∀ ns' extras', I ns' → consume p ns' extras' rest = Ok r → I r) as Hrest.
  { intros ns' extras'. eapply (IH (length rest)); [simpl; lia|done|].
    intros ? ? ? ? ? ? Hin. eapply Hstore. by apply list_elem_of_further. }
  destruct c as [| |[a|] o v|]; try by apply Hrest.
  destruct (consume_optional p a o v) as [a' x|a'| | |] eqn:Hc; try done.
  - destruct (consume_optional_store p a o v a') as [-> Hk]; [left; by eexists|].
    apply Hrest. eapply Hstore; [apply list_elem_of_here|done..].
  - destruct (consume_optional_store p a o v a') as [-> Hk]; [by right|].
    destruct rest as [|[x [| | |]] rest']; try done.
    eapply (IH (length rest')); [simpl; lia|done| |].
    + intros ? ? ? ? ? ? Hin. eapply Hstore. by do 2 apply list_elem_of_further.
    + eapply Hstore; [apply list_elem_of_here|done..].
  - destruct rest as [|[x [| | |]] rest']; done.
Qed.

(** The parser ends a run only by [SystemExit], with status 0 or 2. *)
Lemma consume_raises p line :
  ∀ ns extras e, consume p ns extras line = Raise e →
                 e = SystemExit 0 ∨ e = SystemExit 2.
Proof.
  remember (length line) as n eqn:Hn. revert line Hn.
  induction n as [n IH] using lt_wf_ind. intros line -> ns extras e.
  destruct line as [|[s c] rest]; simpl.
  { destruct extras; [|done]. intros [= <-]. by right. }
  assert (∀ ns' extras', consume p ns' extras' rest = Raise e →
                         e = SystemExit 0 ∨ e = SystemExit 2) as Hrest.
  { intros ns' extras'. eapply (IH (length rest)); [simpl; lia|done]. }
  destruct c as [| |[a|] o v|]; try by apply Hrest.
  destruct (consume_optional p a o v) as [a' x|a'| | |] eqn:Hc.
  - apply Hrest.
  - destruct rest as [|[x [| | |]] rest']; try (intros [= <-]; by right).
    eapply (IH (length rest')); [simpl; lia|done].
  - intros [= <-]. by left.
  - destruct rest as [|[x [| | |]] rest']; intros [= <-]; first [by left|by right].
  - intros [= <-]. by right.
Qed.

Lemma parse_args_raises p argv e :
  parse_args p argv = Raise e → e = SystemExit 0 ∨ e = SystemExit 2.
Proof.
  unfold parse_args. destruct (existsb _ _).
  - intros [= <-]. by right.
  - apply consume_raises.
Qed.

(** Once a string is left unrecognised, the line is refused. *)
Lemma consume_extras p line :
  ∀ ns r, consume p ns true line ≠ Ok r.
Proof.
  remember (length line) as n eqn:Hn. revert line Hn.
  induction n as [n IH] using lt_wf_ind. intros line -> ns r.
  destruct line as [|[s c] rest]; simpl; [done|].
  assert (∀ ns', consume p ns' true rest ≠ Ok r) as Hrest.
  { intros ns'. eapply (IH (length rest)); [simpl; lia|done]. }
  destruct c as [| |[a|] o v|]; try by apply Hrest.
  destruct (consume_optional p a o v) as [a' x|a'| | |] eqn:Hc; try done.
  - destruct rest as [|[x [| | |]] rest']; try done.
    eapply (IH (length rest')); [simpl; lia|done].
  - destruct rest as [|[x [| | |]] rest']; done.
Qed.

(** A line that is accepted only sets options. *)
Lemma consume_accepts p line :
  ∀ ns r, consume p ns false line = Ok r → settings_only line.
Proof.
  remember (length line) as n eqn:Hn. revert line Hn.
  induction n as [n IH] using lt_wf_ind. intros line -> ns r.
  destruct line as [|[s c] rest]; simpl; [constructor|].
  destruct c as [| |[a|] o v|]; try (intros H; by apply consume_extras in H).
  destruct (consume_optional p a o v) as [a' x|a'| | |] eqn:Hc; try done.
  - destruct (consume_optional_store p a o v a') as [-> Hk]; [left; by eexists|].
    destruct v as [v|]; [|by unfold consume_optional in Hc; rewrite Hk in Hc].
    intros H. constructor; [done|].
    eapply (IH (length rest)); [simpl; lia|done|exact H].
  - destruct (consume_optional_store p a o v a') as [-> Hk]; [by right|].
    destruct v as [v|].
    { exfalso. revert Hc. unfold consume_optional.
      destruct v; simpl; by rewrite Hk. }
    destruct rest as [|[x [| | |]] rest']; try done.
    intros H. constructor; [done|].
    eapply (IH (length rest')); [simpl; lia|done|exact H].
  - destruct rest as [|[x [| | |]] rest']; done.
Qed.

(** A line that only sets options is accepted. *)
Lemma settings_only_accepted p line :
  settings_only line →
  existsb is_ambiguous line = false ∧ ∀ ns, is_ok (consume p ns false line) = true.
Proof.
  induction 1 as [|s a o v rest Hk _ [IHa IHc]|s a o x rest Hk _ [IHa IHc]].
  - done.
  - split; [done|]. intros ns. cbn [consume consume_optional].
    assert (consume_explicit p false a o v = StoreExplicit a v) as ->
      by (destruct v; simpl; by rewrite Hk).
    apply IHc.
  - split; [done|]. intros ns. cbn [consume consume_optional]. rewrite Hk.
    apply IHc.
Qed.

Lemma main_parser_options o a :
  (o, a) ∈ option_string_actions Train.main_parser →
  o ∈ ["-h"; "--help"; "--data_dir"; "--model_dir"] ∧
  (kind a = store → dest a = "data_dir" ∨ dest a = "model_dir").
Proof.
  intros Hin. apply list_elem_of_In in Hin. simpl in Hin.
  destruct Hin as [[= <- <-]|[[= <- <-]|[[= <- <-]|[[= <- <-]|[]]]]]; simpl;
    (split; [set_solver|]); intros Hk;
    first [discriminate Hk | by left | by right].
Qed.

(** The options that store a value are the two of the script. *)
Lemma main_parser_stores o a :
  (o, a) ∈ option_string_actions Train.main_parser → kind a = store →
  o ∈ ["--data_dir"; "--model_dir"].
Proof.
  intros Hin. apply list_elem_of_In in Hin. simpl in Hin.
  destruct Hin as [[= <- <-]|[[= <- <-]|[[= <- <-]|[[= <- <-]|[]]]]]; simpl;
    intros Hk; first [discriminate Hk | set_solver].
Qed.

Lemma main_parser_accepts argv :
  is_ok (parse_args Train.main_parser argv) = true ↔
  settings_only (classify Train.main_parser argv).
Proof.
  unfold parse_args. split.
  - destruct (existsb _ _); [done|].
    destruct (consume _ _ _ _) as [ns|e] eqn:Hc; [|done].
    intros _. by eapply consume_accepts.
  - intros [-> Hc]%(settings_only_accepted Train.main_parser). apply Hc.
Qed.

Lemma parse_args_inv p argv ns :
  parse_args p argv = Ok ns →
  consume p (defaults p) false (classify p argv) = Ok ns.
Proof. unfold parse_args. by destruct (existsb _ _). Qed.

Lemma main_parser_keys argv ns :
  parse_args Train.main_parser argv = Ok ns →
  dom ns = {[ "data_dir"; "model_dir" ]}.
Proof.
  intros H%parse_args_inv. revert H.
  apply (consume_preserves _ (fun ns => dom ns = {[ "data_dir"; "model_dir" ]})).
  - intros s a o v x ns0 Hin%classify_elem Hk Hdom.
    rewrite dom_insert_L, Hdom.
    destruct (main_parser_options _ _ Hin) as [_ [->| ->]]; [done|..]; set_solver.
  - vm_compute. reflexivity.
Qed.

Lemma main_parser_default argv ns d :
  parse_args Train.main_parser argv = Ok ns →
  ¬ selects Train.main_parser argv d →
  ns !! d = defaults Train.main_parser !! d.
Proof.
  intros H%parse_args_inv Hno. revert H.
  apply (consume_preserves _ (fun ns => ns !! d = defaults Train.main_parser !! d));
    [|done].
  intros s a o v x ns0 Hin Hk Hd. rewrite lookup_insert_ne; [done|].
  intros Heq. apply Hno. by exists s, a, o, v.
Qed.

Lemma main_parser_value flag d v :
  (flag, d) ∈ [("--data_dir", "data_dir"); ("--model_dir", "model_dir")] →
  is_value Train.main_parser v →
  parse_args Train.main_parser [flag; v]
  = Ok (<[d := v]> (defaults Train.main_parser)).
Proof.
  intros Hflag [Hdd Harg]. unfold parse_args.
  assert (String.eqb v "--" = false) as Hv by by apply String.eqb_neq.
  apply list_elem_of_In in Hflag.
  destruct Hflag as [[= <- <-]|[[= <- <-]|[]]];
    cbn [classify]; rewrite Hv, Harg; reflexivity.
Qed.

(** An abbreviation of a long option stands for the option. *)
Lemma main_parser_prefix s :
  (3 ≤ String.length s)%nat →
  (String.prefix s "--data_dir" = true →
   ∃ a, parse_optional Train.main_parser s = Opt (Some a) "--data_dir" None ∧
        dest a = "data_dir") ∧
  (String.prefix s "--model_dir" = true →
   ∃ a, parse_optional Train.main_parser s = Opt (Some a) "--model_dir" None ∧
        dest a = "model_dir").
Proof.
  intros Hlen. split; intros Hp%String.prefix_correct; rewrite <- Hp.
  - assert (String.length s ≤ 10)%nat as Hle.
    { destruct (decide (String.length s ≤ 10)%nat) as [|Hgt]; [done|].
      rewrite <- Hp in Hgt at 1. exfalso. apply Hgt.
      clear. generalize (String.length s). intros n.
      do 11 (destruct n as [|n]; [simpl; lia|]). simpl. lia. }
    revert Hlen Hle. generalize (String.length s). intros n Hlen Hle.
    do 3 (destruct n as [|n]; [lia|]).
    do 8 (destruct n as [|n]; [by eexists|]). lia.
  - assert (String.length s ≤ 11)%nat as Hle.
    { destruct (decide (String.length s ≤ 11)%nat) as [|Hgt]; [done|].
      rewrite <- Hp in Hgt at 1. exfalso. apply Hgt.
      clear. generalize (String.length s). intros n.
      do 12 (destruct n as [|n]; [simpl; lia|]). simpl. lia. }
    revert Hlen Hle. generalize (String.length s). intros n Hlen Hle.
    do 3 (destruct n as [|n]; [lia|]).
    do 9 (destruct n as [|n]; [by eexists|]). lia.
Qed.


End CommandLine.


(** * The split lengths: binary64 arithmetic *)
Section SplitLengths.

Import Float64 Train TrainSpec.
Local Open Scope Z_scope.

(** ** Shifting a mantissa to the right *)

Lemma iter_pos_nat {A : Type} (f : A → A) (p : positive) (x : A) :
  SpecFloat.iter_pos f p x = Nat.iter (Pos.to_nat p) f x.
Proof.
  revert x. induction p as [p IH|p IH|]; intros x; cbn [SpecFloat.iter_pos].
  - rewrite !IH, Pos2Nat.inj_xI, Nat.iter_succ_r.
    replace (2 * Pos.to_nat p)%nat with (Pos.to_nat p + Pos.to_nat p)%nat by lia.
    by rewrite Nat.iter_add.
  - rewrite !IH, Pos2Nat.inj_xO.
    replace (2 * Pos.to_nat p)%nat with (Pos.to_nat p + Pos.to_nat p)%nat by lia.
    by rewrite Nat.iter_add.
  - done.
Qed.

Lemma shr_1_m mrs : 0 ≤ shr_m mrs → shr_m (shr_1 mrs) = shr_m mrs / 2.
Proof.
  destruct mrs as [m r s]. simpl. intros Hm.
  rewrite <- Z.div2_div. by destruct m as [|[p|p|]|p].
Qed.

Lemma shr_iter_m k mrs :
  0 ≤ shr_m mrs → shr_m (Nat.iter k shr_1 mrs) = shr_m mrs / 2 ^ Z.of_nat k.
Proof.
  intros Hm. induction k as [|k IH].
  - simpl. by rewrite Z.div_1_r.
  - rewrite Nat.iter_succ, shr_1_m, IH.
    + rewrite Nat2Z.inj_succ, Z.pow_succ_r by lia.
      rewrite Z.div_div by lia. f_equal. lia.
    + rewrite IH. apply Z.div_pos; lia.
Qed.

(** The mantissa and the exponent after [shr]: the mantissa is divided by
    the power of two, rounded down. *)
Lemma shr_m_e mrs e n :
  0 ≤ shr_m mrs →
  shr_m (shr mrs e n).1 = shr_m mrs / 2 ^ Z.max n 0 ∧
  (shr mrs e n).2 = e + Z.max n 0.
Proof.
  intros Hm. destruct n as [|p|p]; simpl.
  - rewrite Z.div_1_r. split; [done|lia].
  - rewrite iter_pos_nat, shr_iter_m by done.
    by rewrite positive_nat_Z.
  - rewrite Z.div_1_r. split; [done|lia].
Qed.

Lemma shr_record_of_loc_m m l : shr_m (shr_record_of_loc m l) = m.
Proof. by destruct l as [|[]]. Qed.

Lemma shr_fexp_m_e m e l :
  0 ≤ m →
  let n := Z.max (fexp prec emax (Zdigits2 m + e) - e) 0 in
  shr_m (shr_fexp prec emax m e l).1 = m / 2 ^ n ∧
  (shr_fexp prec emax m e l).2 = e + n.
Proof.
  intros Hm n. unfold shr_fexp.
  pose proof (shr_m_e (shr_record_of_loc m l) e
                (fexp prec emax (Zdigits2 m + e) - e)) as H.
  rewrite shr_record_of_loc_m in H. by apply H.
Qed.

Lemma round_nearest_even_cases m l :
  round_nearest_even m l = m ∨ round_nearest_even m l = m + 1.
Proof. destruct l as [|[]]; simpl; auto. destruct (Z.even m); auto. Qed.

(** ** The number of digits *)

Lemma digits2_pos_bounds p :
  2 ^ (Z.pos (digits2_pos p) - 1) ≤ Z.pos p < 2 ^ Z.pos (digits2_pos p).
Proof.
  induction p as [p IH|p IH|]; simpl digits2_pos.
  - rewrite Pos2Z.inj_succ.
    replace (Z.succ (Z.pos (digits2_pos p)) - 1) with (Z.succ (Z.pos (digits2_pos p) - 1))
      by lia.
    rewrite !Z.pow_succ_r by lia. lia.
  - rewrite Pos2Z.inj_succ.
    replace (Z.succ (Z.pos (digits2_pos p)) - 1) with (Z.succ (Z.pos (digits2_pos p) - 1))
      by lia.
    rewrite !Z.pow_succ_r by lia. lia.
  - simpl. lia.
Qed.

(** A positive number below a power of two has at most that many digits. *)
Lemma digits2_pos_le p k : 0 ≤ k → Z.pos p < 2 ^ k → Z.pos (digits2_pos p) ≤ k.
Proof.
  intros Hk Hp. destruct (digits2_pos_bounds p) as [Hlo _].
  destruct (decide (Z.pos (digits2_pos p) ≤ k)) as [|Hgt]; [done|]. exfalso.
  assert (2 ^ k ≤ 2 ^ (Z.pos (digits2_pos p) - 1)); [|lia].
  apply Z.pow_le_mono_r; lia.
Qed.

Lemma digits2_pos_ge p k : 2 ^ k ≤ Z.pos p → k < Z.pos (digits2_pos p).
Proof.
  intros Hp. destruct (digits2_pos_bounds p) as [_ Hhi].
  destruct (decide (k < Z.pos (digits2_pos p))) as [|Hle]; [done|]. exfalso.
  assert (2 ^ Z.pos (digits2_pos p) ≤ 2 ^ k); [|lia].
  apply Z.pow_le_mono_r; lia.
Qed.

(** ** Rounding a product that is below 2^53 *)

Lemma div_succ_cases a D :
  0 < D → (a + 1) / D = a / D ∨ (a + 1) / D = a / D + 1.
Proof.
  intros HD.
  pose proof (Z.div_mod a D ltac:(lia)) as Ha.
  pose proof (Z.mod_pos_bound a D HD) as Hr.
  destruct (decide (a mod D + 1 < D)) as [Hlt|Hge].
  - left. symmetry. apply (Z.div_unique_pos _ _ _ (a mod D + 1)); lia.
  - right. symmetry. apply (Z.div_unique_pos _ _ _ 0); lia.
Qed.

Lemma pow2_pos k : 0 < 2 ^ k ∨ k < 0.
Proof. destruct (decide (0 ≤ k)); [left; by apply Z.pow_pos_nonneg|right; lia]. Qed.

Lemma Zdigits2_le m k : 0 ≤ m → 0 ≤ k → m < 2 ^ k → Zdigits2 m ≤ k.
Proof.
  intros Hm Hk Hlt. destruct m as [|p|p]; simpl; [lia| |lia].
  by apply digits2_pos_le.
Qed.

Lemma Zdigits2_nonneg m : 0 ≤ Zdigits2 m.
Proof. destruct m; simpl; lia. Qed.

(** The integer a rounded product truncates to: for a mantissa [m] and an
    exponent [e ≤ 0] with [m * 2^e < 2^53], rounding to 53 bits and then
    truncating gives the floor of [m * 2^e] or the next integer. *)
Lemma round_then_truncate (s : bool) (m : positive) (e : Z) :
  e ≤ 0 → Z.pos m < 2 ^ (53 - e) →
  ∃ t, (t = Z.pos m / 2 ^ (- e) ∨ t = Z.pos m / 2 ^ (- e) + 1) ∧
       to_int (binary_round_aux prec emax s (Z.pos m) e loc_Exact)
       = Ok (cond_Zopp s t).
Proof.
  intros He Hm. unfold binary_round_aux.
  (* the first shift *)
  pose proof (shr_fexp_m_e (Z.pos m) e loc_Exact ltac:(lia)) as [Hq He'].
  destruct (shr_fexp prec emax (Z.pos m) e loc_Exact) as [mrs' e'].
  cbn [fst snd] in Hq, He'. cbv zeta in Hq, He'.
  set (d := Zdigits2 (Z.pos m)) in *.
  set (n1 := Z.max (fexp prec emax (d + e) - e) 0) in *.
  assert (d ≤ 53 - e) as Hd by (apply Zdigits2_le; lia).
  assert (1 ≤ d) as Hd1 by (unfold d; simpl; lia).
  assert (0 ≤ n1) as Hn1 by lia.
  assert (d - 53 ≤ n1 ∧ -1074 - e ≤ n1 ∧ n1 ≤ - e) as (Hn1a & Hn1b & Hn1c).
  { unfold n1, fexp, SpecFloat.emin, prec, emax. lia. }
  assert (e' ≤ 0 ∧ -1074 ≤ e') as [He'0 He'1] by lia.
  set (q := shr_m mrs') in *.
  assert (0 ≤ q < 2 ^ 53) as Hqb.
  { rewrite Hq. split; [apply Z.div_pos; lia|].
    apply Z.div_lt_upper_bound; [lia|].
    rewrite <- Z.pow_add_r by lia.
    destruct (digits2_pos_bounds m) as [_ Hhi]. fold (Zdigits2 (Z.pos m)) in Hhi.
    fold d in Hhi. eapply Z.lt_le_trans; [exact Hhi|].
    apply Z.pow_le_mono_r; lia. }
  (* rounding *)
  set (m1 := round_nearest_even q (loc_of_shr_record mrs')).
  assert (m1 = q ∨ m1 = q + 1) as Hm1 by apply round_nearest_even_cases.
  assert (0 ≤ m1 ≤ 2 ^ 53) as Hm1b by lia.
  (* the second shift *)
  pose proof (shr_fexp_m_e m1 e' loc_Exact ltac:(lia)) as [Hq2 He''].
  destruct (shr_fexp prec emax m1 e' loc_Exact) as [mrs'' e''].
  cbn [fst snd] in Hq2, He''. cbv zeta in Hq2, He''.
  set (n2 := Z.max (fexp prec emax (Zdigits2 m1 + e') - e') 0) in *.
  assert (Zdigits2 m1 ≤ 54) as Hd2 by (apply Zdigits2_le; [lia..|]; lia).
  pose proof (Zdigits2_nonneg m1) as Hd2'.
  assert (n2 = 0 ∨ n2 = 1 ∧ m1 = 2 ^ 53) as Hn2.
  { destruct (decide (m1 < 2 ^ 53)) as [Hlt|Hge].
    - left. assert (Zdigits2 m1 ≤ 53) by (apply Zdigits2_le; lia).
      unfold n2, fexp, SpecFloat.emin, prec, emax. lia.
    - right. assert (m1 = 2 ^ 53) as Heq by lia. split; [|done].
      assert (53 < Zdigits2 m1).
      { rewrite Heq. simpl. lia. }
      unfold n2, fexp, SpecFloat.emin, prec, emax. lia. }
  (* the integer *)
  set (D := 2 ^ (- e')).
  assert (0 < D) as HD by (apply Z.pow_pos_nonneg; lia).
  assert (Z.pos m / 2 ^ (- e) = q / D) as HF.
  { rewrite Hq. unfold D. rewrite Z.div_div by (try apply Z.pow_nonzero; lia).
    rewrite <- Z.pow_add_r by lia. f_equal. f_equal. lia. }
  exists (m1 / D). split.
  { rewrite HF. destruct Hm1 as [->| ->]; [by left|]. by apply div_succ_cases. }
  destruct Hn2 as [Hn2|[Hn2 Hm1eq]].
  - rewrite Hn2, Z.pow_0_r, Z.div_1_r in Hq2. rewrite Hn2, Z.add_0_r in He''.
    rewrite Hq2, He''.
    destruct m1 as [|p1|p1] eqn:Hp1; [|cbn zeta|lia].
    + simpl. by destruct s.
    + rewrite (proj2 (Z.leb_le e' (emax - prec))) by (unfold emax, prec; lia).
      simpl to_int. do 2 f_equal. unfold D. by apply Z.shiftl_div_pow2.
  - rewrite Hn2, Hm1eq in Hq2. rewrite Hn2 in He''. rewrite Hq2, He''.
    change (2 ^ 53 / 2 ^ 1) with (Z.pos 4503599627370496).
    cbv iota beta.
    rewrite (proj2 (Z.leb_le (e' + 1) (emax - prec))) by (unfold emax, prec; lia).
    simpl to_int. do 2 f_equal. rewrite Hm1eq. unfold D.
    destruct (decide (e' = 0)) as [->|Hne]; [done|].
    rewrite Z.shiftl_div_pow2 by lia.
    change (2 ^ 53) with (4503599627370496 * 2).
    replace (- e') with (Z.succ (- (e' + 1))) by lia.
    rewrite Z.pow_succ_r by lia.
    rewrite (Z.mul_comm 2), Z.div_mul_cancel_r; [done| |lia].
    apply Z.pow_nonzero; lia.
Qed.

(** ** Converting an int below 2^53 *)

Lemma shr_nonpos mrs e n : n ≤ 0 → shr mrs e n = (mrs, e).
Proof. destruct n; [done|lia|done]. Qed.

(** A number that fits the format is not changed by rounding. *)
Lemma binary_round_aux_exact (s : bool) (m : positive) (e : Z) :
  Z.pos (digits2_pos m) ≤ 53 → -1074 ≤ e ≤ 971 →
  binary_round_aux prec emax s (Z.pos m) e loc_Exact = S754_finite s m e.
Proof.
  intros Hd He. unfold binary_round_aux, shr_fexp.
  assert (fexp prec emax (Zdigits2 (Z.pos m) + e) - e ≤ 0) as Hn.
  { unfold fexp, SpecFloat.emin, prec, emax. simpl Zdigits2. lia. }
  rewrite (shr_nonpos _ _ _ Hn). simpl shr_m. simpl loc_of_shr_record.
  simpl round_nearest_even. rewrite (shr_nonpos _ _ _ Hn). simpl shr_m.
  by rewrite (proj2 (Z.leb_le e (emax - prec))) by (unfold emax, prec; lia).
Qed.

Lemma iter_xO_value (m k : positive) :
  Z.pos (Pos.iter xO m k) = Z.pos m * 2 ^ Z.pos k ∧
  Z.pos (digits2_pos (Pos.iter xO m k)) = Z.pos (digits2_pos m) + Z.pos k.
Proof.
  induction k as [|k IH] using Pos.peano_ind.
  - simpl. split; lia.
  - rewrite Pos.iter_succ. destruct IH as [IH1 IH2].
    simpl digits2_pos. rewrite Pos2Z.inj_xO, IH1, !Pos2Z.inj_succ, IH2.
    rewrite Z.pow_succ_r by lia. split; lia.
Qed.

Lemma of_int_small L :
  0 < L < 2 ^ 53 →
  ∃ mx ex, of_int L = Ok (S754_finite false mx ex) ∧
           -52 ≤ ex ≤ 0 ∧ Z.pos mx = L * 2 ^ (- ex).
Proof.
  intros [Hpos Hlt]. destruct L as [|l|l]; [lia| |lia].
  unfold of_int, binary_normalize, binary_round.
  assert (1 ≤ Z.pos (digits2_pos l) ≤ 53) as Hd.
  { split; [lia|]. by apply digits2_pos_le. }
  assert (fexp prec emax (Z.pos (digits2_pos l) + 0) = Z.pos (digits2_pos l) - 53)
    as ->.
  { unfold fexp, SpecFloat.emin, prec, emax. lia. }
  unfold shl_align.
  destruct (Z.pos (digits2_pos l) - 53 - 0) as [|k|k] eqn:Hk; [|lia|].
  - rewrite binary_round_aux_exact by lia.
    exists l, 0. split; [done|]. split; [lia|]. simpl. lia.
  - destruct (iter_xO_value l k) as [Hv Hdig].
    rewrite binary_round_aux_exact by lia.
    exists (Pos.iter xO l k), (Z.pos (digits2_pos l) - 53).
    split; [done|]. split; [lia|]. rewrite Hv. do 2 f_equal. lia.
Qed.

(** ** The product and its floor *)

(** A finite float between 0 and 1, as mantissa and exponent. *)
Lemma unit_fraction_inv (f : float) :
  is_finite f = true → (0 <= to_Q f <= 1)%Q →
  (∃ s, f = S754_zero s) ∨
  ∃ my ey, f = S754_finite false my ey ∧ ey ≤ 0 ∧ Z.pos my ≤ 2 ^ (- ey) ∧
           ∀ L, Qfloor (inject_Z L * to_Q f) = (L * Z.pos my) / 2 ^ (- ey).
Proof.
  destruct f as [s|s| |s my ey]; try done; [by left; eexists|].
  intros _ [H0 H1]. right. exists my, ey.
  destruct s.
  { exfalso. revert H0. simpl. destruct (0 <=? ey) eqn:Hey; unfold Qle; simpl.
    - apply Z.leb_le in Hey.
      assert (0 < 2 ^ ey) by (apply Z.pow_pos_nonneg; lia). nia.
    - lia. }
  split; [done|]. simpl in H1.
  destruct (0 <=? ey) eqn:Hey.
  - apply Z.leb_le in Hey. unfold Qle in H1. simpl in H1.
    assert (0 < 2 ^ ey) by (apply Z.pow_pos_nonneg; lia).
    assert (ey = 0) as ->.
    { destruct (decide (ey = 0)) as [|Hne]; [done|]. exfalso.
      assert (2 ^ 1 ≤ 2 ^ ey) by (apply Z.pow_le_mono_r; lia). nia. }
    split; [done|]. split; [simpl in *; lia|].
    intros L. simpl. rewrite Z.div_1_r. unfold Qfloor, Qmult, inject_Z. simpl.
    rewrite Z.div_1_r. lia.
  - assert (∀ L, Qfloor (inject_Z L * to_Q (S754_finite false my ey)) =
                 (L * Z.pos my) / Z.pos (Z.to_pos (2 ^ (- ey)))) as HF.
    { intros L. unfold to_Q. rewrite Hey. done. }
    apply Z.leb_gt in Hey.
    assert (0 < 2 ^ (- ey)) as Hpow by (apply Z.pow_pos_nonneg; lia).
    unfold Qle in H1. simpl in H1. rewrite Z2Pos.id in H1 by done.
    split; [lia|]. split; [lia|].
    intros L. by rewrite HF, Z2Pos.id by done.
Qed.

(** What train_len is, for a dataset length below 2^53 and a fraction
    between 0 and 1. *)
Lemma train_len_bounds L f :
  0 ≤ L < 2 ^ 53 → is_finite f = true → (0 <= to_Q f <= 1)%Q →
  ∃ t, split_lengths L f = Ok (t, L - t) ∧
       (t = Qfloor (inject_Z L * to_Q f) ∨ t = Qfloor (inject_Z L * to_Q f) + 1).
Proof.
  intros [HL0 HL] Hfin Hunit. unfold split_lengths.
  destruct (decide (L = 0)) as [->|HLne].
  { exists 0. change (of_int 0) with (Ok (S754_zero false) : result float).
    destruct (unit_fraction_inv f Hfin Hunit) as [[s ->]|(my & ey & -> & _ & _ & HF)].
    - split; [done|]. left. simpl. unfold Qfloor, Qmult. simpl. done.
    - split; [done|]. left. rewrite HF. simpl. done. }
  destruct (of_int_small L ltac:(lia)) as (mx & ex & -> & Hex & Hmx).
  destruct (unit_fraction_inv f Hfin Hunit) as [[s ->]|(my & ey & -> & Hey & Hmy & HF)].
  { exists 0. split; [done|]. left. simpl to_Q.
    unfold Qfloor, Qmult, inject_Z. simpl. by rewrite Z.mul_0_r. }
  unfold mul, SFmul. cbn [xorb].
  assert (0 < 2 ^ (- ex)) as Hpx by (apply Z.pow_pos_nonneg; lia).
  assert (0 < 2 ^ (- ey)) as Hpy by (apply Z.pow_pos_nonneg; lia).
  destruct (round_then_truncate false (mx * my) (ex + ey)) as (t & Ht & ->);
    [lia| |].
  { rewrite Pos2Z.inj_mul, Hmx.
    replace (53 - (ex + ey)) with (53 + (- ex) + (- ey)) by lia.
    rewrite !Z.pow_add_r by lia. nia. }
  exists t. split; [done|]. rewrite HF.
  assert (Z.pos (mx * my) / 2 ^ (- (ex + ey)) = L * Z.pos my / 2 ^ (- ey)) as <-;
    [|done].
  rewrite Pos2Z.inj_mul, Hmx.
  replace (- (ex + ey)) with (- ey + - ex) by lia.
  rewrite Z.pow_add_r by lia.
  replace (L * 2 ^ (- ex) * Z.pos my) with (L * Z.pos my * 2 ^ (- ex)) by lia.
  apply Z.div_mul_cancel_r; lia.
Qed.

(** ** No overflow *)

(** Rounding a mantissa whose value is below 2^1023 gives zero or a finite
    number, of at most 53 digits. *)
Lemma binary_round_aux_finite (s : bool) (m : positive) (e : Z) :
  e ≤ 970 → Z.pos (digits2_pos m) + e ≤ 1023 →
  binary_round_aux prec emax s (Z.pos m) e loc_Exact = S754_zero s ∨
  ∃ m' e',
    binary_round_aux prec emax s (Z.pos m) e loc_Exact = S754_finite s m' e' ∧
    Z.pos (digits2_pos m') ≤ 53 ∧
    e' ≤ Z.max (Z.max (Z.pos (digits2_pos m) + e - 53) e) (-1074) + 1.
Proof.
  intros He Hde. unfold binary_round_aux.
  (* the first shift *)
  pose proof (shr_fexp_m_e (Z.pos m) e loc_Exact ltac:(lia)) as [Hq He'].
  destruct (shr_fexp prec emax (Z.pos m) e loc_Exact) as [mrs' e'].
  cbn [fst snd] in Hq, He'. cbv zeta in Hq, He'.
  change (Zdigits2 (Z.pos m)) with (Z.pos (digits2_pos m)) in *.
  set (d := Z.pos (digits2_pos m)) in *.
  set (n1 := Z.max (fexp prec emax (d + e) - e) 0) in *.
  assert (0 ≤ n1 ∧ d - 53 ≤ n1 ∧ e + n1 = Z.max (Z.max (d + e - 53) e) (-1074))
    as (Hn1 & Hn1a & Hn1b).
  { unfold n1, fexp, SpecFloat.emin, prec, emax. lia. }
  assert (0 < 2 ^ n1) as Hpow by (apply Z.pow_pos_nonneg; lia).
  set (q := shr_m mrs') in *.
  assert (0 ≤ q < 2 ^ 53) as Hqb.
  { rewrite Hq. split; [apply Z.div_pos; lia|].
    apply Z.div_lt_upper_bound; [lia|].
    rewrite <- Z.pow_add_r by lia.
    destruct (digits2_pos_bounds m) as [_ Hhi]. fold d in Hhi.
    eapply Z.lt_le_trans; [exact Hhi|].
    apply Z.pow_le_mono_r; lia. }
  (* rounding *)
  set (m1 := round_nearest_even q (loc_of_shr_record mrs')).
  assert (m1 = q ∨ m1 = q + 1) as Hm1 by apply round_nearest_even_cases.
  assert (0 ≤ m1 ≤ 2 ^ 53) as Hm1b by lia.
  (* the second shift *)
  pose proof (shr_fexp_m_e m1 e' loc_Exact ltac:(lia)) as [Hq2 He''].
  destruct (shr_fexp prec emax m1 e' loc_Exact) as [mrs'' e''].
  cbn [fst snd] in Hq2, He''. cbv zeta in Hq2, He''.
  set (n2 := Z.max (fexp prec emax (Zdigits2 m1 + e') - e') 0) in *.
  assert (Zdigits2 m1 ≤ 54) as Hd2 by (apply Zdigits2_le; [lia..|]; lia).
  pose proof (Zdigits2_nonneg m1) as Hd2'.
  assert (n2 = 0 ∧ m1 < 2 ^ 53 ∨ n2 = 1 ∧ m1 = 2 ^ 53) as Hn2.
  { destruct (decide (m1 < 2 ^ 53)) as [Hlt|Hge].
    - left. assert (Zdigits2 m1 ≤ 53) by (apply Zdigits2_le; lia).
      unfold n2, fexp, SpecFloat.emin, prec, emax. lia.
    - right. assert (m1 = 2 ^ 53) as Heq by lia. split; [|done].
      assert (53 < Zdigits2 m1).
      { rewrite Heq. simpl. lia. }
      unfold n2, fexp, SpecFloat.emin, prec, emax. lia. }
  destruct Hn2 as [[Hn2 Hlt]|[Hn2 Hm1eq]].
  - rewrite Hn2, Z.pow_0_r, Z.div_1_r in Hq2. rewrite Hn2, Z.add_0_r in He''.
    rewrite Hq2, He''.
    destruct m1 as [|p1|p1] eqn:Hp1; [by left| |lia].
    right. exists p1, e'.
    rewrite (proj2 (Z.leb_le e' (emax - prec))) by (unfold emax, prec; lia).
    split; [done|]. split; [by apply digits2_pos_le|lia].
  - rewrite Hn2, Hm1eq in Hq2. rewrite Hn2 in He''. rewrite Hq2, He''.
    change (2 ^ 53 / 2 ^ 1) with (Z.pos 4503599627370496).
    right. exists 4503599627370496%positive, (e' + 1).
    rewrite (proj2 (Z.leb_le (e' + 1) (emax - prec))) by (unfold emax, prec; lia).
    split; [done|]. split; [by vm_compute|lia].
Qed.

(** Converting an int of at most 1000 binary digits. *)
Lemma of_int_finite L :
  0 ≤ L → Zdigits2 L ≤ 1000 →
  (∃ s, of_int L = Ok (S754_zero s)) ∨
  ∃ mx ex, of_int L = Ok (S754_finite false mx ex) ∧
           Z.pos (digits2_pos mx) ≤ 53 ∧ ex ≤ Z.max (Zdigits2 L - 53) 0 + 1.
Proof.
  intros HL Hd. destruct L as [|l|l]; [by left; exists false| |lia].
  simpl Zdigits2 in *.
  unfold of_int, binary_normalize, binary_round.
  assert (fexp prec emax (Z.pos (digits2_pos l) + 0) = Z.pos (digits2_pos l) - 53)
    as ->.
  { unfold fexp, SpecFloat.emin, prec, emax. lia. }
  unfold shl_align.
  destruct (Z.pos (digits2_pos l) - 53 - 0) as [|k|k] eqn:Hk.
  - destruct (binary_round_aux_finite false l 0) as [->|(mx & ex & -> & Hdx & Hex)];
      [lia..|by left; eexists|].
    right. exists mx, ex. split; [done|]. split; [done|lia].
  - destruct (binary_round_aux_finite false l 0) as [->|(mx & ex & -> & Hdx & Hex)];
      [lia..|by left; eexists|].
    right. exists mx, ex. split; [done|]. split; [done|lia].
  - destruct (iter_xO_value l k) as [_ Hdig].
    destruct (binary_round_aux_finite false (Pos.iter xO l k)
                (Z.pos (digits2_pos l) - 53))
      as [->|(mx & ex & -> & Hdx & Hex)]; [lia..|by left; eexists|].
    right. exists mx, ex. split; [done|]. split; [done|lia].
Qed.

(** Lines 50 to 52 raise nothing, for a length that a Python container can
    have (below 2^63) and a fraction between 0 and 1. *)
Lemma split_lengths_returns L f :
  0 ≤ L < 2 ^ 63 → is_finite f = true → (0 <= to_Q f <= 1)%Q →
  is_ok (split_lengths L f) = true.
Proof.
  intros [HL0 HL] Hfin Hunit. unfold split_lengths.
  assert (Zdigits2 L ≤ 63) as Hd by (apply Zdigits2_le; lia).
  destruct (of_int_finite L HL0 ltac:(lia))
    as [[s ->]|(mx & ex & -> & Hdx & Hex)].
  { destruct (unit_fraction_inv f Hfin Hunit) as [[s' ->]|(my & ey & -> & _)];
      done. }
  destruct (unit_fraction_inv f Hfin Hunit)
    as [[s' ->]|(my & ey & -> & Hey & Hmy & _)]; [done|].
  unfold mul, SFmul. cbn [xorb].
  assert (0 < 2 ^ (- ey)) as Hpy by (apply Z.pow_pos_nonneg; lia).
  assert (Z.pos (digits2_pos (mx * my)) ≤ 54 - ey) as Hdp.
  { apply digits2_pos_le; [lia|].
    replace (54 - ey) with (53 + 1 + - ey) by lia.
    rewrite !Z.pow_add_r by lia.
    destruct (digits2_pos_bounds mx) as [_ Hhi].
    assert (2 ^ Z.pos (digits2_pos mx) ≤ 2 ^ 53) by (apply Z.pow_le_mono_r; lia).
    rewrite Pos2Z.inj_mul. nia. }
  destruct (binary_round_aux_finite false (mx * my) (ex + ey))
    as [->|(m' & e' & -> & _)]; [lia..|done|done].
Qed.

(** ** The two split lengths *)

Lemma split_lengths_sum L f train_len val_len :
  split_lengths L f = Ok (train_len, val_len) → train_len + val_len = L.
Proof.
  unfold split_lengths. destruct (of_int L) as [x|e]; [|done].
  destruct (to_int (mul x f)) as [t|e]; [|done].
  intros [= <- <-]. lia.
Qed.

(** C2, as the code has it. For a dataset of fewer than 2^53 items and a
    (finite) training fraction between 0 and 1, load_train_val_data
    computes a train_len that is the floor of the real product L * f, or
    that floor plus one: the product is rounded to a double before int()
    truncates it. For the one call the script makes, 60000 items and the
    fraction 0.8, train_len is 48000, the floor of the real product. *)
Theorem train_len_is_floor_or_next (L : Z) (f : float) :
  (0 ≤ L < 2 ^ 53 → is_finite f = true → (0 <= to_Q f <= 1)%Q →
   ∃ train_len val_len,
     split_lengths L f = Ok (train_len, val_len) ∧
     (train_len = Qfloor (inject_Z L * to_Q f) ∨
      train_len = Qfloor (inject_Z L * to_Q f) + 1)) ∧
  split_lengths 60000 lit_0_8 = Ok (48000, 12000) ∧
  Qfloor (inject_Z 60000 * to_Q lit_0_8) = 48000.
Proof.
  split; [|by vm_compute].
  intros HL Hfin Hunit.
  destruct (train_len_bounds L f HL Hfin Hunit) as (t & Hs & Ht).
  by exists t, (L - t).
Qed.

(** C3. The two lengths that load_train_val_data computes sum to the full
    length: for every length and every fraction for which lines 50 to 52
    give lengths at all; so the lengths passed to random_split and the
    lengths of the two data sets behind the loaders returned sum to the
    length of the full data set; and lengths are computed, nothing being
    raised, for every length a Python container can have (below 2^63) and
    every fraction in [0,1]. *)
Theorem split_lengths_sum_to_full_length `{P : Platform} :
  (∀ L f train_len val_len,
     split_lengths L f = Ok (train_len, val_len) → train_len + val_len = L) ∧
  (∀ data_dir batch_size f s,
     (∀ lengths,
        random_split_call lengths
          ∈ calls_during (load_train_val_data data_dir batch_size f) s →
        ∃ train_len val_len,
          lengths = [train_len; val_len] ∧ train_len + val_len = full_len data_dir) ∧
     (∀ train_loader val_loader,
        (load_train_val_data data_dir batch_size f s).1 = Ok (train_loader, val_loader) →
        dataset_len train_loader + dataset_len val_loader = full_len data_dir)) ∧
  (∀ L f,
     0 ≤ L < 2 ^ 63 → is_finite f = true → (0 <= to_Q f <= 1)%Q →
     is_ok (split_lengths L f) = true).
Proof.
  split; [apply split_lengths_sum|]. split.
  - intros data_dir batch_size f s.
    pose proof (traces_load_train_val_data data_dir batch_size f) as Ht.
    unfold calls_during.
    destruct (load_train_val_data data_dir batch_size f s) as [r s'] eqn:E.
    destruct (Ht _ _ _ E) as (d & Hc & [k Hk] & Hok). simpl.
    rewrite Hc, drop_app_length.
    pose proof (split_lengths_sum (full_len data_dir) f) as Hsum.
    destruct (split_lengths (full_len data_dir) f) as [[t v]|e] eqn:Es.
    + split.
      * intros lengths Hin.
        assert (random_split_call lengths ∈ d ++ k) as Hin'
          by (set_unfold; by left).
        rewrite <- Hk in Hin'. exists t, v. split; [|by apply Hsum].
        set_unfold. destruct Hin' as [Heq|[Heq|[Heq|[Heq|[]]]]];
          by simplify_eq.
      * intros tl vl ->. destruct (Hok _ eq_refl) as [_ [= -> ->]].
        simpl. by apply Hsum.
    + split.
      * intros lengths Hin.
        assert (random_split_call lengths ∈ d ++ k) as Hin'
          by (set_unfold; by left).
        rewrite <- Hk in Hin'. exfalso. set_unfold.
        destruct Hin' as [Heq|[]]. done.
      * intros tl vl ->. exfalso. by eapply load_raises.
  - apply split_lengths_returns.
Qed.

End SplitLengths.

Lemma train_len_is_floor_or_next_witness :
  ∃ train_len val_len,
    Train.split_lengths 10 Float64.lit_0_7 = Ok (train_len, val_len) ∧
    (train_len = Qfloor (inject_Z 10 * Float64.to_Q Float64.lit_0_7) ∨
     train_len = Qfloor (inject_Z 10 * Float64.to_Q Float64.lit_0_7) + 1).
Proof.
  apply (proj1 (train_len_is_floor_or_next 10 Float64.lit_0_7)).
  - lia.
  - reflexivity.
  - split; by vm_compute.
Defined.

(** C2, as the specification has it, fails: 0.7 as a double is a little
    less than 7/10, so the real product of 10 and the fraction is less
    than 7 and its floor is 6, but the product rounds to the double 7.0 and
    train_len is 7. For a negative fraction int() truncates towards zero:
    3 and -0.5 give -1, the floor being -2. *)
Lemma train_len_is_not_the_floor :
  Float64.valid Float64.lit_0_7 = true ∧
  (0 <= Float64.to_Q Float64.lit_0_7 <= 1)%Q ∧
  Train.split_lengths 10 Float64.lit_0_7 = Ok (7, 3) ∧
  Qfloor (inject_Z 10 * Float64.to_Q Float64.lit_0_7) = 6 ∧
  Train.split_lengths 3 Float64.lit_minus_0_5 = Ok (-1, 4) ∧
  Qfloor (inject_Z 3 * Float64.to_Q Float64.lit_minus_0_5) = -2.
Proof.
  split; [reflexivity|]. split; [split; by vm_compute|].
  repeat split; by vm_compute.
Qed.

Lemma split_lengths_sum_to_full_length_witness :
  Train.split_lengths 60000 Float64.lit_0_8 = Ok (48000, 12000) ∧
  48000 + 12000 = 60000 ∧
  is_ok (Train.split_lengths 60000 Float64.lit_0_8) = true.
Proof.
  pose proof (split_lengths_sum_to_full_length (P := TrainExample.platform))
    as (Hsum & _ & Htotal).
  split; [by vm_compute|]. split.
  - apply (Hsum 60000 Float64.lit_0_8). by vm_compute.
  - apply Htotal.
    + lia.
    + reflexivity.
    + split; by vm_compute.
Defined.

(** * More on the scoring script *)
Section ScoreLocalResult.

Import ScoreLocal.
Context `{P : Platform}.

(** The device [main] predicts on. *)
Let device : string := if cuda then "cuda" else "cpu".

(** What [predict] answers for one path, and the label [main] prints for
    it. *)
Let index_of (model : Model) (path : string) (i : nat) : Prop :=
  ∃ x, open_image path = Ok x ∧ i = forward model device x.
Let label_of (model : Model) (path : string) (label : string) : Prop :=
  ∃ x, open_image path = Ok x ∧
       FashionMNIST_classes !! forward model device x = Some label.

Lemma predict_spec dataloader model indices :
  predict dataloader model device = Ok indices ↔
  Forall2 (index_of model) dataloader indices.
Proof.
  revert indices. induction dataloader as [|path rest IH]; intros indices; simpl.
  - split.
    + intros [= <-]. constructor.
    + by intros ->%Forall2_nil_inv_l.
  - split.
    + destruct (open_image path) as [x|] eqn:Hx; simpl; [|done].
      destruct (predict rest model device) as [l|]; simpl; [|done].
      intros [= <-]. constructor; [by exists x|by apply IH].
    + intros (i & l & (x & Hx & ->) & Hl & ->)%Forall2_cons_inv_l.
      rewrite Hx. simpl. apply IH in Hl. by rewrite Hl.
Qed.

Lemma labels_of_spec classes indices labels :
  labels_of classes indices = Ok labels ↔
  Forall2 (fun i label => classes !! i = Some label) indices labels.
Proof.
  revert labels. induction indices as [|i rest IH]; intros labels; simpl.
  - split.
    + intros [= <-]. constructor.
    + by intros ->%Forall2_nil_inv_l.
  - split.
    + destruct (classes !! i) as [label|] eqn:Hi; [|done].
      destruct (labels_of classes rest) as [l|]; simpl; [|done].
      intros [= <-]. constructor; [done|by apply IH].
    + intros (label & l & Hi & Hl & ->)%Forall2_cons_inv_l.
      rewrite Hi. apply IH in Hl. by rewrite Hl.
Qed.

Lemma predict_then_label model paths labels :
  (∃ indices, Forall2 (index_of model) paths indices ∧
              Forall2 (fun i label => FashionMNIST_classes !! i = Some label)
                indices labels) ↔
  Forall2 (label_of model) paths labels.
Proof.
  split.
  - intros (indices & Hp & Hl). revert labels Hl.
    induction Hp as [|path i paths indices (x & Hx & ->) _ IH]; intros labels Hl.
    + apply Forall2_nil_inv_l in Hl as ->. constructor.
    + apply Forall2_cons_inv_l in Hl as (label & l & Hi & Hl & ->).
      constructor; [by exists x|by apply IH].
  - induction 1 as [|path label paths labels (x & Hx & Hi) _ (indices & Hp & Hl)].
    + exists []. split; constructor.
    + exists (forward model device x :: indices).
      split; constructor; [by exists x|done..].
Qed.

Lemma main_unfold :
  main = match load_model MODEL_DIR with
         | Raise e => Raise e
         | Ok model =>
             match iterdir IMAGES_DIR with
             | Raise e => Raise e
             | Ok entries =>
                 match predict (image_paths_of IMAGES_DIR entries) model device with
                 | Raise e => Raise e
                 | Ok indices => labels_of FashionMNIST_classes indices
                 end
             end
         end.
Proof.
  unfold main, FashionMNISTDatasetFromImages, DataLoader, device.
  destruct (load_model MODEL_DIR) as [model|]; simpl; [|done].
  destruct (iterdir IMAGES_DIR) as [entries|]; simpl; [|done].
  destruct (predict _ model _) as [indices|]; simpl; [|done].
  by destruct (labels_of _ indices).
Qed.




End ScoreLocalResult.



(** * More on the split lengths *)
Section SplitLengthsMore.

Import Float64 Train TrainSpec.
Local Open Scope Z_scope.

(** ** Products that need no rounding *)

Lemma shr_1_even z :
  0 ≤ z →
  shr_1 {| shr_m := 2 * z; shr_r := false; shr_s := false |}
  = {| shr_m := z; shr_r := false; shr_s := false |}.
Proof. by destruct z. Qed.

Lemma shr_iter_exact k q :
  0 ≤ q →
  Nat.iter k shr_1 {| shr_m := q * 2 ^ Z.of_nat k; shr_r := false; shr_s := false |}
  = {| shr_m := q; shr_r := false; shr_s := false |}.
Proof.
  intros Hq. induction k as [|k IH].
  - simpl. by rewrite Z.mul_1_r.
  - rewrite Nat.iter_succ_r, Nat2Z.inj_succ, Z.pow_succ_r by lia.
    replace (q * (2 * 2 ^ Z.of_nat k)) with (2 * (q * 2 ^ Z.of_nat k)) by lia.
    rewrite shr_1_even; [done|].
    apply Z.mul_nonneg_nonneg; [done|]. apply Z.pow_nonneg. lia.
Qed.

(** A mantissa that stands for a whole number below 2^53 is rounded to
    this number. *)
Lemma binary_round_aux_whole (s : bool) (m : positive) (e N : Z) :
  e ≤ 0 → 0 < N < 2 ^ 53 → Z.pos m = N * 2 ^ (- e) →
  to_int (binary_round_aux prec emax s (Z.pos m) e loc_Exact)
  = Ok (cond_Zopp s N).
Proof.
  intros He HN Hm.
  assert (0 < 2 ^ (- e)) as Hpe by (apply Z.pow_pos_nonneg; lia).
  set (d := Z.pos (digits2_pos m)).
  assert (d ≤ 53 - e) as Hd.
  { apply digits2_pos_le; [lia|]. rewrite Hm.
    replace (53 - e) with (53 + - e) by lia. rewrite Z.pow_add_r by lia. nia. }
  assert (1 ≤ d) as Hd1 by (unfold d; lia).
  set (n1 := fexp prec emax (d + e) - e).
  assert (n1 ≤ - e ∧ -1074 ≤ e + n1 ∧ d + e - 53 ≤ e + n1) as (Hn1 & Hn1a & Hn1b).
  { unfold n1, fexp, SpecFloat.emin, prec, emax. lia. }
  unfold binary_round_aux, shr_fexp. simpl Zdigits2. fold d. fold n1.
  destruct (decide (n1 ≤ 0)) as [Hle|Hgt].
  - rewrite (shr_nonpos _ _ _ Hle). simpl shr_m. simpl loc_of_shr_record.
    simpl round_nearest_even. simpl Zdigits2. fold d. fold n1.
    rewrite (shr_nonpos _ _ _ Hle). simpl shr_m.
    rewrite (proj2 (Z.leb_le e (emax - prec))) by (unfold emax, prec; lia).
    simpl to_int. do 2 f_equal.
    destruct (decide (e = 0)) as [Hz|Hne].
    + rewrite Hz, Z.shiftl_0_r, Hm, Hz. simpl. lia.
    + rewrite Z.shiftl_div_pow2 by lia. rewrite Hm. apply Z.div_mul. lia.
  - destruct n1 as [|p|p] eqn:Hp; [lia| |lia].
    set (q := N * 2 ^ (- e - Z.pos p)).
    assert (0 < 2 ^ (- e - Z.pos p)) as Hpq by (apply Z.pow_pos_nonneg; lia).
    assert (0 < q) as Hq by (unfold q; nia).
    assert (Z.pos m = q * 2 ^ Z.pos p) as Hmq.
    { rewrite Hm. unfold q. rewrite <- Z.mul_assoc, <- Z.pow_add_r by lia.
      do 2 f_equal. lia. }
    cbn [shr shr_record_of_loc]. rewrite iter_pos_nat.
    rewrite Hmq, <- (positive_nat_Z p), shr_iter_exact by lia.
    cbn [shr_m loc_of_shr_record round_nearest_even].
    assert (Zdigits2 q ≤ d - Z.pos p) as Hdq.
    { assert (Z.pos p < d) as Hpd.
      { apply digits2_pos_ge. rewrite Hmq.
        assert (0 < 2 ^ Z.pos p) by (apply Z.pow_pos_nonneg; lia). nia. }
      apply Zdigits2_le; [lia..|].
      destruct (digits2_pos_bounds m) as [_ Hhi]. fold d in Hhi.
      rewrite Hmq in Hhi.
      replace d with (d - Z.pos p + Z.pos p) in Hhi by lia.
      rewrite Z.pow_add_r in Hhi by lia.
      assert (0 < 2 ^ Z.pos p) by (apply Z.pow_pos_nonneg; lia). nia. }
    pose proof (Zdigits2_nonneg q) as Hdq0.
    rewrite shr_nonpos.
    2:{ unfold fexp, SpecFloat.emin, prec, emax. lia. }
    cbn [shr_m shr_record_of_loc]. rewrite positive_nat_Z.
    destruct q as [|pq|pq] eqn:Hpq'; [lia| |lia].
    rewrite (proj2 (Z.leb_le (e + Z.pos p) (emax - prec))) by (unfold emax, prec; lia).
    simpl to_int. do 2 f_equal.
    destruct (decide (e + Z.pos p = 0)) as [Hz|Hnz].
    + rewrite Hz, <- Hpq'. unfold q.
      replace (- e - Z.pos p) with 0 by lia.
      rewrite Z.shiftl_0_r, Z.pow_0_r. lia.
    + rewrite Z.shiftl_div_pow2 by lia. rewrite <- Hpq'. unfold q.
      replace (- (e + Z.pos p)) with (- e - Z.pos p) by lia.
      apply Z.div_mul. lia.
Qed.

(** ** The lengths for a fraction between 0 and 1 *)

Lemma unit_fraction_whole (my : positive) (ey L N : Z) :
  ey ≤ 0 →
  (inject_Z L * to_Q (S754_finite false my ey) == inject_Z N)%Q ↔
  L * Z.pos my = N * 2 ^ (- ey).
Proof.
  intros Hey. unfold to_Q.
  destruct (0 <=? ey) eqn:Hz.
  - apply Z.leb_le in Hz. assert (ey = 0) as -> by lia.
    unfold Qeq, Qmult, inject_Z. simpl. lia.
  - apply Z.leb_gt in Hz.
    assert (0 < 2 ^ (- ey)) as Hpow by (apply Z.pow_pos_nonneg; lia).
    unfold Qeq, Qmult, inject_Z. simpl Qnum. simpl Qden.
    rewrite Pos.mul_1_l, Z2Pos.id by done. lia.
Qed.

(** When the real product is a whole number, it is train_len. *)
Lemma split_lengths_whole L f N :
  0 ≤ L < 2 ^ 53 → is_finite f = true → (0 <= to_Q f <= 1)%Q →
  (inject_Z L * to_Q f == inject_Z N)%Q →
  split_lengths L f = Ok (N, L - N).
Proof.
  intros [HL0 HL] Hfin Hunit HN. unfold split_lengths.
  destruct (unit_fraction_inv f Hfin Hunit)
    as [[s ->]|(my & ey & -> & Hey & Hmy & _)].
  { assert (N = 0) as ->.
    { revert HN. unfold Qeq, Qmult, inject_Z. simpl. lia. }
    destruct (decide (L = 0)) as [->|HLne]; [done|].
    by destruct (of_int_small L ltac:(lia)) as (mx & ex & -> & _). }
  apply unit_fraction_whole in HN; [|done].
  assert (0 < 2 ^ (- ey)) as Hpy by (apply Z.pow_pos_nonneg; lia).
  destruct (decide (L = 0)) as [->|HLne].
  { assert (N = 0) as -> by nia. done. }
  destruct (of_int_small L ltac:(lia)) as (mx & ex & -> & Hex & Hmx).
  assert (0 < 2 ^ (- ex)) as Hpx by (apply Z.pow_pos_nonneg; lia).
  unfold mul, SFmul. cbn [xorb].
  rewrite (binary_round_aux_whole false (mx * my) (ex + ey) N); [done|lia| |].
  - split; [nia|]. assert (N ≤ L); [nia|lia].
  - rewrite Pos2Z.inj_mul, Hmx.
    replace (- (ex + ey)) with (- ey + - ex) by lia.
    rewrite Z.pow_add_r by lia. nia.
Qed.

Lemma split_lengths_bounds L f :
  0 ≤ L < 2 ^ 53 → is_finite f = true → (0 <= to_Q f <= 1)%Q →
  ∃ t, split_lengths L f = Ok (t, L - t) ∧ 0 ≤ t ≤ L.
Proof.
  intros HL Hfin Hunit.
  destruct (unit_fraction_inv f Hfin Hunit)
    as [[s Hf]|(my & ey & Hf & Hey & Hmy & HF)].
  { exists 0. split; [|lia]. apply split_lengths_whole; [done..|].
    rewrite Hf. unfold Qeq, Qmult, inject_Z. simpl. lia. }
  assert (0 < 2 ^ (- ey)) as Hpy by (apply Z.pow_pos_nonneg; lia).
  pose proof (Z.div_mod (L * Z.pos my) (2 ^ (- ey)) ltac:(lia)) as Hdm.
  pose proof (Z.mod_pos_bound (L * Z.pos my) (2 ^ (- ey)) Hpy) as Hmod.
  assert (0 ≤ L * Z.pos my / 2 ^ (- ey)) as Hq0 by (apply Z.div_pos; lia).
  destruct (decide ((L * Z.pos my) mod 2 ^ (- ey) = 0)) as [Hdiv|Hrem].
  - exists (L * Z.pos my / 2 ^ (- ey)). split.
    + apply split_lengths_whole; [done..|]. rewrite Hf.
      apply unit_fraction_whole; [done|]. lia.
    + split; [done|]. nia.
  - destruct (train_len_bounds L f HL Hfin Hunit) as (t & Hs & Ht).
    exists t. split; [done|]. rewrite HF in Ht. nia.
Qed.

(** X4. For a data set of fewer than 2^53 items and a fraction between 0
    and 1, both lengths that load_train_val_data computes lie between 0
    and the full length: random_split is never handed a negative length
    or one larger than the data set. *)
Theorem split_lengths_lie_within_the_full_length (L : Z) (f : float) :
  0 ≤ L < 2 ^ 53 → is_finite f = true → (0 <= to_Q f <= 1)%Q →
  ∃ train_len val_len,
    split_lengths L f = Ok (train_len, val_len) ∧
    0 ≤ train_len ≤ L ∧ 0 ≤ val_len ≤ L.
Proof.
  intros HL Hfin Hunit.
  destruct (split_lengths_bounds L f HL Hfin Hunit) as (t & Hs & Ht).
  exists t, (L - t). split; [done|]. lia.
Qed.

(** X5. When the real product of the length and the fraction is a whole
    number, train_len is this number: no rounding takes place. So the
    fraction 0 gives the lengths (0, L) and the fraction 1 gives (L, 0). *)
Theorem train_len_is_exact_for_whole_products (L : Z) (f : float) :
  0 ≤ L < 2 ^ 53 → is_finite f = true → (0 <= to_Q f <= 1)%Q →
  (∀ N, (inject_Z L * to_Q f == inject_Z N)%Q →
        split_lengths L f = Ok (N, L - N)) ∧
  ((to_Q f == 0)%Q → split_lengths L f = Ok (0, L)) ∧
  ((to_Q f == 1)%Q → split_lengths L f = Ok (L, 0)).
Proof.
  intros HL Hfin Hunit. split; [|split].
  - intros N. by apply split_lengths_whole.
  - intros H0.
    assert (split_lengths L f = Ok (0, L - 0)) as Hs; [|by rewrite Z.sub_0_r in Hs].
    apply split_lengths_whole; [done..|]. rewrite H0.
    unfold Qeq, Qmult, inject_Z. simpl. lia.
  - intros H1.
    assert (split_lengths L f = Ok (L, L - L)) as Hs; [|by rewrite Z.sub_diag in Hs].
    apply split_lengths_whole; [done..|]. rewrite H1.
    unfold Qeq, Qmult, inject_Z. simpl. lia.
Qed.

(** X6. A fraction that is not a number makes int() raise ValueError, an
    infinite one OverflowError (ValueError for an empty data set, the
    product being no number then); load_train_val_data, whatever makes
    line 51 raise, ends with this exception after the data set is loaded
    and before random_split is called. *)
Theorem split_of_a_fraction_that_is_no_number `{P : Platform} :
  (∀ L, 0 ≤ L < 2 ^ 63 →
        split_lengths L S754_nan
        = Raise (ValueError "cannot convert float NaN to integer")) ∧
  (∀ L s, 0 < L < 2 ^ 53 →
          split_lengths L (S754_infinity s)
          = Raise (OverflowError "cannot convert float infinity to integer")) ∧
  (∀ s, split_lengths 0 (S754_infinity s)
        = Raise (ValueError "cannot convert float NaN to integer")) ∧
  (∀ data_dir batch_size f e s,
     split_lengths (full_len data_dir) f = Raise e →
     faults (length (calls s)) = None →
     (load_train_val_data data_dir batch_size f s).1 = Raise e ∧
     calls_during (load_train_val_data data_dir batch_size f) s
     = [FashionMNIST_call data_dir]).
Proof.
  split; [|split; [|split]].
  - intros L [HL0 HL]. unfold split_lengths.
    assert (Zdigits2 L ≤ 63) as Hd by (apply Zdigits2_le; lia).
    destruct (of_int_finite L HL0 ltac:(lia)) as [[s ->]|(mx & ex & -> & _)]; done.
  - intros L s HL. unfold split_lengths.
    by destruct (of_int_small L HL) as (mx & ex & -> & _).
  - done.
  - intros data_dir batch_size f e s Hs Hf.
    assert (∃ s', load_train_val_data data_dir batch_size f s = (Raise e, s') ∧
                  calls s' = calls s ++ [FashionMNIST_call data_dir])
      as (s' & Hrun & Hcalls).
    { destruct (external_writing_ok (FashionMNIST_call data_dir) data_dir download
                  (full_len data_dir) s Hf) as (s1 & Hw & Hc & _).
      unfold load_train_val_data, bind at 1.
      rewrite Hw, Hs. unfold bind, throw. cbn.
      eexists. split; [done|]. done. }
    unfold calls_during. rewrite Hrun. cbn [fst snd].
    split; [done|]. by rewrite Hcalls, drop_app_length.
Qed.

End SplitLengthsMore.

Lemma split_lengths_lie_within_the_full_length_witness :
  ∃ train_len val_len,
    Train.split_lengths 10 Float64.lit_0_7 = Ok (train_len, val_len) ∧
    (0 ≤ train_len ≤ 10)%Z ∧ (0 ≤ val_len ≤ 10)%Z.
Proof.
  apply (split_lengths_lie_within_the_full_length 10 Float64.lit_0_7).
  - lia.
  - reflexivity.
  - split; by vm_compute.
Defined.

Lemma train_len_is_exact_for_whole_products_witness :
  Train.split_lengths 60000 Float64.lit_0_5 = Ok (30000, 60000 - 30000) ∧
  Train.split_lengths 60000 Float64.lit_1_0 = Ok (60000, 0).
Proof.
  split.
  - apply (proj1 (train_len_is_exact_for_whole_products 60000 Float64.lit_0_5
                    ltac:(lia) eq_refl ltac:(split; by vm_compute))).
    by vm_compute.
  - apply (proj2 (proj2 (train_len_is_exact_for_whole_products 60000 Float64.lit_1_0
                           ltac:(lia) eq_refl ltac:(split; by vm_compute)))).
    by vm_compute.
Defined.

Lemma split_of_a_fraction_that_is_no_number_witness :
  (@Train.load_train_val_data TrainExample.platform "data" 64 S754_nan
     (Train.initial TrainExample.fs_fresh)).1
  = Raise (ValueError "cannot convert float NaN to integer") ∧
  TrainSpec.calls_during
    (@Train.load_train_val_data TrainExample.platform "data" 64 S754_nan)
    (Train.initial TrainExample.fs_fresh)
  = [Train.FashionMNIST_call "data"].
Proof.
  apply (proj2 (proj2 (proj2 (split_of_a_fraction_that_is_no_number
                                (P := TrainExample.platform))))).
  - apply (proj1 (split_of_a_fraction_that_is_no_number (P := TrainExample.platform))).
    simpl. lia.
  - reflexivity.
Defined.

(** * More on the command line of the training script *)
Section CommandLineSettings.

Import Argparse CliSpec CliSpec2.

Lemma classify_render st rest :
  well_formed Train.main_parser st →
  classify Train.main_parser (render st ++ rest)
  = line_of st ++ classify Train.main_parser rest.
Proof.
  destruct st as [f v j]. unfold well_formed, render, line_of. cbn [joined value which].
  destruct j.
  - intros _. by destruct f.
  - intros [Hdd Harg].
    assert (String.eqb v "--" = false) as Hv by by apply String.eqb_neq.
    destruct f; cbn [app classify option_string_of]; cbn [String.eqb Ascii.eqb];
      simpl String.eqb; rewrite Hv, Harg; reflexivity.
Qed.

Lemma classify_settings sts :
  Forall (well_formed Train.main_parser) sts →
  classify Train.main_parser (flat_map render sts) = flat_map line_of sts.
Proof.
  induction 1 as [|st sts Hst _ IH]; [done|].
  simpl. by rewrite classify_render, IH.
Qed.

Lemma settings_not_ambiguous sts :
  existsb is_ambiguous (flat_map line_of sts) = false.
Proof.
  induction sts as [|[f v []] sts IH]; simpl; done.
Qed.

Lemma consume_explicit_store p a o v :
  kind a = store → consume_explicit p false a o v = StoreExplicit a v.
Proof. intros Hk. destruct v; simpl; by rewrite Hk. Qed.

Lemma consume_settings p sts ns :
  consume p ns false (flat_map line_of sts) = Ok (foldl assign ns sts).
Proof.
  revert ns. induction sts as [|[f v j] sts IH]; intros ns; [done|].
  cbn [flat_map foldl]. unfold line_of at 1. cbn [joined which value].
  destruct j; cbn [app consume consume_optional].
  - rewrite consume_explicit_store by done. apply IH.
  - cbn [kind action_of]. apply IH.
Qed.

Lemma lookup_settings f sts ns :
  foldl assign ns sts !! dest_of f
  = match last_value f sts with
    | Some v => Some v
    | None => ns !! dest_of f
    end.
Proof.
  induction sts as [|st sts IH] using rev_ind; [done|].
  rewrite foldl_app. cbn [foldl]. unfold assign at 1, last_value.
  rewrite omap_app.
  destruct st as [g v j]. cbn [which value].
  destruct f, g; cbn [dest_of omap list_omap which value].
  - by rewrite lookup_insert_eq, last_snoc.
  - rewrite lookup_insert_ne by done. rewrite app_nil_r. apply IH.
  - rewrite lookup_insert_ne by done. rewrite app_nil_r. apply IH.
  - by rewrite lookup_insert_eq, last_snoc.
Qed.

(** X7. A command line made of settings of the two options, in any
    number and any order, each value either following its option or
    joined to it by =, is accepted by the parser of the training script;
    each option then has the value of its last setting, and its default
    when it is not set. *)
Theorem settings_are_read_and_the_last_one_counts sts :
  Forall (well_formed Train.main_parser) sts →
  ∃ ns,
    parse_args Train.main_parser (flat_map render sts) = Ok ns ∧
    ns = foldl assign (defaults Train.main_parser) sts ∧
    ∀ f, ns !! dest_of f = Some (from_option id (default_of f) (last_value f sts)).
Proof.
  intros Hwf. eexists. split; [|split; [reflexivity|]].
  - unfold parse_args. rewrite classify_settings by done.
    rewrite settings_not_ambiguous. apply consume_settings.
  - intros f. rewrite lookup_settings.
    destruct (last_value f sts); [done|]. by destruct f.
Qed.

End CommandLineSettings.

Lemma settings_are_read_and_the_last_one_counts_witness :
  Argparse.parse_args Train.main_parser
    ["--model_dir=1"; "--data_dir"; "2"; "--model_dir"; "3"]
  = Ok {[ "data_dir" := "2"; "model_dir" := "3" ]}.
Proof.
  destruct (settings_are_read_and_the_last_one_counts
              [ {| CliSpec2.which := CliSpec2.model_dir_flag;
                   CliSpec2.value := "1"; CliSpec2.joined := true |};
                {| CliSpec2.which := CliSpec2.data_dir_flag;
                   CliSpec2.value := "2"; CliSpec2.joined := false |};
                {| CliSpec2.which := CliSpec2.model_dir_flag;
                   CliSpec2.value := "3"; CliSpec2.joined := false |} ])
    as (ns & Hparse & -> & _).
  - repeat constructor; done.
  - etrans; [exact Hparse|]. by vm_compute.
Defined.

(** * More on main of the training script *)
Section MainFacts.

Import Argparse Train TrainSpec TrainSpec2.
Context `{P : Platform}.
Local Open Scope py_scope.

(** The namespace of a command line that is accepted. *)
Lemma parsed_namespace argv ns :
  parse_args main_parser argv = Ok ns →
  ∃ data_dir model_dir,
    ns !! "data_dir" = Some data_dir ∧ ns !! "model_dir" = Some model_dir ∧
    size ns = 2%nat ∧
    ns = {[ "data_dir" := data_dir; "model_dir" := model_dir ]}.
Proof.
  intros Hdom%main_parser_keys.
  assert (is_Some (ns !! "data_dir")) as [d Hd].
  { apply elem_of_dom. rewrite Hdom. set_solver. }
  assert (is_Some (ns !! "model_dir")) as [m Hm].
  { apply elem_of_dom. rewrite Hdom. set_solver. }
  exists d, m. split; [done|]. split; [done|]. split.
  - rewrite <- size_dom, Hdom, size_union by set_solver.
    by rewrite !size_singleton.
  - apply map_eq. intros k.
    destruct (decide (k = "data_dir")) as [->|Hk1]; [by simplify_map_eq|].
    destruct (decide (k = "model_dir")) as [->|Hk2]; [by simplify_map_eq|].
    simplify_map_eq.
    apply not_elem_of_dom. rewrite Hdom. set_solver.
Qed.

Lemma call_train_binds argv ns data_dir model_dir device :
  parse_args main_parser argv = Ok ns →
  ns !! "data_dir" = Some data_dir → ns !! "model_dir" = Some model_dir →
  call_train ns device = train data_dir model_dir device.
Proof.
  intros (d & m & Hd & Hm & Hsize & _)%parsed_namespace Hd' Hm'.
  unfold call_train. rewrite Hd', Hm'. by rewrite decide_True.
Qed.

(** [main] on a command line that is accepted. *)
Lemma main_parsed argv ns data_dir model_dir s :
  parse_args main_parser argv = Ok ns →
  ns !! "data_dir" = Some data_dir → ns !! "model_dir" = Some model_dir →
  main argv s
  = (external logging_basicConfig () ;;
     enter (parse_args_call argv) ;;
     external (logging_info_vars "input parameters: %s" ns) () ;;
     available ← external cuda_is_available cuda;
     train data_dir model_dir (if available : bool then "cuda" else "cpu")) s.
Proof.
  intros Hparse Hd Hm. unfold main, bind.
  destruct (external logging_basicConfig () s) as [[[]|e] s1]; [|done].
  destruct (enter (parse_args_call argv) s1) as [[[]|e] s2]; [|done].
  rewrite Hparse. unfold ret at 1.
  destruct (external (logging_info_vars "input parameters: %s" ns) () s2)
    as [[[]|e] s3]; [|done].
  destruct (external cuda_is_available cuda s3) as [[available|e] s4]; [|done].
  by erewrite call_train_binds.
Qed.

(** X8. Whatever command line the parser accepts, the call of train with
    the parsed arguments unpacked as keywords binds exactly its
    parameters data_dir and model_dir, so that no TypeError comes of it:
    main is the four calls of its first lines (the third logs the format
    "input parameters: %s" with the dictionary of the parsed arguments)
    followed by train on the two parsed values and on the device, cuda
    when it is available and cpu otherwise. Left out are the command
    lines with a value written as -- and joined to its option, for which
    argparse stores an empty list. *)
Theorem main_runs_train_on_the_parsed_arguments argv ns :
  parse_args main_parser argv = Ok ns →
  CliSpec2.plain_values ns →
  ∃ data_dir model_dir,
    ns = {[ "data_dir" := data_dir; "model_dir" := model_dir ]} ∧
    data_dir ≠ "--" ∧ model_dir ≠ "--" ∧
    (∀ device, call_train ns device = train data_dir model_dir device) ∧
    ∀ s, main argv s
         = (external logging_basicConfig () ;;
            enter (parse_args_call argv) ;;
            external (logging_info_vars "input parameters: %s"
                        {[ "data_dir" := data_dir; "model_dir" := model_dir ]}) () ;;
            available ← external cuda_is_available cuda;
            train data_dir model_dir (if available : bool then "cuda" else "cpu")) s.
Proof.
  intros Hparse Hplain.
  destruct (parsed_namespace _ _ Hparse) as (d & m & Hd & Hm & _ & Hns).
  exists d, m. split; [done|]. split; [exact (Hplain _ _ Hd)|].
  split; [exact (Hplain _ _ Hm)|]. split.
  - intros device. by eapply call_train_binds.
  - intros s. rewrite <- Hns. by eapply main_parsed.
Qed.

(** X9. A command line that the parser refuses, or that asks for the
    help, ends the script with SystemExit, of status 2 or 0, at its second
    library call: no data set is loaded, nothing is trained and the file
    system is not touched. *)
Theorem refused_command_line_stops_the_script argv e :
  parse_args main_parser argv = Raise e →
  (e = SystemExit 0 ∨ e = SystemExit 2) ∧
  ∀ s,
    is_ok (main argv s).1 = false ∧
    fs (main argv s).2 = fs s ∧
    states_during (main argv) s = [] ∧
    calls_during (main argv) s `prefix_of` main_prologue argv ∧
    (faults (length (calls s)) = None →
     faults (S (length (calls s))) = None →
     (main argv s).1 = Raise e ∧
     calls_during (main argv) s = main_prologue argv ∧
     raised_during (main argv) s = [(parse_args_call argv, e)]).
Proof.
  intros Hparse. split; [by eapply parse_args_raises|]. intros s.
  unfold states_during, calls_during, raised_during, main_prologue.
  destruct (main argv s) as [r s'] eqn:Hrun. cbn [fst snd].
  revert Hrun. unfold main, bind at 1.
  destruct (external logging_basicConfig () s) as [[[]|e1] s1] eqn:E1.
  - destruct (external_still _ _ _ _ _ E1) as (Hfs1 & Hh1 & Hc1).
    unfold bind at 1.
    destruct (enter (parse_args_call argv) s1) as [[[]|e2] s2] eqn:E2.
    + destruct (enter_still _ _ _ _ E2) as [Hfs2 Hh2].
      pose proof (enter_calls _ _ _ _ E2) as Hc2.
      rewrite Hparse. unfold bind, throw. intros [= <- <-].
      cbn [fs calls raised history].
      rewrite Hfs2, Hfs1, Hh2, Hh1, Hc2, Hc1, <- (assoc_L (++)), drop_all,
        !drop_app_length.
      split; [done|]. split; [done|]. split; [done|]. split; [done|].
      intros Hf1 Hf2. split; [done|]. split; [done|].
      assert (raised s2 = raised s) as ->; [|by rewrite drop_app_length].
      revert E1 E2. unfold external, bind, enter, throw, ret.
      rewrite Hf1. intros [= <-]. cbn [calls]. rewrite length_app. simpl.
      rewrite Nat.add_1_r, Hf2. by intros [= <-].
    + destruct (enter_still _ _ _ _ E2) as [Hfs2 Hh2].
      pose proof (enter_calls _ _ _ _ E2) as Hc2.
      intros [= <- <-].
      rewrite Hfs2, Hfs1, Hh2, Hh1, Hc2, Hc1, <- (assoc_L (++)),
        drop_all, drop_app_length.
      split; [done|]. split; [done|]. split; [done|]. split; [done|].
      intros Hf1 Hf2. exfalso. revert E1 E2.
      unfold external, bind, enter, throw, ret.
      rewrite Hf1. intros [= <-]. cbn [calls]. rewrite length_app. simpl.
      by rewrite Nat.add_1_r, Hf2.
  - destruct (external_still _ _ _ _ _ E1) as (Hfs1 & Hh1 & Hc1).
    intros [= <- <-]. rewrite Hfs1, Hh1, Hc1, drop_all, drop_app_length.
    split; [done|]. split; [done|]. split; [done|].
    split; [by exists [parse_args_call argv]|].
    intros Hf1 _. exfalso. revert E1. unfold external, bind, enter.
    by rewrite Hf1.
Qed.

End MainFacts.

Lemma main_runs_train_on_the_parsed_arguments_witness :
  ∃ data_dir model_dir,
    ({[ "data_dir" := Train.DATA_DIR; "model_dir" := "out" ]} : gmap string string)
    = {[ "data_dir" := data_dir; "model_dir" := model_dir ]} ∧
    ∀ device,
      @Train.call_train TrainExample.platform
        {[ "data_dir" := Train.DATA_DIR; "model_dir" := "out" ]} device
      = @Train.train TrainExample.platform data_dir model_dir device.
Proof.
  destruct (main_runs_train_on_the_parsed_arguments (P := TrainExample.platform)
              ["--model_dir"; "out"]
              {[ "data_dir" := Train.DATA_DIR; "model_dir" := "out" ]} eq_refl)
    as (d & m & Hns & _ & _ & Hcall & _).
  - apply (bool_decide_unpack _). by vm_compute.
  - by exists d, m.
Defined.

Lemma refused_command_line_stops_the_script_witness :
  (@Train.main TrainExample.platform ["--epochs"; "3"]
     (Train.initial TrainExample.fs_rerun)).1 = Raise (SystemExit 2) ∧
  TrainSpec.calls_during (@Train.main TrainExample.platform ["--epochs"; "3"])
    (Train.initial TrainExample.fs_rerun)
  = [Train.logging_basicConfig; Train.parse_args_call ["--epochs"; "3"]].
Proof.
  destruct (proj2 (refused_command_line_stops_the_script (P := TrainExample.platform)
                     ["--epochs"; "3"] (SystemExit 2) eq_refl)
              (Train.initial TrainExample.fs_rerun))
    as (_ & _ & _ & _ & H).
  destruct (H eq_refl eq_refl) as (Hr & Hc & _). by split.
Defined.

(** * More on the file system during training *)
Section TrainConfined.

Import Float64 Train TrainSpec TrainSpec2.
Context `{P : Platform}.
Local Open Scope py_scope.

(** ** Only four directory trees change *)

Lemma confined_refl paths f : confined paths f f.
Proof. by intros q _. Qed.

Lemma confined_insert paths f0 f p (d : directory) :
  p ∈ paths → confined paths f0 f → confined paths f0 (<[p := d]> f).
Proof.
  intros Hp Hc q Hq. rewrite lookup_insert_ne; [by apply Hc|]. by intros ->.
Qed.

Lemma confined_delete paths f0 (f : filesystem) p :
  p ∈ paths → confined paths f0 f → confined paths f0 (delete p f).
Proof.
  intros Hp Hc q Hq. rewrite lookup_delete_ne; [by apply Hc|]. by intros ->.
Qed.

Lemma steps_for_range I {A} n i0 (body : Z → A → M A) acc :
  (∀ i a, steps I (body i a)) → steps I (for_range n i0 body acc).
Proof.
  intros Hb. revert i0 acc. induction n as [|n IH]; intros i0 acc; simpl.
  - apply steps_ret.
  - apply steps_bind; [apply Hb|intros a; apply IH].
Qed.

Lemma mlflow_save_confined paths f0 model path code_paths :
  path ∈ paths →
  steps (confined paths f0) (mlflow_pytorch_save_model model path code_paths).
Proof.
  intros Hp. apply steps_mlflow_save.
  - intros f Hc _. by apply confined_insert.
  - intros f d name text Hc _. by apply confined_insert.
Qed.

Lemma rmtree_confined paths f0 path ignore_errors :
  path ∈ paths → steps (confined paths f0) (rmtree path ignore_errors).
Proof.
  intros Hp.
  set (onerror := fun e : exn => if ignore_errors then ret () else reraise e).
  assert (∀ e, steps (confined paths f0) (onerror e)) as Hon.
  { intros e. unfold onerror.
    destruct ignore_errors; [apply steps_ret|apply steps_reraise]. }
  unfold rmtree. fold onerror.
  apply steps_bind.
  - apply steps_try_except.
    + apply steps_bind; [apply steps_enter|intros _].
      apply steps_bind; [apply steps_get_fs|intros f].
      destruct (f !! path); [apply steps_ret|apply steps_throw].
    + intros e. apply steps_bind; [apply Hon|intros _; apply steps_ret].
  - intros [d|]; [|apply steps_ret].
    apply steps_bind; [|intros _].
    + apply steps_for_each. intros name. apply steps_try_except; [|apply Hon].
      apply steps_os_unlink. intros f d1 x Hc _ _ _. by apply confined_insert.
    + apply steps_try_except; [|apply Hon].
      apply steps_os_rmdir. intros f Hc _. by apply confined_delete.
Qed.

Lemma copy_entries_confined paths f0 c src dst entries :
  dst ∈ paths → steps (confined paths f0) (copy_entries c src dst entries).
Proof.
  intros Hp. induction entries as [|[name x] rest IH]; simpl.
  - apply steps_ret.
  - apply steps_bind; [|intros errs].
    + apply steps_try_except_OSError; [|intros e; apply steps_ret].
      apply steps_bind; [|intros _; apply steps_ret].
      apply steps_copy2. intros f d t Hc _ _ _. by apply confined_insert.
    + apply steps_bind; [done|intros errs'; apply steps_ret].
Qed.

Lemma copytree_confined paths f0 src dst dirs_exist_ok :
  dst ∈ paths → steps (confined paths f0) (copytree src dst dirs_exist_ok).
Proof.
  intros Hp. unfold copytree.
  apply steps_bind; [apply steps_enter|intros _].
  apply steps_bind; [apply steps_get_fs|intros f].
  destruct (f !! src) as [d|]; [|apply steps_throw].
  apply steps_bind; [|intros _].
  { apply steps_os_makedirs. intros f1 Hc _. by apply confined_insert. }
  apply steps_bind; [by apply copy_entries_confined|intros errs].
  destruct errs; [apply steps_ret|apply steps_throw].
Qed.

Lemma save_model_confined paths f0 model_dir model :
  temp_path ∈ paths → model_dir ∈ paths →
  steps (confined paths f0) (save_model model_dir model).
Proof.
  intros Ht Hm. unfold save_model. fold temp_path.
  apply steps_bind; [apply steps_external|intros _].
  apply steps_bind; [by apply mlflow_save_confined|intros _].
  apply steps_bind; [apply steps_external|intros _].
  apply steps_bind; [by apply rmtree_confined|intros _].
  apply steps_bind; [by apply copytree_confined|intros _].
  apply steps_ret.
Qed.

Lemma steps_DataLoader_shuffled I length batch_size :
  steps I (DataLoader_shuffled length batch_size).
Proof.
  unfold DataLoader_shuffled.
  apply steps_bind; [apply steps_enter|intros _].
  destruct (length <=? 0)%Z; [apply steps_throw|apply steps_ret].
Qed.

Lemma load_confined paths f0 data_dir batch_size training_fraction :
  data_dir ∈ paths →
  steps (confined paths f0) (load_train_val_data data_dir batch_size training_fraction).
Proof.
  intros Hd. unfold load_train_val_data.
  apply steps_bind; [|intros full_train_len].
  { apply steps_writing. intros f d Hc. by apply confined_insert. }
  apply steps_bind; [|intros [train_len val_len]].
  { destruct (split_lengths _ _); [apply steps_ret|apply steps_throw]. }
  apply steps_bind; [apply steps_external|intros _].
  apply steps_bind; [apply steps_DataLoader_shuffled|intros train_loader].
  apply steps_bind; [apply steps_DataLoader_shuffled|intros val_loader].
  apply steps_ret.
Qed.

Lemma epochs_confined paths f0 device train_loader val_loader n epoch model :
  tracking_dir ∈ paths →
  steps (confined paths f0)
    (for_range n epoch
       (fun epoch model =>
          external (logging_info ("Epoch " +:+ pretty (epoch + 1))) () ;;
          '(model, training) ← external fit_call (fit_pass device train_loader model);
          validation ← external evaluate_call (evaluate_pass device val_loader model);
          let metrics := epoch_metrics training validation in
          external_writing (log_metrics_call metrics epoch) tracking_dir
            (record_metrics metrics epoch) () ;;
          ret model)
       model).
Proof.
  intros Ht. apply steps_for_range. intros i m.
  apply steps_bind; [apply steps_external|intros _].
  apply steps_bind; [apply steps_external|intros [m' training]].
  apply steps_bind; [apply steps_external|intros validation].
  apply steps_bind; [|intros _; apply steps_ret].
  apply steps_writing. intros f d Hc. by apply confined_insert.
Qed.

Lemma train_confined f0 data_dir model_dir device :
  steps (confined [data_dir; tracking_dir; temp_path; model_dir] f0)
    (train data_dir model_dir device).
Proof.
  unfold train.
  apply steps_bind; [apply load_confined; set_solver|intros [train_loader val_loader]].
  apply steps_bind; [apply steps_external|intros model].
  apply steps_bind; [apply steps_external|intros _].
  apply steps_bind; [apply steps_external|intros _].
  apply steps_bind; [|intros model'; apply save_model_confined; set_solver].
  apply epochs_confined. set_solver.
Qed.

Lemma steps_bind_throw I {A B} c e (f : A → M B) : steps I (bind (throw c e) f).
Proof.
  apply steps_still. intros s r s'. unfold bind, throw. by intros [= <- <-].
Qed.

Lemma main_confined f0 argv data_dir model_dir :
  (∀ ns, Argparse.parse_args main_parser argv = Ok ns →
         ns !! "data_dir" = Some data_dir ∧ ns !! "model_dir" = Some model_dir) →
  steps (confined [data_dir; tracking_dir; temp_path; model_dir] f0) (main argv).
Proof.
  intros Hns. destruct (Argparse.parse_args main_parser argv) as [ns|e] eqn:Hparse.
  - destruct (Hns ns eq_refl) as [Hd Hm].
    intros s r s' HI. rewrite (main_parsed argv ns data_dir model_dir s Hparse Hd Hm).
    revert s r s' HI.
    apply steps_bind; [apply steps_external|intros _].
    apply steps_bind; [apply steps_enter|intros _].
    apply steps_bind; [apply steps_external|intros _].
    apply steps_bind; [apply steps_external|intros available].
    apply train_confined.
  - unfold main. rewrite Hparse.
    apply steps_bind; [apply steps_external|intros _].
    apply steps_bind; [apply steps_enter|intros _].
    apply steps_bind_throw.
Qed.

Lemma confined_only_changes paths f0 f : confined paths f0 f → only_changes paths f0 f.
Proof.
  intros Hc q Hq. apply Hc. intros Hin.
  apply (proj1 (Forall_forall _ _) Hq) in Hin. by apply apart_ne in Hin.
Qed.

(** What a computation ends in and goes through, when it keeps within
    some directories. *)
Lemma confined_throughout {A} (m : M A) paths s f :
  steps (confined paths (fs s)) m →
  f ∈ fs (m s).2 :: states_during m s →
  only_changes paths (fs s) f.
Proof.
  intros Hsteps. unfold states_during.
  destruct (m s) as [r s'] eqn:E. cbn [snd].
  destruct (Hsteps _ _ _ (confined_refl _ _) E) as (Hend & h & Hh & Hall).
  rewrite Hh, drop_app_length.
  intros [->|Hin]%elem_of_cons; apply confined_only_changes; [done|].
  by eapply (proj1 (Forall_forall _ _) Hall).
Qed.

(** X10. The training script changes nothing on disk but four directory
    trees: the root of the data set, under which the download writes, the
    tracking directory of mlflow, where the metrics are logged, the
    temporary directory and model_dir. In every state the file system
    goes through during train and during main (on the directories that
    the command line gives), and in the one it ends in, every directory
    tree that lies apart from these four is as it was at the start;
    during save_model, every tree that lies apart from the temporary
    directory and model_dir. *)
Theorem only_four_directory_trees_change :
  (∀ model_dir model s f,
     f ∈ fs (save_model model_dir model s).2
         :: states_during (save_model model_dir model) s →
     only_changes [temp_path; model_dir] (fs s) f) ∧
  (∀ data_dir model_dir device s f,
     f ∈ fs (train data_dir model_dir device s).2
         :: states_during (train data_dir model_dir device) s →
     only_changes [data_dir; tracking_dir; temp_path; model_dir] (fs s) f) ∧
  (∀ argv ns data_dir model_dir s f,
     Argparse.parse_args main_parser argv = Ok ns → CliSpec2.plain_values ns →
     ns !! "data_dir" = Some data_dir → ns !! "model_dir" = Some model_dir →
     f ∈ fs (main argv s).2 :: states_during (main argv) s →
     only_changes [data_dir; tracking_dir; temp_path; model_dir] (fs s) f).
Proof.
  split; [|split].
  - intros model_dir model s f. apply confined_throughout.
    apply save_model_confined; set_solver.
  - intros data_dir model_dir device s f. apply confined_throughout, train_confined.
  - intros argv ns data_dir model_dir s f Hparse _ Hd Hm.
    apply confined_throughout, main_confined.
    intros ns'. rewrite Hparse. by intros [= <-].
Qed.

End TrainConfined.

Lemma only_four_directory_trees_change_witness :
  Train.fs (@Train.main TrainExample.platform ["--model_dir"; "out"]
              (Train.initial TrainExample.fs_rerun)).2 !! "src"
  = Some TrainExample.code_dir.
Proof.
  refine (proj2 (proj2 (only_four_directory_trees_change
                          (P := TrainExample.platform)))
            ["--model_dir"; "out"]
            {[ "data_dir" := Train.DATA_DIR; "model_dir" := "out" ]}
            Train.DATA_DIR "out"
            (Train.initial TrainExample.fs_rerun) _ eq_refl _ eq_refl eq_refl _ "src" _).
  - apply (bool_decide_unpack _). by vm_compute.
  - apply list_elem_of_here.
  - repeat constructor.
Defined.

(** ** What a run that fails leaves *)
Section TrainUntil.

Import Float64 Train TrainSpec TrainSpec2.
Context `{P : Platform}.
Local Open Scope py_scope.

Lemma extends_ret {A} (a : A) : extends (ret a).
Proof. intros s r s' [= <- <-]. exists []. by rewrite app_nil_r. Qed.

Lemma extends_external {A} c (a : A) : extends (external c a).
Proof. intros s r s' E. exists [c]. by eapply external_still. Qed.

Lemma extends_bind {A B} (m : M A) (f : A → M B) :
  extends m → (∀ a, extends (f a)) → extends (bind m f).
Proof.
  intros Hm Hf s r s'. unfold bind.
  destruct (m s) as [[a|e] s1] eqn:Em.
  - intros Ef. destruct (Hm _ _ _ Em) as [n1 H1].
    destruct (Hf _ _ _ _ Ef) as [n2 H2].
    exists (n1 ++ n2). by rewrite H2, H1, (assoc_L (++)).
  - intros [= <- <-]. by eapply Hm.
Qed.

Lemma extends_rmtree path ignore_errors : extends (rmtree path ignore_errors).
Proof. intros s r s' E. eexists. by eapply rmtree_calls. Qed.

Lemma extends_copytree src dst dirs_exist_ok : extends (copytree src dst dirs_exist_ok).
Proof. intros s r s' E. eexists. by eapply copytree_calls. Qed.

Lemma mlflow_save_calls model path code_paths s r s' :
  mlflow_pytorch_save_model model path code_paths s = (r, s') →
  calls s' = calls s ++ [mlflow_save_model_call path].
Proof.
  unfold mlflow_pytorch_save_model, bind at 1.
  destruct (enter _ s) as [[[]|e] s1] eqn:Ee.
  - intros Eb. rewrite <- (enter_calls _ _ _ _ Ee).
    by eapply silent_mlflow_save_body.
  - intros [= <- <-]. by eapply enter_calls.
Qed.

Lemma stages_end (stage : directory → filesystem) ds s r s' :
  for_each ds (fun d => set_fs (stage d)) s = (r, s') →
  fs s' = fs s ∨ ∃ d, fs s' = stage d.
Proof.
  revert s. induction ds as [|d ds IH]; intros s; simpl.
  - intros [= <- <-]. by left.
  - unfold bind. unfold set_fs at 1. cbn beta iota. intros E.
    destruct (IH _ E) as [->|[d' ->]]; right; by eexists.
Qed.

(** A library call that writes under a directory ends with this
    directory changed, if anything. *)
Lemma external_writing_end {A} c dir stages (a : A) s r s' :
  external_writing c dir stages a s = (r, s') →
  calls s' = calls s ++ [c] ∧ (fs s' = fs s ∨ ∃ d, fs s' = <[dir := d]> (fs s)).
Proof.
  intros E. split.
  { destruct (traces_writing c dir stages a _ _ _ E) as (l & Hc & Hp & _).
    revert E Hc. unfold external_writing, bind at 1.
    destruct (enter c s) as [[[]|e] s1] eqn:Ee.
    - intros Eb _. rewrite <- (enter_calls _ _ _ _ Ee).
      by eapply silent_writing_body.
    - intros [= <- <-] _. by eapply enter_calls. }
  revert E. unfold external_writing, bind at 1.
  destruct (enter c s) as [[[]|e] s1] eqn:Ee.
  - destruct (enter_still _ _ _ _ Ee) as [Hfs _]. rewrite <- Hfs.
    unfold bind at 1, get_fs. unfold bind.
    destruct (for_each _ _ s1) as [[[]|e] s2] eqn:Ef; intros [= <- <-];
      by apply stages_end in Ef.
  - intros [= <- <-]. left. by eapply enter_still.
Qed.

Section Relation.

Variable c : call.
Variable R : filesystem → filesystem → Prop.
Hypothesis R_refl : ∀ f, R f f.
Hypothesis R_trans : ∀ f1 f2 f3, R f1 f2 → R f2 f3 → R f1 f3.

Lemma until_ret {A} (a : A) : until c R (ret a).
Proof.
  intros s r s' [= <- <-]. exists []. rewrite app_nil_r. split; [done|by right].
Qed.

Lemma until_throw {A} c' e : until c R (@throw A c' e).
Proof.
  intros s r s' [= <- <-]. exists []. rewrite app_nil_r. split; [done|by right].
Qed.

Lemma until_external {A} c' (a : A) : until c R (external c' a).
Proof.
  intros s r s' E. destruct (external_still _ _ _ _ _ E) as (Hfs & _ & Hc).
  exists [c']. split; [done|]. right. rewrite Hfs. apply R_refl.
Qed.

Lemma until_external_writing {A} c' dir stages (a : A) :
  (∀ f d, R f (<[dir := d]> f)) → until c R (external_writing c' dir stages a).
Proof.
  intros HR s r s' E. destruct (external_writing_end _ _ _ _ _ _ _ E) as [Hc Hfs].
  exists [c']. split; [done|]. right.
  destruct Hfs as [->|[d ->]]; [apply R_refl|apply HR].
Qed.

Lemma until_DataLoader_shuffled length batch_size :
  until c R (DataLoader_shuffled length batch_size).
Proof.
  intros s r s' E.
  destruct (traces_DataLoader_shuffled length batch_size _ _ _ E) as (l & Hc & _).
  exists l. split; [done|]. right.
  assert (fs s' = fs s) as ->; [|apply R_refl].
  revert E. unfold DataLoader_shuffled, bind.
  destruct (enter _ s) as [[[]|e] s1] eqn:Ee;
    [destruct (length <=? 0)%Z|]; intros [= <- <-]; cbn [fs];
    exact (proj1 (enter_still _ _ _ _ Ee)).
Qed.

Lemma until_bind {A B} (m : M A) (f : A → M B) :
  until c R m → (∀ a, until c R (f a)) → until c R (bind m f).
Proof.
  intros Hm Hf s r s'. unfold bind.
  destruct (m s) as [[a|e] s1] eqn:Em.
  - intros Ef. destruct (Hm _ _ _ Em) as (n1 & H1 & HR1).
    destruct (Hf _ _ _ _ Ef) as (n2 & H2 & HR2).
    exists (n1 ++ n2). rewrite H2, H1, (assoc_L (++)). split; [done|].
    destruct HR1 as [Hin|HR1]; [left; set_solver|].
    destruct HR2 as [Hin|HR2]; [left; set_solver|].
    right. by eapply R_trans.
  - intros [= <- <-]. by eapply Hm.
Qed.

(** Once the call is made, whatever follows only adds calls. *)
Lemma until_reached {A B} (m : M A) (f : A → M B) :
  (∀ s r s', m s = (r, s') → ∃ new, calls s' = calls s ++ new ∧ c ∈ new) →
  (∀ a, extends (f a)) → until c R (bind m f).
Proof.
  intros Hm Hf s r s'. unfold bind.
  destruct (m s) as [[a|e] s1] eqn:Em.
  - intros Ef. destruct (Hm _ _ _ Em) as (n1 & H1 & Hin).
    destruct (Hf _ _ _ _ Ef) as [n2 H2].
    exists (n1 ++ n2). rewrite H2, H1, (assoc_L (++)). split; [done|].
    left. set_solver.
  - intros [= <- <-]. destruct (Hm _ _ _ Em) as (n1 & H1 & Hin).
    exists n1. split; [done|by left].
Qed.

Lemma until_for_range {A} n i0 (body : Z → A → M A) acc :
  (∀ i a, until c R (body i a)) → until c R (for_range n i0 body acc).
Proof.
  intros Hb. revert i0 acc. induction n as [|n IH]; intros i0 acc; simpl.
  - apply until_ret.
  - apply until_bind; [apply Hb|intros a; apply IH].
Qed.

Lemma until_load_train_val_data data_dir batch_size training_fraction :
  (∀ f d, R f (<[data_dir := d]> f)) →
  until c R (load_train_val_data data_dir batch_size training_fraction).
Proof.
  intros HR. unfold load_train_val_data.
  apply until_bind; [by apply until_external_writing|intros full_train_len].
  apply until_bind; [|intros [train_len val_len]].
  { destruct (split_lengths _ _); [apply until_ret|apply until_throw]. }
  apply until_bind; [apply until_external|intros _].
  apply until_bind; [apply until_DataLoader_shuffled|intros train_loader].
  apply until_bind; [apply until_DataLoader_shuffled|intros val_loader].
  apply until_ret.
Qed.

(** Before [save_model], only the data set and the metrics are written. *)
Lemma until_train data_dir model_dir device :
  (∀ f d, R f (<[data_dir := d]> f)) →
  (∀ f d, R f (<[tracking_dir := d]> f)) →
  (∀ model, until c R (save_model model_dir model)) →
  until c R (train data_dir model_dir device).
Proof.
  intros Hdata Htrack Hsave. unfold train.
  apply until_bind;
    [by apply until_load_train_val_data|intros [train_loader val_loader]].
  apply until_bind; [apply until_external|intros model].
  apply until_bind; [apply until_external|intros _].
  apply until_bind; [apply until_external|intros _].
  apply until_bind; [|intros model'; apply Hsave].
  apply until_for_range. intros epoch m.
  apply until_bind; [apply until_external|intros _].
  apply until_bind; [apply until_external|intros [m' training]].
  apply until_bind; [apply until_external|intros validation].
  apply until_bind; [by apply until_external_writing|intros _].
  apply until_ret.
Qed.

End Relation.

Lemma confined_trans paths f1 f2 f3 :
  confined paths f1 f2 → confined paths f2 f3 → confined paths f1 f3.
Proof. intros H1 H2 q Hq. rewrite H2 by done. by apply H1. Qed.

Lemma save_model_until_saved paths model_dir model :
  until (mlflow_save_model_call temp_path) (confined paths) (save_model model_dir model).
Proof.
  unfold save_model. fold temp_path.
  apply until_bind; [apply confined_refl|apply confined_trans
                    |apply until_external; apply confined_refl|intros _].
  apply until_reached; [apply confined_refl|apply confined_trans|..].
  - intros s r s' E. eexists. split; [by eapply mlflow_save_calls|set_solver].
  - intros _. apply extends_bind; [apply extends_external|intros _].
    apply extends_bind; [apply extends_rmtree|intros _].
    apply extends_bind; [apply extends_copytree|intros _; apply extends_ret].
Qed.

Lemma save_model_until_deleting paths model_dir model :
  temp_path ∈ paths →
  until (rmtree_call model_dir true) (confined paths) (save_model model_dir model).
Proof.
  intros Ht.
  unfold save_model. fold temp_path.
  apply until_bind; [apply confined_refl|apply confined_trans
                    |apply until_external; apply confined_refl|intros _].
  apply until_bind; [apply confined_refl|apply confined_trans| |intros _].
  { intros s r s' E. exists [mlflow_save_model_call temp_path].
    split; [by eapply mlflow_save_calls|]. right.
    by destruct (mlflow_save_confined paths (fs s) model temp_path _ Ht s r s'
                   (confined_refl _ _) E) as [Hc _]. }
  apply until_bind; [apply confined_refl|apply confined_trans
                    |apply until_external; apply confined_refl|intros _].
  apply until_reached; [apply confined_refl|apply confined_trans|..].
  - intros s r s' E. eexists. split; [by eapply rmtree_calls|set_solver].
  - intros _. apply extends_bind; [apply extends_copytree|intros _; apply extends_ret].
Qed.

(** X11. A run of train that ends before mlflow.pytorch.save_model is
    called (the data set does not load, a pass or the logging of metrics
    fails) has written nothing but the data set under its root and the
    metrics under the tracking directory; and as long as rmtree has not
    been called, it has written nothing but these and the temporary
    directory: every other directory tree is as it was, so that a model
    saved in model_dir by an earlier run survives every failure before
    the replacement starts, when model_dir lies apart from the three. *)
Theorem a_run_that_fails_early_keeps_the_files data_dir model_dir device s :
  (mlflow_save_model_call temp_path
     ∉ calls_during (train data_dir model_dir device) s →
   only_changes [data_dir; tracking_dir] (fs s)
     (fs (train data_dir model_dir device s).2)) ∧
  (rmtree_call model_dir true ∉ calls_during (train data_dir model_dir device) s →
   only_changes [data_dir; tracking_dir; temp_path] (fs s)
     (fs (train data_dir model_dir device s).2) ∧
   (Forall (apart model_dir) [data_dir; tracking_dir; temp_path] →
    fs (train data_dir model_dir device s).2 !! model_dir = fs s !! model_dir)).
Proof.
  unfold calls_during.
  destruct (train data_dir model_dir device s) as [r s'] eqn:E. cbn [snd].
  split.
  - intros Hnot. apply confined_only_changes.
    destruct (until_train (mlflow_save_model_call temp_path)
                (confined [data_dir; tracking_dir])
                (confined_refl _) (confined_trans _) data_dir model_dir device
                ltac:(intros f d; apply confined_insert; [set_solver|apply confined_refl])
                ltac:(intros f d; apply confined_insert; [set_solver|apply confined_refl])
                (save_model_until_saved _ model_dir) _ _ _ E)
      as (new & Hc & [Hin|HR]); [|done].
    destruct Hnot. by rewrite Hc, drop_app_length.
  - intros Hnot.
    assert (only_changes [data_dir; tracking_dir; temp_path] (fs s) (fs s')) as Hoc.
    { apply confined_only_changes.
      destruct (until_train (rmtree_call model_dir true)
                  (confined [data_dir; tracking_dir; temp_path])
                  (confined_refl _) (confined_trans _) data_dir model_dir device
                  ltac:(intros f d; apply confined_insert; [set_solver|apply confined_refl])
                  ltac:(intros f d; apply confined_insert; [set_solver|apply confined_refl])
                  (fun model => save_model_until_deleting
                                  [data_dir; tracking_dir; temp_path] model_dir model
                                  ltac:(set_solver)) _ _ _ E)
        as (new & Hc & [Hin|HR]); [|done].
      destruct Hnot. by rewrite Hc, drop_app_length. }
    split; [done|]. intros Hapart. by apply Hoc.
Qed.

End TrainUntil.

Lemma a_run_that_fails_early_keeps_the_files_witness :
  Train.fs (@Train.train TrainExample.platform_failing "data" "out" "cpu"
              (Train.initial TrainExample.fs_rerun)).2 !! "out"
  = TrainExample.fs_rerun !! "out".
Proof.
  apply (proj2 (proj2 (a_run_that_fails_early_keeps_the_files
                         (P := TrainExample.platform_failing) "data" "out" "cpu"
                         (Train.initial TrainExample.fs_rerun))
                  ltac:(intros Hin; apply list_elem_of_In in Hin; vm_compute in Hin;
                        repeat (destruct Hin as [Hin|Hin]; [discriminate Hin|]);
                        exact Hin))).
  repeat constructor.
Defined.

(** ** What the epochs log *)
Section TrainEpochs.

Import Float64 Train TrainSpec TrainSpec2.
Context `{P : Platform}.
Local Open Scope py_scope.

Lemma logged_epochs device train_loader val_loader n epoch model :
  metrics_logged (epochs_calls device train_loader val_loader n epoch model).1
  = map (fun k =>
           (epoch_metrics
              (fit_pass device train_loader
                 (Nat.iter k (fun m => (fit_pass device train_loader m).1) model)).2
              (evaluate_pass device val_loader
                 (Nat.iter (S k) (fun m => (fit_pass device train_loader m).1) model)),
            epoch + Z.of_nat k))
        (seq 0 n) ∧
  messages_logged (epochs_calls device train_loader val_loader n epoch model).1
  = map (fun k => "Epoch " +:+ pretty (epoch + Z.of_nat k + 1)) (seq 0 n).
Proof.
  revert epoch model. induction n as [|n IH]; intros epoch model; [done|].
  cbn [epochs_calls fst snd epoch_calls].
  destruct (IH (epoch + 1) (fit_pass device train_loader model).1) as [IH1 IH2].
  unfold metrics_logged, messages_logged in *.
  rewrite !omap_app, IH1, IH2. cbn [omap list_omap app seq map].
  rewrite <- !seq_shift, !map_map. rewrite Z.add_0_r. split.
  - f_equal. apply map_ext. intros k. rewrite !Nat.iter_succ_r. cbn beta.
    f_equal. lia.
  - f_equal. apply map_ext. intros k.
    replace (epoch + Z.of_nat (S k)) with (epoch + 1 + Z.of_nat k) by lia. done.
Qed.

(** X13. In a run of train that returns, mlflow.log_metrics is called
    five times, with the steps 0 to 4; the metrics logged at step k are
    the loss and accuracy returned by the training pass that follows k
    earlier passes, and the loss and accuracy of the evaluation of the
    model this pass leaves; the message logged for this epoch says
    Epoch k+1. *)
Theorem each_epoch_logs_its_own_metrics data_dir model_dir device s :
  (train data_dir model_dir device s).1 = Ok () →
  ∃ train_len val_len,
    split_lengths (full_len data_dir) lit_0_8 = Ok (train_len, val_len) ∧
    metrics_logged (calls_during (train data_dir model_dir device) s)
    = map (fun k => (metrics_of_epoch device (loader train_len 64)
                       (loader val_len 64) k, Z.of_nat k))
        (seq 0 5) ∧
    messages_logged (calls_during (train data_dir model_dir device) s)
    = ["Epoch 1"; "Epoch 2"; "Epoch 3"; "Epoch 4"; "Epoch 5";
       "Saving model to " +:+ temp_path; "Copying model to " +:+ model_dir].
Proof.
  intros Hok. destruct (train_returns_split _ _ _ _ Hok) as (t & v & Es).
  exists t, v. split; [done|].
  assert (calls_during (train data_dir model_dir device) s
          = train_calls data_dir model_dir device) as ->.
  { unfold calls_during.
    destruct (train data_dir model_dir device s) as [r s'] eqn:E.
    cbn [fst snd] in *. subst r.
    destruct (traces_train data_dir model_dir device _ _ _ E) as (d & Hc & _ & Hd).
    destruct (Hd () eq_refl) as [-> _]. by rewrite Hc, drop_app_length. }
  unfold train_calls. rewrite Es.
  destruct (logged_epochs device (loader t 64) (loader v 64) 5 0 fresh_model)
    as [H1 H2].
  split.
  - unfold metrics_logged in *. cbn [omap list_omap].
    rewrite !omap_app, H1. cbn [omap list_omap save_model_calls].
    by rewrite app_nil_r.
  - unfold messages_logged in *. cbn [omap list_omap].
    rewrite !omap_app, H2. by cbn.
Qed.

End TrainEpochs.

Lemma each_epoch_logs_its_own_metrics_witness :
  TrainSpec2.metrics_logged
    (TrainSpec.calls_during (@Train.train TrainExample.platform "data" "out" "cpu")
       (Train.initial TrainExample.fs_rerun))
  = map (fun k => (@TrainSpec2.metrics_of_epoch TrainExample.platform "cpu"
                     (TrainSpec.loader 48000 64) (TrainSpec.loader 12000 64) k,
                   Z.of_nat k))
      (seq 0 5).
Proof.
  destruct (each_epoch_logs_its_own_metrics (P := TrainExample.platform)
              "data" "out" "cpu" (Train.initial TrainExample.fs_rerun))
    as (t & v & Es & Hm & _).
  - by vm_compute.
  - assert (Train.split_lengths (@Train.full_len TrainExample.platform "data")
              Float64.lit_0_8 = Ok (48000, 12000)) as Es' by by vm_compute.
    rewrite Es' in Es. injection Es as <- <-. exact Hm.
Defined.

(** ** A code file that is missing *)
Section MissingCode.

Import Float64 Train TrainSpec TrainSpec2.
Context `{P : Platform}.
Local Open Scope py_scope.

Lemma copy_code_path_missing c path dir name s :
  (fs s !! dir ≫= (.!! name)) = None →
  copy_code_path c path (dir, name) s
  = (Raise (MlflowException "Failed to copy the specified code path"),
     State (fs s) (calls s)
       (raised s ++ [(c, FileNotFoundError (path_join dir name));
                     (c, MlflowException "Failed to copy the specified code path")])
       (history s)).
Proof.
  intros Hx.
  unfold copy_code_path, try_except_OSError, try_except, bind at 1, read_file,
    bind at 1, get_fs.
  rewrite Hx. unfold throw. cbn [is_OSError fs calls raised history].
  by rewrite <- (assoc_L (++)).
Qed.

(** mlflow makes the directory, copies the code files it finds, and
    stops at the first one that is missing. *)
Lemma mlflow_save_missing_code model path s :
  faults (length (calls s)) = None →
  fs s !! path = None →
  code_of (fs s) = None →
  ∃ name d h,
    name ∈ ["neural_network.py"; "utils_train_nn.py"] ∧
    mlflow_pytorch_save_model model path
      (map (fun code_path => (script_dir, code_path))
         ["neural_network.py"; "utils_train_nn.py"]) s
    = (Raise (MlflowException "Failed to copy the specified code path"),
       State (<[path := d]> (fs s)) (calls s ++ [mlflow_save_model_call path])
         (raised s
          ++ [(mlflow_save_model_call path, FileNotFoundError (path_join script_dir name));
              (mlflow_save_model_call path,
               MlflowException "Failed to copy the specified code path")])
         (history s ++ h)).
Proof.
  intros Hf Hp Hc.
  unfold mlflow_pytorch_save_model, bind at 1. rewrite (enter_ok _ _ Hf).
  unfold bind at 1, get_fs. cbn [fs]. rewrite Hp. unfold bind at 1, ret at 1.
  unfold bind at 1, os_makedirs, bind at 1, get_fs. cbn [fs]. rewrite Hp.
  unfold set_fs. cbn [map for_each].
  match goal with |- ∃ name d h, _ ∧ _ ?st = _ => set (s0 := st) end.
  destruct (fs s0 !! script_dir ≫= (.!! "neural_network.py")) as [x|] eqn:Hx.
  - assert (script_dir ≠ path) as Hne.
    { intros Heq. revert Hx. unfold s0. cbn [fs].
      rewrite Heq, lookup_insert_eq. simpl. by rewrite lookup_empty. }
    destruct (copy_code_path_succeeds (mlflow_save_model_call path) path script_dir
                "neural_network.py" s0 x ∅ Hx) as (s1 & E1 & Hfs1 & Hc1 & Hr1 & Hh1).
    { unfold s0. cbn [fs]. by rewrite lookup_insert_eq. }
    { intros z. by rewrite lookup_empty. }
    assert ((fs s1 !! script_dir ≫= (.!! "utils_train_nn.py")) = None) as Hy.
    { rewrite Hfs1, lookup_insert_ne by done.
      revert Hx Hc. unfold s0, code_of. cbn [fs]. rewrite lookup_insert_ne by done.
      destruct (fs s !! script_dir) as [d|]; [|done]. simpl.
      intros ->. simpl. by destruct (d !! "utils_train_nn.py"). }
    unfold bind at 1. unfold bind at 1. rewrite E1.
    unfold bind at 1. rewrite (copy_code_path_missing _ _ _ _ _ Hy).
    exists "utils_train_nn.py". eexists _, _. split; [set_solver|]. f_equal.
    rewrite Hc1, Hr1, Hh1, Hfs1. unfold s0. cbn [fs calls raised history].
    rewrite insert_insert_eq, <- (assoc_L (++)). reflexivity.
  - unfold bind at 1. unfold bind at 1.
    rewrite (copy_code_path_missing _ _ _ _ _ Hx).
    exists "neural_network.py". eexists _, _. split; [set_solver|].
    unfold s0. cbn [fs calls raised history]. reflexivity.
Qed.

(** X14. When one of the two code files, neural_network.py and
    utils_train_nn.py, is not beside the script, save_model fails inside
    mlflow.pytorch.save_model, its second library call: mlflow has made
    the temporary directory and copied the code file it found, meets a
    FileNotFoundError at the missing one and raises an MlflowException in
    its place, which ends save_model. rmtree is not called; the temporary
    directory is left behind, and every directory tree that lies apart
    from it, model_dir with a model saved earlier among them, is as it
    was. *)
Theorem a_missing_code_file_fails_the_saving model_dir model s :
  faults (length (calls s)) = None →
  faults (S (length (calls s))) = None →
  fs s !! temp_path = None →
  code_of (fs s) = None →
  ∃ msg name,
    name ∈ ["neural_network.py"; "utils_train_nn.py"] ∧
    (save_model model_dir model s).1 = Raise (MlflowException msg) ∧
    raised_during (save_model model_dir model) s
    = [(mlflow_save_model_call temp_path, FileNotFoundError (path_join script_dir name));
       (mlflow_save_model_call temp_path, MlflowException msg)] ∧
    calls_during (save_model model_dir model) s
    = [logging_info ("Saving model to " +:+ temp_path);
       mlflow_save_model_call temp_path] ∧
    is_Some (fs (save_model model_dir model s).2 !! temp_path) ∧
    only_changes [temp_path] (fs s) (fs (save_model model_dir model s).2) ∧
    (apart model_dir temp_path →
     fs (save_model model_dir model s).2 !! model_dir = fs s !! model_dir).
Proof.
  intros Hf1 Hf2 Hfresh Hcode.
  assert (∃ name d s',
            name ∈ ["neural_network.py"; "utils_train_nn.py"] ∧
            save_model model_dir model s
            = (Raise (MlflowException "Failed to copy the specified code path"), s') ∧
            fs s' = <[temp_path := d]> (fs s) ∧
            calls s' = calls s ++ [logging_info ("Saving model to " +:+ temp_path);
                                   mlflow_save_model_call temp_path] ∧
            raised s'
            = raised s
              ++ [(mlflow_save_model_call temp_path,
                   FileNotFoundError (path_join script_dir name));
                  (mlflow_save_model_call temp_path,
                   MlflowException "Failed to copy the specified code path")])
    as (name & d & s' & Hname & Hrun & Hfs & Hcalls & Hraised).
  { unfold save_model. fold temp_path. unfold bind at 1.
    rewrite (external_ok _ _ _ Hf1).
    set (sA := State (fs s) _ (raised s) (history s)).
    destruct (mlflow_save_missing_code model temp_path sA)
      as (name & d & h & Hname & He); [|done..|].
    { unfold sA. cbn [calls]. by rewrite length_app, Nat.add_1_r. }
    unfold bind at 1. rewrite He. exists name, d. eexists.
    split; [done|]. split; [done|].
    unfold sA. cbn [fs calls raised]. by rewrite <- (assoc_L (++)). }
  exists "Failed to copy the specified code path", name.
  unfold raised_during, calls_during. rewrite Hrun. cbn [fst snd].
  rewrite Hfs, Hcalls, Hraised, !drop_app_length.
  split; [done|]. split; [done|]. split; [done|]. split; [done|].
  split; [by rewrite lookup_insert_eq|].
  assert (only_changes [temp_path] (fs s) (<[temp_path := d]> (fs s))) as Hoc.
  { apply confined_only_changes. apply confined_insert; [set_solver|].
    apply confined_refl. }
  split; [done|]. intros Hapart. apply Hoc. constructor; [done|constructor].
Qed.

End MissingCode.

Lemma a_missing_code_file_fails_the_saving_witness :
  ∃ msg, (@Train.save_model TrainExample.platform "out" 5%nat
            (Train.initial TrainExample2.fs_without_code)).1
         = Raise (MlflowException msg) ∧
         Train.fs (@Train.save_model TrainExample.platform "out" 5%nat
                     (Train.initial TrainExample2.fs_without_code)).2 !! "out"
         = TrainExample2.fs_without_code !! "out".
Proof.
  destruct (a_missing_code_file_fails_the_saving (P := TrainExample.platform)
              "out" 5%nat (Train.initial TrainExample2.fs_without_code)
              eq_refl eq_refl eq_refl eq_refl)
    as (msg & name & _ & Hr & _ & _ & _ & _ & Hfs).
  exists msg. split; [exact Hr|]. apply Hfs. split; reflexivity.
Defined.

(** * The split that train makes *)
Section SplitOfTrain.

Import Float64 Train TrainSpec.
Local Open Scope Z_scope.

(** Rounding moves a product by less than one unit in its last place: when
    the product, below [2^k], stays more than [2^(k-53)] under a whole
    number [B], the integer it truncates to is below [B]. *)
Lemma round_then_truncate_below (s : bool) (m : positive) (e k B : Z) :
  0 ≤ k ≤ 53 → e ≤ k - 53 → Z.pos m < 2 ^ (k - e) →
  Z.pos m + 2 ^ (k - 53 - e) < B * 2 ^ (- e) →
  ∃ t, (t = Z.pos m / 2 ^ (- e) ∨ t = Z.pos m / 2 ^ (- e) + 1) ∧ t < B ∧
       to_int (binary_round_aux prec emax s (Z.pos m) e loc_Exact)
       = Ok (cond_Zopp s t).
Proof.
  intros Hk He Hm Hbelow. unfold binary_round_aux.
  (* the first shift *)
  pose proof (shr_fexp_m_e (Z.pos m) e loc_Exact ltac:(lia)) as [Hq He'].
  destruct (shr_fexp prec emax (Z.pos m) e loc_Exact) as [mrs' e'].
  cbn [fst snd] in Hq, He'. cbv zeta in Hq, He'.
  set (d := Zdigits2 (Z.pos m)) in *.
  set (n1 := Z.max (fexp prec emax (d + e) - e) 0) in *.
  assert (d ≤ k - e) as Hd by (apply Zdigits2_le; lia).
  assert (1 ≤ d) as Hd1 by (unfold d; simpl; lia).
  assert (0 ≤ n1) as Hn1 by lia.
  assert (d - 53 ≤ n1 ∧ -1074 - e ≤ n1 ∧ n1 ≤ k - 53 - e) as (Hn1a & Hn1b & Hn1c).
  { unfold n1, fexp, SpecFloat.emin, prec, emax. lia. }
  assert (e' ≤ 0 ∧ -1074 ≤ e') as [He'0 He'1] by lia.
  assert (0 < 2 ^ n1) as Hpn by (apply Z.pow_pos_nonneg; lia).
  set (q := shr_m mrs') in *.
  assert (0 ≤ q < 2 ^ 53) as Hqb.
  { rewrite Hq. split; [apply Z.div_pos; lia|].
    apply Z.div_lt_upper_bound; [lia|].
    rewrite <- Z.pow_add_r by lia.
    destruct (digits2_pos_bounds m) as [_ Hhi]. fold (Zdigits2 (Z.pos m)) in Hhi.
    fold d in Hhi. eapply Z.lt_le_trans; [exact Hhi|].
    apply Z.pow_le_mono_r; lia. }
  (* rounding *)
  set (m1 := round_nearest_even q (loc_of_shr_record mrs')).
  assert (m1 = q ∨ m1 = q + 1) as Hm1 by apply round_nearest_even_cases.
  assert (0 ≤ m1 ≤ 2 ^ 53) as Hm1b by lia.
  (* the second shift *)
  pose proof (shr_fexp_m_e m1 e' loc_Exact ltac:(lia)) as [Hq2 He''].
  destruct (shr_fexp prec emax m1 e' loc_Exact) as [mrs'' e''].
  cbn [fst snd] in Hq2, He''. cbv zeta in Hq2, He''.
  set (n2 := Z.max (fexp prec emax (Zdigits2 m1 + e') - e') 0) in *.
  assert (Zdigits2 m1 ≤ 54) as Hd2 by (apply Zdigits2_le; [lia..|]; lia).
  pose proof (Zdigits2_nonneg m1) as Hd2'.
  assert (n2 = 0 ∨ n2 = 1 ∧ m1 = 2 ^ 53) as Hn2.
  { destruct (decide (m1 < 2 ^ 53)) as [Hlt|Hge].
    - left. assert (Zdigits2 m1 ≤ 53) by (apply Zdigits2_le; lia).
      unfold n2, fexp, SpecFloat.emin, prec, emax. lia.
    - right. assert (m1 = 2 ^ 53) as Heq by lia. split; [|done].
      assert (53 < Zdigits2 m1).
      { rewrite Heq. simpl. lia. }
      unfold n2, fexp, SpecFloat.emin, prec, emax. lia. }
  (* the integer *)
  set (D := 2 ^ (- e')).
  assert (0 < D) as HD by (apply Z.pow_pos_nonneg; lia).
  assert (Z.pos m / 2 ^ (- e) = q / D) as HF.
  { rewrite Hq. unfold D. rewrite Z.div_div by (try apply Z.pow_nonzero; lia).
    rewrite <- Z.pow_add_r by lia. f_equal. f_equal. lia. }
  assert (m1 < D * B) as Hbound.
  { assert (2 ^ (- e) = D * 2 ^ n1) as HDn.
    { unfold D. rewrite <- Z.pow_add_r by lia. f_equal. lia. }
    assert (2 ^ n1 ≤ 2 ^ (k - 53 - e)) by (apply Z.pow_le_mono_r; lia).
    pose proof (Z.mul_div_le (Z.pos m) (2 ^ n1) Hpn) as Hle.
    rewrite <- Hq in Hle. rewrite HDn in Hbelow.
    assert ((q + 1) * 2 ^ n1 < (D * B) * 2 ^ n1) as Hlt by lia.
    apply Z.mul_lt_mono_pos_r in Hlt; [lia|done]. }
  exists (m1 / D). split; [|split].
  { rewrite HF. destruct Hm1 as [->| ->]; [by left|]. by apply div_succ_cases. }
  { by apply Z.div_lt_upper_bound. }
  destruct Hn2 as [Hn2|[Hn2 Hm1eq]].
  - rewrite Hn2, Z.pow_0_r, Z.div_1_r in Hq2. rewrite Hn2, Z.add_0_r in He''.
    rewrite Hq2, He''.
    destruct m1 as [|p1|p1] eqn:Hp1; [|cbn zeta|lia].
    + simpl. by destruct s.
    + rewrite (proj2 (Z.leb_le e' (emax - prec))) by (unfold emax, prec; lia).
      simpl to_int. do 2 f_equal. unfold D. by apply Z.shiftl_div_pow2.
  - rewrite Hn2, Hm1eq in Hq2. rewrite Hn2 in He''. rewrite Hq2, He''.
    change (2 ^ 53 / 2 ^ 1) with (Z.pos 4503599627370496).
    cbv iota beta.
    rewrite (proj2 (Z.leb_le (e' + 1) (emax - prec))) by (unfold emax, prec; lia).
    simpl to_int. do 2 f_equal. rewrite Hm1eq. unfold D.
    destruct (decide (e' = 0)) as [->|Hne]; [done|].
    rewrite Z.shiftl_div_pow2 by lia.
    change (2 ^ 53) with (4503599627370496 * 2).
    replace (- e') with (Z.succ (- (e' + 1))) by lia.
    rewrite Z.pow_succ_r by lia.
    rewrite (Z.mul_comm 2), Z.div_mul_cancel_r; [done| |lia].
    apply Z.pow_nonzero; lia.
Qed.

(** Four fifths of the length, by the double 0.8. *)
Lemma four_fifths L :
  0 ≤ L < 2 ^ 50 →
  L * 7205759403792794 / 2 ^ 53 = 4 * L / 5 ∧
  L * 7205759403792794 + 2 ^ 50 < (4 * L / 5 + 1) * 2 ^ 53.
Proof.
  intros HL.
  pose proof (Z.div_mod (4 * L) 5 ltac:(lia)) as Hdm.
  pose proof (Z.mod_pos_bound (4 * L) 5 ltac:(lia)) as Hmod.
  set (N := 4 * L / 5) in *.
  change (2 ^ 53) with 9007199254740992. change (2 ^ 50) with 1125899906842624.
  change (2 ^ 50) with 1125899906842624 in HL.
  split; [|lia].
  symmetry. apply (Z.div_unique_pos _ _ _ (L * 7205759403792794 - N * 9007199254740992)); lia.
Qed.

Lemma split_four_fifths (L : Z) :
  0 ≤ L < 2 ^ 50 →
  split_lengths L lit_0_8 = Ok (4 * L / 5, L - 4 * L / 5).
Proof.
  intros HL. destruct (four_fifths L HL) as [HN Hlt].
  destruct (decide (L = 0)) as [->|HLne]; [by vm_compute|].
  unfold split_lengths.
  assert (2 ^ 50 < 2 ^ 53) as Hpow by done.
  destruct (of_int_small L ltac:(lia)) as (mx & ex & -> & Hex & Hmx).
  assert (0 < 2 ^ (- ex)) as Hpx by (apply Z.pow_pos_nonneg; lia).
  unfold mul, SFmul, lit_0_8. cbn [xorb].
  destruct (round_then_truncate_below false (mx * 7205759403792794) (ex + -53) 50
              (4 * L / 5 + 1)) as (t & Ht & Hbelow & ->); [lia|lia|..].
  - rewrite Pos2Z.inj_mul, Hmx.
    replace (50 - (ex + -53)) with (50 + 53 + - ex) by lia.
    rewrite !Z.pow_add_r by lia.
    change (2 ^ 53) with 9007199254740992. change (2 ^ 50) with 1125899906842624 in *.
    nia.
  - rewrite Pos2Z.inj_mul, Hmx.
    replace (50 - 53 - (ex + -53)) with (50 + - ex) by lia.
    replace (- (ex + -53)) with (53 + - ex) by lia.
    rewrite !Z.pow_add_r by lia. nia.
  - assert (Z.pos (mx * 7205759403792794) / 2 ^ (- (ex + -53)) = 4 * L / 5) as HF.
    { rewrite Pos2Z.inj_mul, Hmx, <- HN.
      replace (- (ex + -53)) with (53 + - ex) by lia.
      rewrite Z.pow_add_r by lia.
      replace (L * 2 ^ (- ex) * 7205759403792794)
        with (L * 7205759403792794 * 2 ^ (- ex)) by lia.
      apply Z.div_mul_cancel_r; lia. }
    rewrite HF in Ht. assert (t = 4 * L / 5) as -> by lia. done.
Qed.

(** X15. For the fraction 0.8 that train passes, and every data set of
    fewer than 2^50 items, train_len is the whole part of four fifths of
    the length and val_len is the rest: the rounding of the product never
    reaches the next whole number. *)
Theorem train_takes_four_fifths_of_the_data (L : Z) :
  0 ≤ L < 2 ^ 50 →
  split_lengths L lit_0_8 = Ok (4 * L / 5, L - 4 * L / 5).
Proof. apply split_four_fifths. Qed.

End SplitOfTrain.

Lemma train_takes_four_fifths_of_the_data_witness :
  Train.split_lengths 60000 Float64.lit_0_8 = Ok (48000, 12000)%Z.
Proof.
  apply (train_takes_four_fifths_of_the_data 60000). lia.
Defined.

(** ** A run in which nothing fails *)
Section TrainSucceeds.

Import Float64 Train TrainSpec TrainSpec2.
Context `{P : Platform}.
Local Open Scope py_scope.

Hypothesis no_fault : ∀ n, faults n = None.

Lemma lands_ret {A} (a : A) paths : lands (ret a) a paths.
Proof. intros s. exists s. split; [done|apply confined_refl]. Qed.

Lemma lands_external {A} c (a : A) paths : lands (external c a) a paths.
Proof.
  intros s. eexists. rewrite (external_ok _ _ _ (no_fault _)).
  split; [done|apply confined_refl].
Qed.

Lemma lands_writing {A} c dir stages (a : A) paths :
  dir ∈ paths → lands (external_writing c dir stages a) a paths.
Proof.
  intros Hd s.
  destruct (external_writing_ok c dir stages a s (no_fault _)) as (s' & E & _).
  exists s'. split; [done|].
  destruct (external_writing_end _ _ _ _ _ _ _ E) as [_ [->|[d ->]]];
    [apply confined_refl|apply confined_insert; [done|apply confined_refl]].
Qed.

Lemma lands_bind {A B} (m : M A) (f : A → M B) a b paths :
  lands m a paths → lands (f a) b paths → lands (bind m f) b paths.
Proof.
  intros Hm Hf s. destruct (Hm s) as (s1 & E1 & H1).
  destruct (Hf s1) as (s2 & E2 & H2).
  exists s2. unfold bind. rewrite E1, E2.
  split; [done|]. by eapply confined_trans.
Qed.

(** A step that lands, followed by anything. *)
Lemma lands_then {A B} (m : M A) (f : A → M B) a paths f0 s :
  lands m a paths → confined paths f0 (fs s) →
  ∃ s1, bind m f s = f a s1 ∧ confined paths f0 (fs s1).
Proof.
  intros Hm Hc. destruct (Hm s) as (s1 & E1 & H1).
  exists s1. unfold bind. rewrite E1. split; [done|]. by eapply confined_trans.
Qed.

(** One step of a run: the first computation of the goal lands by [H]. *)
Ltac land_step H :=
  match goal with
  | Hc : confined ?paths ?f0 (fs ?s) |- context [bind ?m ?f ?s] =>
      let s1 := fresh "s" in
      let Hc1 := fresh "Hc" in
      destruct (lands_then m f _ paths f0 s H Hc) as (s1 & -> & Hc1); clear Hc
  end.

Lemma lands_DataLoader_shuffled length batch paths :
  0 < length → lands (DataLoader_shuffled length batch) (loader length batch) paths.
Proof.
  intros Hpos s. unfold DataLoader_shuffled, bind.
  rewrite (enter_ok _ _ (no_fault _)).
  destruct (length <=? 0)%Z eqn:Hle; [apply Z.leb_le in Hle; lia|].
  eexists. split; [done|]. apply confined_refl.
Qed.

Lemma lands_load_train_val_data data_dir batch_size f train_len val_len paths :
  split_lengths (full_len data_dir) f = Ok (train_len, val_len) →
  0 < train_len → 0 < val_len → data_dir ∈ paths →
  lands (load_train_val_data data_dir batch_size f)
        (loader train_len batch_size, loader val_len batch_size) paths.
Proof.
  intros Hs Ht Hv Hd. unfold load_train_val_data.
  eapply lands_bind; [by apply lands_writing|]. rewrite Hs.
  eapply lands_bind; [apply lands_ret|]. cbn beta iota.
  eapply lands_bind; [apply lands_external|].
  eapply lands_bind; [by apply lands_DataLoader_shuffled|].
  eapply lands_bind; [by apply lands_DataLoader_shuffled|].
  apply lands_ret.
Qed.

Lemma lands_epochs device train_loader val_loader n epoch model paths :
  tracking_dir ∈ paths →
  lands (for_range n epoch
           (fun epoch model =>
              external (logging_info ("Epoch " +:+ pretty (epoch + 1))) () ;;
              '(model, training) ← external fit_call (fit_pass device train_loader model);
              validation ← external evaluate_call (evaluate_pass device val_loader model);
              let metrics := epoch_metrics training validation in
              external_writing (log_metrics_call metrics epoch) tracking_dir
                (record_metrics metrics epoch) () ;;
              ret model)
           model)
        (Nat.iter n (fun model => (fit_pass device train_loader model).1) model)
        paths.
Proof.
  intros Htr. revert epoch model. induction n as [|n IH]; intros epoch model.
  - apply lands_ret.
  - rewrite Nat.iter_succ_r. cbn [for_range].
    eapply lands_bind; [|apply IH].
    eapply lands_bind; [apply lands_external|].
    eapply lands_bind; [apply lands_external|].
    destruct (fit_pass device train_loader model) as [model' training]. cbn [fst].
    eapply lands_bind; [apply lands_external|].
    eapply lands_bind; [by apply lands_writing|].
    apply lands_ret.
Qed.

(** [save_model] when nothing is in its way. *)
Lemma save_model_succeeds model_dir model s code :
  code_of (fs s) = Some code →
  fs s !! temp_path = None →
  temp_path ≠ model_dir →
  (∀ name x, (fs s !! model_dir ≫= (.!! name)) = Some x → locked x = false) →
  ∃ s', save_model model_dir model s = (Ok (), s') ∧
        fs s' !! model_dir = Some (saved_model_dir model code) ∧
        fs s' !! temp_path = Some (saved_model_dir model code).
Proof.
  intros Hcode Hfresh Hne Hunlocked.
  unfold save_model. fold temp_path. unfold bind at 1.
  rewrite (external_ok _ _ _ (no_fault _)).
  set (sA := State (fs s) _ (raised s) (history s)).
  destruct (mlflow_save_succeeds model temp_path sA code (no_fault _) Hfresh Hcode)
    as [sB EB].
  unfold bind at 1. rewrite EB.
  destruct (mlflow_save_ok _ _ _ _ EB) as (code' & Hcode' & Htemp).
  assert (code' = code) as -> by (unfold sA in Hcode'; cbn [fs] in Hcode'; congruence).
  destruct (mlflow_save_untouched model temp_path _ (fs sA) sA _ sB
              (untouched_but_refl _ _) EB) as [HuB _].
  unfold bind at 1. rewrite (external_ok _ _ _ (no_fault _)).
  set (sC := State (fs sB) _ (raised sB) (history sB)).
  unfold bind at 1. destruct (rmtree_returns model_dir sC) as [sD ED]. rewrite ED.
  destruct (rmtree_shrinks model_dir true (fs sC) sC _ sD
              (shrinking_refl _ _) ED) as [[HuD _] _].
  assert (fs sD !! temp_path = Some (saved_model_dir model code)) as HtempD.
  { rewrite HuD by done. done. }
  assert (fs sD !! model_dir = None) as Hgone.
  { destruct (fs sC !! model_dir) as [d0|] eqn:Hd0.
    - replace sD with (rmtree model_dir true sC).2 by by rewrite ED.
      eapply rmtree_clears; [apply no_fault|done|].
      intros k x Hk. eapply (Hunlocked k).
      unfold sC in Hd0. cbn [fs] in Hd0. rewrite HuB in Hd0 by done.
      unfold sA in Hd0. cbn [fs] in Hd0. by rewrite Hd0.
    - rewrite rmtree_missing in ED by (try apply no_fault; done).
      by injection ED as <-. }
  destruct (copytree_succeeds temp_path model_dir sD _ (no_fault _) HtempD)
    as [s' EE].
  { intros name _ x. by rewrite Hgone. }
  unfold bind, ret. rewrite EE. exists s'. split; [done|].
  destruct (copytree_fills _ _ _ _ _ _ EE) as [[HuE HfE] _].
  destruct (copytree_ok _ _ _ _ _ _ EE) as (art & Hart & Hcopied).
  destruct (copytree_makes_dst _ _ _ _ _ _ EE) as [d Hd].
  rewrite HtempD in Hart. injection Hart as <-.
  split; [|by rewrite HuE].
  rewrite Hd. f_equal. apply map_eq. intros name.
  destruct (saved_model_dir model code !! name) as [x|] eqn:Hx.
  - specialize (Hcopied _ _ Hx). rewrite Hd in Hcopied. simpl in Hcopied.
    rewrite Hcopied. f_equal. apply unlocked_copy.
    by eapply saved_model_dir_unlocked.
  - destruct (d !! name) as [x|] eqn:Hdx; [|done].
    destruct (HfE _ _ _ Hd Hdx) as [Hold|(y & Hy & _)].
    + by rewrite Hgone in Hold.
    + rewrite HtempD in Hy. simpl in Hy. congruence.
Qed.

(** Paths that lie apart from one another are different paths. *)
Lemma all_apart_five p1 p2 p3 p4 p5 :
  all_apart [p1; p2; p3; p4; p5] →
  p1 ≠ p2 ∧ (p1 ≠ p4 ∧ p1 ≠ p5) ∧ (p2 ≠ p4 ∧ p2 ≠ p5) ∧ (p3 ≠ p4 ∧ p3 ≠ p5).
Proof.
  simpl. rewrite !Forall_cons.
  intros ((H12 & _ & H14 & H15 & _) & (_ & H24 & H25 & _) & (H34 & H35 & _) & _).
  repeat split; by apply apart_ne.
Qed.

Lemma train_succeeds data_dir model_dir device s code :
  2 ≤ full_len data_dir < 2 ^ 50 →
  all_apart [temp_path; model_dir; script_dir; data_dir; tracking_dir] →
  code_of (fs s) = Some code →
  fs s !! temp_path = None →
  (∀ name x, (fs s !! model_dir ≫= (.!! name)) = Some x → locked x = false) →
  ∃ s', train data_dir model_dir device s = (Ok (), s') ∧
        fs s' !! model_dir
        = Some (saved_model_dir (final_model data_dir device) code) ∧
        fs s' !! temp_path
        = Some (saved_model_dir (final_model data_dir device) code).
Proof.
  intros HL (Hne & [Ht1 Ht2] & [Hm1 Hm2] & [Hs1 Hs2])%all_apart_five
    Hcode Hfresh Hunlocked.
  assert (0 ≤ full_len data_dir < 2 ^ 50) as HL0 by lia.
  pose proof (split_four_fifths (full_len data_dir) HL0) as Es.
  unfold final_model. rewrite Es.
  set (train_len := 4 * full_len data_dir / 5) in *.
  set (val_len := full_len data_dir - train_len) in *.
  assert (0 < train_len ∧ 0 < val_len) as [Htl Hvl].
  { pose proof (Z.div_mod (4 * full_len data_dir) 5 ltac:(lia)) as Hdm.
    pose proof (Z.mod_pos_bound (4 * full_len data_dir) 5 ltac:(lia)) as Hmod.
    unfold val_len, train_len. lia. }
  pose proof (confined_refl [data_dir; tracking_dir] (fs s)) as Hc.
  unfold train.
  land_step (lands_load_train_val_data data_dir 64 lit_0_8 _ _ [data_dir; tracking_dir]
               Es Htl Hvl ltac:(set_solver)).
  land_step (lands_external NeuralNetwork_call fresh_model [data_dir; tracking_dir]).
  land_step (lands_external CrossEntropyLoss_call () [data_dir; tracking_dir]).
  land_step (lands_external (SGD_call lit_0_1) () [data_dir; tracking_dir]).
  land_step (lands_epochs device (loader train_len 64) (loader val_len 64)
               5 0 fresh_model [data_dir; tracking_dir] ltac:(set_solver)).
  match goal with
  | Hc : confined _ (fs s) (fs ?s5) |- _ =>
      assert (∀ q, q ≠ data_dir → q ≠ tracking_dir → fs s5 !! q = fs s !! q) as Hsame
  end.
  { intros q Hq1 Hq2. match goal with Hc : confined _ _ _ |- _ => apply Hc end.
    set_solver. }
  apply save_model_succeeds; [|by rewrite Hsame|done|by rewrite Hsame].
  unfold code_of. rewrite Hsame by done. exact Hcode.
Qed.


End TrainSucceeds.

